(** * Palette construction of convimg ([src/palette.c])

    A shallow embedding of the palette builder: the builtin bypass, the
    automatic image collection, the quantisation input assembly, the
    resolution of fixed colours against the quantiser's output, and the
    image-less placement of fixed colours.  The external collaborators
    (colour conversion, image loading, libimagequant) are parameters of the
    development; the code of [palette.c] is transcribed loop by loop. *)

From Stdlib Require Import ZArith List Bool Lia Permutation.
From stdpp Require Import base list strings.
Import ListNotations.

Local Open Scope Z_scope.

(** ** Data model *)

(** [liq_color] of libimagequant.h: four [unsigned char] channels, kept as
    integers in [0, 255]. *)
Record liq_color := mk_liq_color { r : Z; g : Z; b : Z; a : Z }.

(** Modelled from the spec: [color_t] (color.h is not part of the sources at
    hand): the RGBA colour plus its mode-converted packed form. *)
Record color_t := mk_color { rgb : liq_color; target : Z }.

(** [color_mode_t] is a C enumeration, of which [palette.c] names one
    constant, [COLOR_MODE_1555_GBGR]; its members are integers. *)
Definition color_mode_t := Z.

(** Modelled from the spec: [palette_entry_t] (palette.h is not part of the
    sources at hand); the four fields are the ones [palette.c] reads and
    writes.  [index] is an [unsigned int]. *)
Record palette_entry_t := mk_entry {
  color : color_t;
  index : nat;
  exact : bool;
  valid : bool
}.

(** Modelled from the spec: [image_t] (image.h is not part of the sources
    at hand), with the fields [palette_add_image] initialises; the decoded
    buffer lives only between [image_load] and [free].  [path] is a
    [char *] and may be [NULL]. *)
Record image_t := mk_image {
  path : option string;
  image_name : string;
  rotate : Z;
  flipx : bool;
  flipy : bool;
  rlet : bool
}.

(** Modelled from the spec: [convert_t] and the tileset structures
    (convert.h and tileset.h are not part of the sources at hand), with the
    fields [palette_automatic_build] reads; [tilesetGroup] may be [NULL]. *)
Record tileset_t := mk_tileset { image : image_t }.

Record tileset_group_t := mk_tileset_group { tilesets : list tileset_t }.

Record convert_t := mk_convert {
  paletteName : string;
  convert_images : list image_t;
  tilesetGroup : option tileset_group_t
}.

(** Modelled from the spec: [palette_t] (palette.h is not part of the
    sources at hand), with the fields [palette.c] uses.  The arrays
    [images] and [fixedEntries] are kept together with their counters:
    [numImages] and [numFixedEntries] are the lengths of the lists.
    [entries] is the table of [PALETTE_MAX_ENTRIES] slots. *)
Record palette_t := mk_palette {
  name : string;
  images : list image_t;
  maxEntries : Z;
  numEntries : Z;
  entries : list palette_entry_t;
  fixedEntries : list palette_entry_t;
  mode : color_mode_t;
  quantizeSpeed : Z;
  automatic : bool
}.

Definition numImages (palette : palette_t) : Z := Z.of_nat (length (images palette)).
Definition numFixedEntries (palette : palette_t) : Z :=
  Z.of_nat (length (fixedEntries palette)).

(** Modelled from the spec: [PALETTE_MAX_ENTRIES] (palette.h is not part of
    the sources at hand): the capacity of the table, 256 slots. *)
Definition PALETTE_MAX_ENTRIES : nat := 256.

Definition set_images (palette : palette_t) (l : list image_t) : palette_t :=
  mk_palette (name palette) l (maxEntries palette) (numEntries palette)
    (entries palette) (fixedEntries palette) (mode palette)
    (quantizeSpeed palette) (automatic palette).

Definition set_table (palette : palette_t) (es : list palette_entry_t) (n : Z)
  : palette_t :=
  mk_palette (name palette) (images palette) (maxEntries palette) n
    es (fixedEntries palette) (mode palette)
    (quantizeSpeed palette) (automatic palette).

Definition set_fixedEntries (palette : palette_t) (fs : list palette_entry_t)
  : palette_t :=
  mk_palette (name palette) (images palette) (maxEntries palette)
    (numEntries palette) (entries palette) fs (mode palette)
    (quantizeSpeed palette) (automatic palette).

Definition set_color (e : palette_entry_t) (c : color_t) : palette_entry_t :=
  mk_entry c (index e) (exact e) (valid e).

Definition set_valid (e : palette_entry_t) (v : bool) : palette_entry_t :=
  mk_entry (color e) (index e) (exact e) v.

(** ** Outcomes

    Every failing [return 1] of [palette.c] is preceded by its own
    [LL_ERROR] message; the error kinds name these sites.  A read or write
    outside an array, or through a [NULL] pointer, has no defined behaviour
    in C: such a run ends in [Undefined]. *)
Inductive error :=
| AutomaticBuildFailure   (* "Failed building automatic palette." *)
| TooManyFixedColors      (* "Number of fixed colors exceeds maximum palette size" *)
| EmptyPalette            (* "No fixed colors to create palette with." *)
| ImageLoadFailure        (* "Failed to load image" *)
| QuantizeFailure.        (* "Failed to generate palette" *)

Inductive fault :=
| NullDereference
| OutOfBounds.

Inductive outcome :=
| Success
| Failure (e : error)
| Undefined (f : fault).


(** Calls to the collaborators, in program order.
    [liq_histogram_add_image_call] stands for the three calls of lines
    379-386 on one row: [liq_image_create_rgba], [liq_histogram_add_image]
    and [liq_image_destroy]; [liq_histogram_quantize_call] is the call that
    creates the [liq_result] when it succeeds; [liq_result_destroy] carries
    whether its argument is a result or [NULL]. *)
Inductive event :=
| liq_attr_create
| liq_histogram_create
| image_load_call (image : image_t)
| image_data_free (image : image_t)
| liq_histogram_add_image_call (row : list liq_color)
| liq_histogram_quantize_call
| liq_result_destroy (present : bool)
| liq_histogram_destroy
| liq_attr_destroy
| generated_info (colors unused : Z).

(** The state a run of [palette_generate] leaves behind. *)
Record run := mk_run {
  out : outcome;
  pal : palette_t;
  trace : list event
}.

(** Computations that may hit undefined behaviour. *)
Inductive res (A : Type) :=
| Ok (x : A)
| Fault (f : fault).
Arguments Ok {A} x.
Arguments Fault {A} f.

#[global] Instance res_ret : MRet res := fun A x => Ok x.

#[global] Instance res_bind : MBind res := fun A B k m =>
  match m with
  | Ok x => k x
  | Fault f => Fault f
  end.

(** [entries[i]] as an rvalue and as an lvalue. *)
Definition read (es : list palette_entry_t) (i : nat) : res palette_entry_t :=
  match es !! i with
  | Some e => Ok e
  | None => Fault OutOfBounds
  end.

Definition write (es : list palette_entry_t) (i : nat) (e : palette_entry_t)
  : res (list palette_entry_t) :=
  if decide (i < length es)%nat then Ok (<[i := e]> es) else Fault OutOfBounds.

(** ** Builtin palettes

    The two constant tables at the end of [palette.c]: 256 RGB triplets each. *)
Definition palette_xlibc : list Z := [
  0;0;0; 0;32;8; 0;65;16; 0;97;24; 0;130;33; 0;162;41;
  0;195;49; 0;227;57; 8;0;66; 8;32;74; 8;65;82; 8;97;90;
  8;130;99; 8;162;107; 8;195;115; 8;227;123; 16;0;132; 16;32;140;
  16;65;148; 16;97;156; 16;130;165; 16;162;173; 16;195;181; 16;227;189;
  24;0;198; 24;32;206; 24;65;214; 24;97;222; 24;130;231; 24;162;239;
  24;195;247; 24;227;255; 33;4;0; 33;36;8; 33;69;16; 33;101;24;
  33;134;33; 33;166;41; 33;199;49; 33;231;57; 41;4;66; 41;36;74;
  41;69;82; 41;101;90; 41;134;99; 41;166;107; 41;199;115; 41;231;123;
  49;4;132; 49;36;140; 49;69;148; 49;101;156; 49;134;165; 49;166;173;
  49;199;181; 49;231;189; 57;4;198; 57;36;206; 57;69;214; 57;101;222;
  57;134;231; 57;166;239; 57;199;247; 57;231;255; 66;8;0; 66;40;8;
  66;73;16; 66;105;24; 66;138;33; 66;170;41; 66;203;49; 66;235;57;
  74;8;66; 74;40;74; 74;73;82; 74;105;90; 74;138;99; 74;170;107;
  74;203;115; 74;235;123; 82;8;132; 82;40;140; 82;73;148; 82;105;156;
  82;138;165; 82;170;173; 82;203;181; 82;235;189; 90;8;198; 90;40;206;
  90;73;214; 90;105;222; 90;138;231; 90;170;239; 90;203;247; 90;235;255;
  99;12;0; 99;44;8; 99;77;16; 99;109;24; 99;142;33; 99;174;41;
  99;207;49; 99;239;57; 107;12;66; 107;44;74; 107;77;82; 107;109;90;
  107;142;99; 107;174;107; 107;207;115; 107;239;123; 115;12;132; 115;44;140;
  115;77;148; 115;109;156; 115;142;165; 115;174;173; 115;207;181; 115;239;189;
  123;12;198; 123;44;206; 123;77;214; 123;109;222; 123;142;231; 123;174;239;
  123;207;247; 123;239;255; 132;16;0; 132;48;8; 132;81;16; 132;113;24;
  132;146;33; 132;178;41; 132;211;49; 132;243;57; 140;16;66; 140;48;74;
  140;81;82; 140;113;90; 140;146;99; 140;178;107; 140;211;115; 140;243;123;
  148;16;132; 148;48;140; 148;81;148; 148;113;156; 148;146;165; 148;178;173;
  148;211;181; 148;243;189; 156;16;198; 156;48;206; 156;81;214; 156;113;222;
  156;146;231; 156;178;239; 156;211;247; 156;243;255; 165;20;0; 165;52;8;
  165;85;16; 165;117;24; 165;150;33; 165;182;41; 165;215;49; 165;247;57;
  173;20;66; 173;52;74; 173;85;82; 173;117;90; 173;150;99; 173;182;107;
  173;215;115; 173;247;123; 181;20;132; 181;52;140; 181;85;148; 181;117;156;
  181;150;165; 181;182;173; 181;215;181; 181;247;189; 189;20;198; 189;52;206;
  189;85;214; 189;117;222; 189;150;231; 189;182;239; 189;215;247; 189;247;255;
  198;24;0; 198;56;8; 198;89;16; 198;121;24; 198;154;33; 198;186;41;
  198;219;49; 198;251;57; 206;24;66; 206;56;74; 206;89;82; 206;121;90;
  206;154;99; 206;186;107; 206;219;115; 206;251;123; 214;24;132; 214;56;140;
  214;89;148; 214;121;156; 214;154;165; 214;186;173; 214;219;181; 214;251;189;
  222;24;198; 222;56;206; 222;89;214; 222;121;222; 222;154;231; 222;186;239;
  222;219;247; 222;251;255; 231;28;0; 231;60;8; 231;93;16; 231;125;24;
  231;158;33; 231;190;41; 231;223;49; 231;255;57; 239;28;66; 239;60;74;
  239;93;82; 239;125;90; 239;158;99; 239;190;107; 239;223;115; 239;255;123;
  247;28;132; 247;60;140; 247;93;148; 247;125;156; 247;158;165; 247;190;173;
  247;223;181; 247;255;189; 255;28;198; 255;60;206; 255;93;214; 255;125;222;
  255;158;231; 255;190;239; 255;223;247; 255;255;255
]%Z.

Definition palette_rgb332 : list Z := [
  0;0;0; 0;0;104; 0;0;183; 0;0;255; 51;0;0; 51;0;104;
  51;0;183; 51;0;255; 92;0;0; 92;0;104; 92;0;183; 92;0;255;
  127;0;0; 127;0;104; 127;0;183; 127;0;255; 162;0;0; 162;0;104;
  162;0;183; 162;0;255; 193;0;0; 193;0;104; 193;0;183; 193;0;255;
  225;0;0; 225;0;104; 225;0;183; 225;0;255; 255;0;0; 255;0;104;
  255;0;183; 255;0;255; 0;51;0; 0;51;104; 0;51;183; 0;51;255;
  51;51;0; 51;51;104; 51;51;183; 51;51;255; 92;51;0; 92;51;104;
  92;51;183; 92;51;255; 127;51;0; 127;51;104; 127;51;183; 127;51;255;
  162;51;0; 162;51;104; 162;51;183; 162;51;255; 193;51;0; 193;51;104;
  193;51;183; 193;51;255; 225;51;0; 225;51;104; 225;51;183; 225;51;255;
  255;51;0; 255;51;104; 255;51;183; 255;51;255; 0;92;0; 0;92;104;
  0;92;183; 0;92;255; 51;92;0; 51;92;104; 51;92;183; 51;92;255;
  92;92;0; 92;92;104; 92;92;183; 92;92;255; 127;92;0; 127;92;104;
  127;92;183; 127;92;255; 162;92;0; 162;92;104; 162;92;183; 162;92;255;
  193;92;0; 193;92;104; 193;92;183; 193;92;255; 225;92;0; 225;92;104;
  225;92;183; 225;92;255; 255;92;0; 255;92;104; 255;92;183; 255;92;255;
  0;127;0; 0;127;104; 0;127;183; 0;127;255; 51;127;0; 51;127;104;
  51;127;183; 51;127;255; 92;127;0; 92;127;104; 92;127;183; 92;127;255;
  127;127;0; 127;127;104; 127;127;183; 127;127;255; 162;127;0; 162;127;104;
  162;127;183; 162;127;255; 193;127;0; 193;127;104; 193;127;183; 193;127;255;
  225;127;0; 225;127;104; 225;127;183; 225;127;255; 255;127;0; 255;127;104;
  255;127;183; 255;127;255; 0;162;0; 0;162;104; 0;162;183; 0;162;255;
  51;162;0; 51;162;104; 51;162;183; 51;162;255; 92;162;0; 92;162;104;
  92;162;183; 92;162;255; 127;162;0; 127;162;104; 127;162;183; 127;162;255;
  162;162;0; 162;162;104; 162;162;183; 162;162;255; 193;162;0; 193;162;104;
  193;162;183; 193;162;255; 225;162;0; 225;162;104; 225;162;183; 225;162;255;
  255;162;0; 255;162;104; 255;162;183; 255;162;255; 0;193;0; 0;193;104;
  0;193;183; 0;193;255; 51;193;0; 51;193;104; 51;193;183; 51;193;255;
  92;193;0; 92;193;104; 92;193;183; 92;193;255; 127;193;0; 127;193;104;
  127;193;183; 127;193;255; 162;193;0; 162;193;104; 162;193;183; 162;193;255;
  193;193;0; 193;193;104; 193;193;183; 193;193;255; 225;193;0; 225;193;104;
  225;193;183; 225;193;255; 255;193;0; 255;193;104; 255;193;183; 255;193;255;
  0;225;0; 32;225;104; 0;225;183; 0;225;255; 51;225;0; 51;225;104;
  51;225;183; 51;225;255; 92;225;0; 92;225;104; 92;225;183; 92;225;255;
  127;225;0; 127;225;104; 127;225;183; 127;225;255; 162;225;0; 162;225;104;
  162;225;183; 162;225;255; 193;225;0; 193;225;104; 193;225;183; 193;225;255;
  225;225;0; 225;225;104; 225;225;183; 225;225;255; 255;225;0; 255;225;104;
  255;225;183; 255;225;255; 0;255;0; 0;255;104; 0;255;183; 0;255;255;
  51;255;0; 51;255;104; 51;255;183; 51;255;255; 92;255;0; 92;255;104;
  92;255;183; 92;255;255; 127;255;0; 127;255;104; 127;255;183; 127;255;255;
  162;255;0; 162;255;104; 162;255;183; 162;255;255; 193;255;0; 193;255;104;
  193;255;183; 193;255;255; 225;255;0; 225;255;104; 225;255;183; 225;255;255;
  255;255;0; 255;255;104; 255;255;183; 255;255;255
]%Z.

(** libimagequant's handles, as far as [palette.c] configures them: the
    attribute holds the speed and the colour ceiling, the histogram the
    seeded fixed colours and the rows of pixels added so far. *)
Record liq_attr := mk_attr { speed : Z; max_colors : Z }.

Record liq_histogram := mk_hist {
  fixed_colors : list liq_color;
  rows : list (list liq_color)
}.

Definition liq_histogram_add_fixed_color (hist : liq_histogram) (c : liq_color)
  : liq_histogram :=
  mk_hist (fixed_colors hist ++ [c]) (rows hist).

Definition liq_histogram_add_image (hist : liq_histogram) (row : list liq_color)
  : liq_histogram :=
  mk_hist (fixed_colors hist) (rows hist ++ [row]).

(** The comparison of the three colour channels that [palette.c] spells out
    in both of its matching loops; alpha takes no part. *)
Definition same_rgb (x y : liq_color) : bool :=
  (r x =? r y) && (g x =? g y) && (b x =? b y).

(** The least value of the C type [int] (32 bits, two's complement). *)
Definition INT_MIN : Z := -2147483648.

(** The subtraction [palette->maxEntries - exactEntries] of line 291, on
    [int]s.  [exactEntries] counts fixed entries, so that the difference
    can leave the range of [int] downwards only; the value then wraps
    around by 2^32. *)
Definition int_sub (x y : Z) : Z :=
  if x - y <? INT_MIN then x - y + 4294967296 else x - y.

(** [if (i > maxIndex) maxIndex = i;] *)
Definition raise_to (maxIndex : Z) (i : nat) : Z :=
  if maxIndex <? Z.of_nat i then Z.of_nat i else maxIndex.

(** ** Collaborators

    What [palette.c] calls and does not define. *)
Class Collaborators := {
  (** [color_convert(&c, mode)] of convert.h, as the function from the
      colour before the call to the colour after it. *)
  color_convert : color_t -> color_mode_t -> color_t;
  (** [image_load(image)]: [None] for a non-zero return, otherwise the
      decoded buffer of [width * height] RGBA8 pixels. *)
  image_load : image_t -> option (list liq_color);
  (** [liq_histogram_quantize] followed by [liq_get_palette]: [None] for a
      result other than [LIQ_OK], otherwise the [count] colours of the
      palette. *)
  liq_histogram_quantize : liq_histogram -> liq_attr -> option (list liq_color);
  strings_basename : string -> string;
  COLOR_MODE_1555_GBGR : color_mode_t;
  (** The contents of an automatic [color_t] that has not been assigned. *)
  uninitialized : color_t
}.

Section Palette.

Context {ext : Collaborators}.

(** ** [palette_add_image]

    The palette is a value here, so only [path == NULL] fails; a failing
    [realloc] is not modelled. *)
Definition palette_add_image (palette : palette_t) (p : option string)
  : Z * palette_t :=
  match p with
  | None => (1, palette)
  | Some s =>
      (0, set_images palette
            (images palette ++
             [mk_image (Some s) (strings_basename s) 0 false false false]))
  end.

(** ** [palette_generate_builtin] *)

Definition byte_at (builtin : list Z) (i : nat) : res Z :=
  match builtin !! i with
  | Some x => Ok x
  | None => Fault OutOfBounds
  end.

Fixpoint builtin_loop (builtin : list Z) (m : color_mode_t)
    (i n : nat) (es : list palette_entry_t) : res (list palette_entry_t) :=
  match n with
  | O => Ok es
  | S n' =>
      e ← read es i;
      cr ← byte_at builtin (i * 3 + 0);
      cg ← byte_at builtin (i * 3 + 1);
      cb ← byte_at builtin (i * 3 + 2);
      let ec := mk_color (mk_liq_color cr cg cb 255) (target (color e)) in
      es' ← write es i (set_color e (color_convert ec m));
      builtin_loop builtin m (S i) n' es'
  end.

Definition palette_generate_builtin (palette : palette_t) (builtin : list Z)
    (numEntries : nat) (m : color_mode_t) : run :=
  match builtin_loop builtin m 0 numEntries (entries palette) with
  | Ok es => mk_run Success (set_table palette es (Z.of_nat numEntries)) []
  | Fault f => mk_run (Undefined f) palette []
  end.

(** ** [palette_automatic_build] *)

Fixpoint add_images (palette : palette_t) (l : list image_t) : Z * palette_t :=
  match l with
  | [] => (0, palette)
  | i :: rest =>
      let '(ret, palette') := palette_add_image palette (path i) in
      if ret =? 0 then add_images palette' rest else (ret, palette')
  end.

Fixpoint palette_automatic_build (palette : palette_t) (converts : list convert_t)
  : Z * palette_t :=
  match converts with
  | [] => (0, palette)
  | c :: rest =>
      if negb (String.eqb (name palette) (paletteName c))
      then palette_automatic_build palette rest
      else
        let '(ret, palette1) := add_images palette (convert_images c) in
        if negb (ret =? 0) then (ret, palette1)
        else
          let '(ret, palette2) :=
            match tilesetGroup c with
            | Some group => add_images palette1 (map image (tilesets group))
            | None => (0, palette1)
            end in
          if negb (ret =? 0) then (ret, palette2)
          else palette_automatic_build palette2 rest
  end.

(** ** [palette_generate_with_images] *)

(** The first loop: the number of exact fixed entries. *)
Fixpoint count_exact (fs : list palette_entry_t) (exactEntries : Z) : Z :=
  match fs with
  | [] => exactEntries
  | entry :: rest =>
      count_exact rest (if exact entry then exactEntries + 1 else exactEntries)
  end.

(** The second loop: every fixed entry that is not exact is converted in
    place and handed to the histogram. *)
Fixpoint add_fixed_colors (m : color_mode_t) (fs : list palette_entry_t)
    (hist : liq_histogram) : list palette_entry_t * liq_histogram :=
  match fs with
  | [] => ([], hist)
  | entry :: rest =>
      if exact entry then
        let '(rest', hist') := add_fixed_colors m rest hist in
        (entry :: rest', hist')
      else
        let entry' := set_color entry (color_convert (color entry) m) in
        let '(rest', hist') :=
          add_fixed_colors m rest
            (liq_histogram_add_fixed_color hist (rgb (color entry'))) in
        (entry' :: rest', hist')
  end.

(** The loop over [k]: [addcolor] stays true unless some exact fixed entry
    has the pixel's red, green and blue. *)
Fixpoint addcolor (fs : list palette_entry_t) (px : liq_color) : bool :=
  match fs with
  | [] => true
  | entry :: rest =>
      if exact entry && same_rgb px (rgb (color entry)) then false
      else addcolor rest px
  end.

(** The four bytes written back for a pixel that is kept. *)
Definition convert_pixel (m : color_mode_t) (px : liq_color) : liq_color :=
  rgb (color_convert (mk_color px (target uninitialized)) m).

(** The loop over [j]: the buffer is compacted in place; pixel [j] is read,
    and, when kept, its conversion is written at pixel [numcolors]. *)
Fixpoint filter_pixels (fs : list palette_entry_t) (m : color_mode_t)
    (n j numcolors : nat) (data : list liq_color) : list liq_color * nat :=
  match n with
  | O => (data, numcolors)
  | S n' =>
      match data !! j with
      | None => (data, numcolors)
      | Some px =>
          if addcolor fs px then
            filter_pixels fs m n' (S j) (S numcolors)
              (<[numcolors := convert_pixel m px]> data)
          else filter_pixels fs m n' (S j) numcolors data
      end
  end.

(** The [while] loop over the images.  [None] is the early [return 1]. *)
Fixpoint read_images (fs : list palette_entry_t) (m : color_mode_t)
    (maxEntries : Z) (l : list image_t) (hist : liq_histogram)
    (needquantize : bool) (t : list event)
  : option (liq_histogram * bool) * list event :=
  match l with
  | [] => (Some (hist, needquantize), t)
  | i :: rest =>
      if negb (1 <? maxEntries) then (Some (hist, needquantize), t)
      else
        match image_load i with
        | None => (None, t ++ [image_load_call i])
        | Some data =>
            let '(data', numcolors) :=
              filter_pixels fs m (length data) 0 0 data in
            if (0 <? numcolors)%nat then
              read_images fs m maxEntries rest
                (liq_histogram_add_image hist (take numcolors data')) true
                (t ++ [image_load_call i;
                       liq_histogram_add_image_call (take numcolors data');
                       image_data_free i])
            else
              read_images fs m maxEntries rest hist needquantize
                (t ++ [image_load_call i; image_data_free i])
        end
  end.

(** The loop that stores the quantized palette. *)
Fixpoint store_quantized (m : color_mode_t) (l : list liq_color) (i : nat)
    (es : list palette_entry_t) (maxIndex : Z)
  : res (list palette_entry_t * Z) :=
  match l with
  | [] => Ok (es, maxIndex)
  | c :: rest =>
      let c' :=
        color_convert
          (mk_color (mk_liq_color (r c) (g c) (b c) (a (rgb uninitialized)))
                    (target uninitialized)) m in
      e ← read es i;
      es' ← write es i (mk_entry c' (index e) (exact e) true);
      store_quantized m rest (S i) es' (raise_to maxIndex i)
  end.

(** The inner loop over [j] of the search for a fixed colour. *)
Fixpoint find_color (fixedEntry : palette_entry_t) (es : list palette_entry_t)
    (j n : nat) : res (option nat) :=
  match n with
  | O => Ok None
  | S n' =>
      entry ← read es j;
      if same_rgb (rgb (color fixedEntry)) (rgb (color entry)) then Ok (Some j)
      else find_color fixedEntry es (S j) n'
  end.

(** The body of the [if] inside that loop: the swap through [tmpEntry]. *)
Definition swap_into_place (fixedEntry : palette_entry_t) (j : nat)
    (es : list palette_entry_t) (maxIndex : Z)
  : res (list palette_entry_t * Z) :=
  tmpEntry ← read es j;
  displaced ← read es (index fixedEntry);
  es1 ← write es j displaced;
  es2 ← write es1 (index fixedEntry) (set_valid tmpEntry true);
  Ok (es2, raise_to maxIndex (index fixedEntry)).

(** The loop over the fixed entries that are not exact.  [liqpalette] is
    the pointer the quantizer left: [None] is [NULL]. *)
Definition place_fixed (liqpalette : option (list liq_color))
    (fixedEntry : palette_entry_t) (es : list palette_entry_t) (maxIndex : Z)
  : res (list palette_entry_t * Z) :=
  if exact fixedEntry then Ok (es, maxIndex)
  else
    match liqpalette with
    | None => Fault NullDereference
    | Some l =>
        found ← find_color fixedEntry es 0 (length l);
        match found with
        | Some j => swap_into_place fixedEntry j es maxIndex
        | None => Ok (es, maxIndex)
        end
    end.

Fixpoint place_fixed_all (liqpalette : option (list liq_color))
    (fs : list palette_entry_t) (es : list palette_entry_t) (maxIndex : Z)
  : res (list palette_entry_t * Z) :=
  match fs with
  | [] => Ok (es, maxIndex)
  | fixedEntry :: rest =>
      '(es', maxIndex') ← place_fixed liqpalette fixedEntry es maxIndex;
      place_fixed_all liqpalette rest es' maxIndex'
  end.

(** The scan for a slot that is not valid; [PALETTE_MAX_ENTRIES] when there
    is none. *)
Fixpoint first_free (es : list palette_entry_t) (j n : nat) : res nat :=
  match n with
  | O => Ok j
  | S n' =>
      entry ← read es j;
      if valid entry then first_free es (S j) n' else Ok j
  end.

(** The body of the loop over the exact fixed entries. *)
Definition place_exact (m : color_mode_t) (fixedEntry : palette_entry_t)
    (es : list palette_entry_t) (maxIndex : Z)
  : res (palette_entry_t * list palette_entry_t * Z) :=
  let fixedEntry' := set_color fixedEntry (color_convert (color fixedEntry) m) in
  occupant ← read es (index fixedEntry');
  '(es1, maxIndex1) ←
    (if valid occupant then
       j ← first_free es 0 PALETTE_MAX_ENTRIES;
       es' ← write es j occupant;
       Ok (es', raise_to maxIndex j)
     else Ok (es, maxIndex));
  es2 ← write es1 (index fixedEntry') (set_valid fixedEntry' true);
  Ok (fixedEntry', es2, raise_to maxIndex1 (index fixedEntry')).

Fixpoint place_exact_all (m : color_mode_t) (fs : list palette_entry_t)
    (es : list palette_entry_t) (maxIndex : Z)
  : res (list palette_entry_t * list palette_entry_t * Z) :=
  match fs with
  | [] => Ok ([], es, maxIndex)
  | fixedEntry :: rest =>
      if negb (exact fixedEntry) then
        '(rest', es', maxIndex') ← place_exact_all m rest es maxIndex;
        Ok (fixedEntry :: rest', es', maxIndex')
      else
        '(fixedEntry', es1, maxIndex1) ← place_exact m fixedEntry es maxIndex;
        '(rest', es', maxIndex') ← place_exact_all m rest es1 maxIndex1;
        Ok (fixedEntry' :: rest', es', maxIndex')
  end.

(** The last loop: the slots below [numEntries] that are not valid. *)
Fixpoint count_unused (es : list palette_entry_t) (i n : nat) (unused : Z)
  : res Z :=
  match n with
  | O => Ok unused
  | S n' =>
      entry ← read es i;
      count_unused es (S i) n' (if valid entry then unused else unused + 1)
  end.

(** Everything after the quantizer has been asked: the two loops over the
    fixed entries, [numEntries], and the count of unused slots. *)
Definition resolve (m : color_mode_t) (liqpalette : option (list liq_color))
    (fs : list palette_entry_t) (es : list palette_entry_t) (maxIndex : Z)
  : res (list palette_entry_t * list palette_entry_t * Z * Z) :=
  '(es1, maxIndex1) ← place_fixed_all liqpalette fs es maxIndex;
  '(fs', es2, maxIndex2) ← place_exact_all m fs es1 maxIndex1;
  let numEntries := maxIndex2 + 1 in
  unused ← count_unused es2 0 (Z.to_nat numEntries) 0;
  Ok (fs', es2, numEntries, unused).

(** The tail of the function, from the resolution to [return 0]. *)
Definition finish (palette : palette_t) (liqpalette : option (list liq_color))
    (es : list palette_entry_t) (maxIndex : Z) (t : list event) : run :=
  match resolve (mode palette) liqpalette (fixedEntries palette) es maxIndex with
  | Fault f => mk_run (Undefined f) palette t
  | Ok (fs', es', numEntries, unused) =>
      mk_run Success
        (set_table (set_fixedEntries palette fs') es' numEntries)
        (t ++ [generated_info numEntries
                 (Z.of_nat PALETTE_MAX_ENTRIES - numEntries + unused);
               liq_result_destroy (bool_decide (is_Some liqpalette));
               liq_histogram_destroy; liq_attr_destroy])
  end.

(** The local [maxEntries] is an [int]: the difference of line 291 is
    taken with [int_sub]. *)
Definition palette_generate_with_images (palette : palette_t) : run :=
  let exactEntries := count_exact (fixedEntries palette) 0 in
  let maxEntries := int_sub (maxEntries palette) exactEntries in
  let attr := mk_attr (quantizeSpeed palette) maxEntries in
  let '(fs, hist) :=
    add_fixed_colors (mode palette) (fixedEntries palette) (mk_hist [] []) in
  let palette1 := set_fixedEntries palette fs in
  match read_images fs (mode palette) maxEntries (images palette) hist false
          [liq_attr_create; liq_histogram_create] with
  | (None, t) =>
      mk_run (Failure ImageLoadFailure) palette1
        (t ++ [liq_histogram_destroy; liq_attr_destroy])
  | (Some (hist', needquantize), t) =>
      if needquantize then
        match liq_histogram_quantize hist' attr with
        | None =>
            mk_run (Failure QuantizeFailure) palette1
              (t ++ [liq_histogram_quantize_call;
                     liq_histogram_destroy; liq_attr_destroy])
        | Some l =>
            match store_quantized (mode palette) l 0 (entries palette) (-1) with
            | Fault f =>
                mk_run (Undefined f) palette1 (t ++ [liq_histogram_quantize_call])
            | Ok (es, maxIndex) =>
                finish palette1 (Some l) es maxIndex
                  (t ++ [liq_histogram_quantize_call])
            end
        end
      else finish palette1 None (entries palette) (-1) t
  end.

(** ** [palette_generate]

    [palette] is the structure behind a pointer that is not [NULL]. *)

(** The loop of the branch without images. *)
Fixpoint copy_fixed (fs : list palette_entry_t) (es : list palette_entry_t)
    (maxIndex : Z) : res (list palette_entry_t * Z) :=
  match fs with
  | [] => Ok (es, maxIndex)
  | fixedEntry :: rest =>
      es' ← write es (index fixedEntry) fixedEntry;
      copy_fixed rest es' (raise_to maxIndex (index fixedEntry))
  end.

Definition palette_generate (palette : palette_t) (converts : list convert_t)
  : run :=
  if String.eqb (name palette) "xlibc"%string then
    palette_generate_builtin palette palette_xlibc PALETTE_MAX_ENTRIES
      COLOR_MODE_1555_GBGR
  else if String.eqb (name palette) "rgb332"%string then
    palette_generate_builtin palette palette_rgb332 PALETTE_MAX_ENTRIES
      COLOR_MODE_1555_GBGR
  else
    let '(ret, palette1) :=
      if automatic palette then palette_automatic_build palette converts
      else (0, palette) in
    if negb (ret =? 0) then mk_run (Failure AutomaticBuildFailure) palette1 []
    else if maxEntries palette1 <? numFixedEntries palette1 then
      mk_run (Failure TooManyFixedColors) palette1 []
    else if 0 <? numImages palette1 then palette_generate_with_images palette1
    else if numFixedEntries palette1 =? 0 then
      mk_run (Failure EmptyPalette) palette1 []
    else
      match copy_fixed (fixedEntries palette1) (entries palette1) (-1) with
      | Fault f => mk_run (Undefined f) palette1 []
      | Ok (es, maxIndex) =>
          let numEntries := maxIndex + 1 in
          mk_run Success (set_table palette1 es numEntries)
            [generated_info numEntries
               (Z.of_nat PALETTE_MAX_ENTRIES - numEntries
                + numFixedEntries palette1)]
      end.

End Palette.

(** ** Collaborators for the examples

    A converter that rounds every channel down to a multiple of eight and
    packs the three five-bit values, a loader that answers from a list of
    files, and a quantizer that answers with a colour list fixed in
    advance.  They stand in for convert.c, image.c and libimagequant in the
    closed examples only. *)
Definition sample_convert (c : color_t) (m : color_mode_t) : color_t :=
  let q x := x / 8 in
  let px := rgb c in
  mk_color (mk_liq_color (q (r px) * 8) (q (g px) * 8) (q (b px) * 8) (a px))
           (q (r px) * 1024 + q (g px) * 32 + q (b px)).

Fixpoint sample_load (files : list (string * list liq_color)) (i : image_t)
  : option (list liq_color) :=
  match files with
  | [] => None
  | (p, data) :: rest =>
      if bool_decide (path i = Some p) then Some data else sample_load rest i
  end.

Definition sample_ext (files : list (string * list liq_color))
    (answer : option (list liq_color)) : Collaborators :=
  {| color_convert := sample_convert;
     image_load := sample_load files;
     liq_histogram_quantize := fun _ _ => answer;
     strings_basename := fun s => s;
     COLOR_MODE_1555_GBGR := 0;
     uninitialized := mk_color (mk_liq_color 0 0 0 0) 0 |}.

Definition black : liq_color := mk_liq_color 0 0 0 255.
Definition red : liq_color := mk_liq_color 248 0 0 255.
Definition green : liq_color := mk_liq_color 0 248 0 255.

(** A slot that has never been written: not valid, and black. *)
Definition blank : palette_entry_t :=
  mk_entry (mk_color (mk_liq_color 0 0 0 0) 0) 0 false false.

Definition blank_table : list palette_entry_t := replicate PALETTE_MAX_ENTRIES blank.

Definition fixed_color (c : liq_color) (i : nat) (x : bool) : palette_entry_t :=
  mk_entry (mk_color c 0) i x false.

Definition file (p : string) : image_t := mk_image (Some p) p 0 false false false.

Definition sample_palette (n : string) (l : list image_t) (cap : Z)
    (fs : list palette_entry_t) : palette_t :=
  mk_palette n l cap 0 blank_table fs 0 3 false.

(** The same collaborators with another quantizer. *)
Definition with_quantizer (ext : Collaborators)
    (q : liq_histogram -> liq_attr -> option (list liq_color)) : Collaborators :=
  {| color_convert := @color_convert ext;
     image_load := @image_load ext;
     liq_histogram_quantize := q;
     strings_basename := @strings_basename ext;
     COLOR_MODE_1555_GBGR := @COLOR_MODE_1555_GBGR ext;
     uninitialized := @uninitialized ext |}.

(** * Vocabulary of the properties *)

(** Triplet [i] of a builtin table, with the alpha the builtin loop
    gives it. *)
Definition triplet (builtin : list Z) (i : nat) : liq_color :=
  mk_liq_color (nth (i * 3 + 0) builtin 0) (nth (i * 3 + 1) builtin 0)
               (nth (i * 3 + 2) builtin 0) 255.

(** The builtin table a palette name stands for, if any: the two [strcmp]
    tests at the head of [palette_generate]. *)
Definition reserved (n : string) : option (list Z) :=
  if String.eqb n "xlibc" then Some palette_xlibc
  else if String.eqb n "rgb332" then Some palette_rgb332
  else None.

Section Vocabulary.

Context {ext : Collaborators}.

(** What the builtin loop leaves in slot [i] that held [e]: the colour of
    the table, converted; the other three fields of the slot are kept. *)
Definition builtin_entry (builtin : list Z) (m : color_mode_t) (i : nat)
    (e : palette_entry_t) : palette_entry_t :=
  set_color e (color_convert (mk_color (triplet builtin i) (target (color e))) m).

(** The step of [palette_generate] between the builtin test and the
    capacity test. *)
Definition collect (palette : palette_t) (converts : list convert_t)
  : Z * palette_t :=
  if automatic palette then palette_automatic_build palette converts
  else (0, palette).

(** The table after the fixed entries were written one after the other,
    each over the slot of its pinned index. *)
Definition place_all (es : list palette_entry_t) (fs : list palette_entry_t)
  : list palette_entry_t :=
  foldl (fun acc f => <[index f := f]> acc) es fs.

Definition raise_all (maxIndex : Z) (fs : list palette_entry_t) : Z :=
  foldl (fun acc f => raise_to acc (index f)) maxIndex fs.

(** In the words of the specification: a pixel is dropped when its red,
    green and blue are those of some exact fixed colour. *)
Definition is_exact_color (fs : list palette_entry_t) (px : liq_color) : bool :=
  existsb (fun entry => exact entry && same_rgb px (rgb (color entry))) fs.

Definition survivors (fs : list palette_entry_t) (data : list liq_color)
  : list liq_color :=
  List.filter (fun px => negb (is_exact_color fs px)) data.

(** The row an image contributes to the histogram, if any. *)
Definition submitted_row (fs : list palette_entry_t) (m : color_mode_t)
    (i : image_t) : option (list liq_color) :=
  match image_load i with
  | None => None
  | Some data =>
      match survivors fs data with
      | [] => None
      | s => Some (map (convert_pixel m) s)
      end
  end.

(** The calls made for an image that loads. *)
Definition image_events (fs : list palette_entry_t) (m : color_mode_t)
    (i : image_t) : list event :=
  match submitted_row fs m i with
  | Some row =>
      [image_load_call i; liq_histogram_add_image_call row; image_data_free i]
  | None => [image_load_call i; image_data_free i]
  end.

(** The rows the images of [l] contribute, in order. *)
Definition submitted_rows (fs : list palette_entry_t) (m : color_mode_t)
    (l : list image_t) : list (list liq_color) :=
  omap (submitted_row fs m) l.

Definition nonempty {A} (l : list A) : bool :=
  match l with
  | [] => false
  | _ => true
  end.

(** The fixed entries once the second loop has converted the ones that are
    not exact, and the histogram it leaves. *)
Definition seeded (palette : palette_t) : list palette_entry_t :=
  fst (add_fixed_colors (mode palette) (fixedEntries palette) (mk_hist [] [])).

Definition seeds (palette : palette_t) : liq_histogram :=
  snd (add_fixed_colors (mode palette) (fixedEntries palette) (mk_hist [] [])).

(** [maxEntries - exactEntries] in the arithmetic of [int], the ceiling
    given to the quantizer. *)
Definition capacity (palette : palette_t) : Z :=
  int_sub (maxEntries palette) (count_exact (fixedEntries palette) 0).

(** The images the [while] loop reaches. *)
Definition processed (palette : palette_t) : list image_t :=
  if 1 <? capacity palette then images palette else [].

(** The part of the function that follows a call of the quantizer. *)
Definition quantized (palette1 : palette_t) (es : list palette_entry_t)
    (answer : option (list liq_color)) (t : list event) : run :=
  match answer with
  | None =>
      mk_run (Failure QuantizeFailure) palette1
        (t ++ [liq_histogram_quantize_call;
               liq_histogram_destroy; liq_attr_destroy])
  | Some l =>
      match store_quantized (mode palette1) l 0 es (-1) with
      | Fault f =>
          mk_run (Undefined f) palette1 (t ++ [liq_histogram_quantize_call])
      | Ok (es', maxIndex) =>
          finish palette1 (Some l) es' maxIndex
            (t ++ [liq_histogram_quantize_call])
      end
  end.

(** The seeding loop converts the entries that are not exact and nothing
    else. *)
Definition seed (m : color_mode_t) (entry : palette_entry_t) : palette_entry_t :=
  if exact entry then entry
  else set_color entry (color_convert (color entry) m).

(** The histogram handed to the quantizer. *)
Definition histogram (palette : palette_t) : liq_histogram :=
  mk_hist (fixed_colors (seeds palette))
    (submitted_rows (fixedEntries palette) (mode palette) (processed palette)).

(** The calls up to the end of the loop over the images. *)
Definition loading_trace (palette : palette_t) : list event :=
  [liq_attr_create; liq_histogram_create] ++
  concat (map (image_events (seeded palette) (mode palette)) (processed palette)).

(** The colours of the valid slots, in table order. *)
Definition valid_colors (es : list palette_entry_t) : list color_t :=
  map color (List.filter valid es).

(** The colour a slot contributes to [valid_colors]. *)
Definition shown (e : palette_entry_t) : list color_t :=
  if valid e then [color e] else [].

(** The colour a fixed entry has when it is looked for or placed: the one
    it holds for an entry that is not exact (the seeding loop converted it),
    the converted one for an exact entry. *)
Definition placed_color (m : color_mode_t) (f : palette_entry_t) : color_t :=
  if exact f then color_convert (color f) m else color f.

Definition is_fixed_color (m : color_mode_t) (fs : list palette_entry_t)
    (c : color_t) : Prop :=
  exists f, In f fs /\ same_rgb (rgb (placed_color m f)) (rgb c) = true.

(** [es'] has the valid colours of [es], and fixed colours besides. *)
Definition grows (m : color_mode_t) (fs : list palette_entry_t)
    (es es' : list palette_entry_t) : Prop :=
  length es' = length es /\
  exists added,
    valid_colors es' ≡ₚ added ++ valid_colors es /\
    Forall (is_fixed_color m fs) added.

(** The colour stored for a colour of the quantizer's palette. *)
Definition stored_color (m : color_mode_t) (c : liq_color) : color_t :=
  color_convert
    (mk_color (mk_liq_color (r c) (g c) (b c) (a (rgb uninitialized)))
              (target uninitialized)) m.

(** No valid slot lies above [maxIndex], and the slot at [maxIndex] is
    valid when there is one. *)
Definition tracked (es : list palette_entry_t) (maxIndex : Z) : Prop :=
  -1 <= maxIndex < Z.of_nat (length es) /\
  (forall k e, es !! k = Some e -> valid e = true -> Z.of_nat k <= maxIndex) /\
  (0 <= maxIndex ->
   exists e, es !! Z.to_nat maxIndex = Some e /\ valid e = true).

(** As long as no pinned index beyond the quantizer's colours has been
    filled, the slots of these colours are all valid. *)
Definition dense (count : nat) (es : list palette_entry_t) (maxIndex : Z)
  : Prop :=
  Z.of_nat count - 1 <= maxIndex /\
  (maxIndex = Z.of_nat count - 1 ->
   forall k, (k < count)%nat ->
     exists e, es !! k = Some e /\ valid e = true).

(** The fixed entry matches no slot of the table. *)
Definition unmatched (f : palette_entry_t) (es : list palette_entry_t) : Prop :=
  forall e, In e es -> same_rgb (rgb (color f)) (rgb (color e)) = false.

(** A result of the resolution without the fixed entries it returns. *)
Definition table_of
    (x : res (list palette_entry_t * list palette_entry_t * Z))
  : res (list palette_entry_t * Z) :=
  match x with
  | Ok (_, es, maxIndex) => Ok (es, maxIndex)
  | Fault f => Fault f
  end.

(** What the resolution computes besides the fixed entries: the table,
    [numEntries] and the count of unused slots, or the fault. *)
Definition resolved (m : color_mode_t) (liqpalette : option (list liq_color))
    (fs es : list palette_entry_t) (maxIndex : Z)
  : res (list palette_entry_t * Z * Z) :=
  match resolve m liqpalette fs es maxIndex with
  | Ok (_, es', n, unused) => Ok (es', n, unused)
  | Fault f => Fault f
  end.

(** The slot an exact fixed entry is given. *)
Definition exact_slot (m : color_mode_t) (f : palette_entry_t) : palette_entry_t :=
  set_valid (set_color f (color_convert (color f) m)) true.

(** The number of valid slots. *)
Definition nvalid (es : list palette_entry_t) : nat :=
  length (List.filter valid es).

(** Every slot that is not valid holds a colour the table [initial] held. *)
Definition stale_from (initial es : list palette_entry_t) : Prop :=
  forall e, In e es -> valid e = false ->
    exists e0, In e0 initial /\ color e = color e0.

(** The table has room: either for [maxEntries] colours and the fixed
    entries that are not exact besides, or for [maxEntries] colours when no
    fixed colour that is not exact has the red, green and blue of a colour
    the table held before the run (no swap then marks a stale slot
    valid). *)
Definition has_room (palette : palette_t) : Prop :=
  maxEntries palette +
    Z.of_nat (length (List.filter (fun f => negb (exact f)) (fixedEntries palette)))
    <= Z.of_nat PALETTE_MAX_ENTRIES \/
  (maxEntries palette <= Z.of_nat PALETTE_MAX_ENTRIES /\
   Forall (fun f => exact f = false ->
                    unmatched (seed (mode palette) f) (entries palette))
     (fixedEntries palette)).

End Vocabulary.

(** * Inputs of the closed examples *)

Definition white : liq_color := mk_liq_color 255 255 255 255.

(** One image of two black pixels, a red one and a green one; the quantizer
    answers red and green. *)
Definition ext_rg : Collaborators :=
  sample_ext [("a.png"%string, [black; black; red; green])] (Some [red; green]).

(** One image that is black throughout. *)
Definition ext_black : Collaborators :=
  sample_ext [("a.png"%string, [black; black])] (Some [red; green]).

(** Three images declared, the second of which is not on disk. *)
Definition ext_missing : Collaborators :=
  sample_ext [("a.png"%string, [red]); ("c.png"%string, [green])] (Some [red; green]).

Definition palette_exact_black : palette_t :=
  sample_palette "p" [file "a.png"] 256 [fixed_color black 0 true].

Definition palette_white_only : palette_t :=
  sample_palette "p" [] 256 [fixed_color white 0 true].

Definition palette_xlibc_named : palette_t :=
  sample_palette "xlibc" [file "a.png"] 256 [fixed_color white 0 true].

Definition palette_overfull : palette_t :=
  sample_palette "p" [] 2
    [fixed_color red 0 true; fixed_color green 1 true; fixed_color black 2 true].

Definition palette_overfull_automatic : palette_t :=
  mk_palette "p" [] 1 0 blank_table
    [fixed_color red 0 false; fixed_color green 1 false] 0 3 true.

Definition converts_null_path : list convert_t :=
  [mk_convert "p" [mk_image None "unnamed" 0 false false false] None].

Definition palette_pinned_high : palette_t :=
  sample_palette "p" [file "a.png"] 2 [fixed_color black 5 true].

Definition palette_two_fixed : palette_t :=
  sample_palette "p" [] 256 [fixed_color red 3 false; fixed_color green 1 true].

Definition palette_missing_image : palette_t :=
  sample_palette "p" [file "a.png"; file "b.png"; file "c.png"] 256 [].

(** Three slots allowed, every pinned index below 3, and a quantizer that
    answers the two colours it may. *)
Definition ext_rb : Collaborators :=
  sample_ext [("a.png"%string, [red; black])] (Some [red; black]).

Definition palette_three : palette_t :=
  sample_palette "p" [file "a.png"] 3
    [fixed_color red 2 false; fixed_color black 1 false;
     fixed_color white 0 true].

(** A quantizer that answers 255 colours, red among them and black not,
    for a palette that pins red at index 255 and black at index 1, and has
    the exact white at index 5. *)
Definition many_colors : list liq_color :=
  map (fun i => mk_liq_color (Z.of_nat (i mod 32) * 8) (Z.of_nat (i / 32) * 8) 0 255)
      (seq 1 255).

Definition ext_many : Collaborators :=
  sample_ext [("a.png"%string, [red])] (Some many_colors).

Definition palette_full : palette_t :=
  sample_palette "p" [file "a.png"] 256
    [fixed_color red 255 false; fixed_color black 1 false;
     fixed_color white 5 true].

Definition palette_stale : palette_t :=
  sample_palette "p" [file "a.png"] 256
    [fixed_color red 5 false; fixed_color black 1 false].

Definition palette_null : palette_t :=
  sample_palette "p" [file "a.png"] 256
    [fixed_color black 0 true; fixed_color red 1 false].

(** An automatic palette without images of its own, and two conversion
    jobs: one of another palette, and one of this palette with an image and
    a tileset. *)
Definition palette_automatic : palette_t :=
  mk_palette "p" [] 256 0 blank_table [] 0 3 true.

Definition converts_tiles : list convert_t :=
  [mk_convert "q" [file "x.png"] None;
   mk_convert "p" [file "a.png"]
     (Some (mk_tileset_group [mk_tileset (file "c.png")]))].

(** A conversion job whose second image has no path. *)
Definition converts_broken : list convert_t :=
  [mk_convert "p"
     [file "a.png"; mk_image None "unnamed" 0 false false false; file "c.png"]
     None].

(** A palette without fixed entries. *)
Definition palette_plain : palette_t :=
  sample_palette "p" [file "a.png"] 256 [].

(** Sixteen colours allowed and red pinned at index 5, not exact. *)
Definition palette_roomy : palette_t :=
  sample_palette "p" [file "a.png"] 16 [fixed_color red 5 false].

(** One colour allowed and red pinned at index 0, not exact. *)
Definition palette_tight : palette_t :=
  sample_palette "p" [file "a.png"] 1 [fixed_color red 0 false].

(** * The rest of [palette.c] *)

(** ** [pallete_add_path]

    [strings_find_images] (strings.h) is the glob of a path: the list of
    the [gl_pathc] file names of [gl_pathv], which glob never leaves
    [NULL].  The calls that acquire and release the glob buffer are kept,
    in program order. *)
Inductive glob_event :=
| strings_find_images_call (p : string)
| globfree_call
| free_globbuf.

Section AddPath.

Context {ext : Collaborators}.

Variable strings_find_images : string -> list string.

(** The loop over the matches; the result of [palette_add_image] is not
    looked at. *)
Fixpoint add_paths (palette : palette_t) (paths : list string) : palette_t :=
  match paths with
  | [] => palette
  | p :: rest => add_paths (snd (palette_add_image palette (Some p))) rest
  end.

Definition pallete_add_path (palette : palette_t) (p : option string)
  : Z * palette_t * list glob_event :=
  match p with
  | None => (1, palette, [])
  | Some s =>
      let paths := strings_find_images s in
      if (Z.of_nat (length paths) =? 0) then
        (1, palette, [strings_find_images_call s])
      else
        (0, add_paths palette paths,
         [strings_find_images_call s; globfree_call; free_globbuf])
  end.

End AddPath.

(** ** Vocabulary of the further properties *)

Section Vocabulary2.

Context {ext : Collaborators}.

(** The image [palette_add_image] registers for a path. *)
Definition new_image (s : string) : image_t :=
  mk_image (Some s) (strings_basename s) 0 false false false.

(** The images [palette_automatic_build] goes through for a palette named
    [n]: for every conversion job of that palette name, in order, its
    images and then the images of its tileset group. *)
Definition candidates (n : string) (converts : list convert_t) : list image_t :=
  flat_map
    (fun c =>
       if String.eqb n (paletteName c) then
         convert_images c ++
         match tilesetGroup c with
         | Some group => map image (tilesets group)
         | None => []
         end
       else [])
    converts.

(** The images registered for the paths of [l] that are not [NULL]. *)
Definition registered (l : list image_t) : list image_t :=
  omap (fun i => new_image <$> path i) l.

(** The palette with the images [l] listed and the automatic flag off. *)
Definition explicit (palette : palette_t) (l : list image_t) : palette_t :=
  mk_palette (name palette) l (maxEntries palette) (numEntries palette)
    (entries palette) (fixedEntries palette) (mode palette)
    (quantizeSpeed palette) false.

(** Two palettes that differ in the automatic flag at most. *)
Definition same_but_automatic (p p' : palette_t) : Prop :=
  name p = name p' /\ images p = images p' /\ maxEntries p = maxEntries p' /\
  numEntries p = numEntries p' /\ entries p = entries p' /\
  fixedEntries p = fixedEntries p' /\ mode p = mode p' /\
  quantizeSpeed p = quantizeSpeed p'.

(** The calls that acquire or release a decoded image buffer. *)
Definition buffer_event (e : event) : bool :=
  match e with
  | image_load_call _ | image_data_free _ => true
  | _ => false
  end.

(** The calls that create or destroy the attribute or the histogram.  The
    other objects of the quantizer have no call of their own in the trace:
    the [liq_image] of a row (lines 379-386) is created and destroyed
    within [liq_histogram_add_image_call], and the [liq_result] is created
    within [liq_histogram_quantize_call]. *)
Definition attr_hist_event (e : event) : bool :=
  match e with
  | liq_attr_create | liq_histogram_create
  | liq_histogram_destroy | liq_attr_destroy => true
  | _ => false
  end.

(** The call that destroys the result of the quantizer. *)
Definition result_destroy_event (e : event) : bool :=
  match e with
  | liq_result_destroy _ => true
  | _ => false
  end.

(** A fixed entry with its colour converted. *)
Definition converted (m : color_mode_t) (f : palette_entry_t) : palette_entry_t :=
  set_color f (color_convert (color f) m).

(** The table after every fixed entry of [fs] was written, converted and
    marked valid, over the slot of its pinned index. *)
Definition place_exact_slots (m : color_mode_t) (es fs : list palette_entry_t)
  : list palette_entry_t :=
  foldl (fun acc f => <[index f := exact_slot m f]> acc) es fs.

(** Some slot among the first [count] has the red, green and blue of the
    fixed entry. *)
Definition in_range (count : nat) (f : palette_entry_t)
    (es : list palette_entry_t) : Prop :=
  exists j e, (j < count)%nat /\ es !! j = Some e /\
              same_rgb (rgb (color f)) (rgb (color e)) = true.

(** The slot of the pinned index is valid and has the red, green and blue
    of the fixed entry. *)
Definition pinned (f : palette_entry_t) (es : list palette_entry_t) : Prop :=
  exists e, es !! index f = Some e /\ valid e = true /\
            same_rgb (rgb (color f)) (rgb (color e)) = true.

(** The condition under which [palette_generate] reports the error [e]. *)
Definition cause (e : error) (palette : palette_t) (converts : list convert_t)
    (R : run) : Prop :=
  match e with
  | AutomaticBuildFailure =>
      automatic palette = true /\
      exists i, In i (candidates (name palette) converts) /\ path i = None
  | TooManyFixedColors => maxEntries palette < numFixedEntries palette
  | EmptyPalette => fixedEntries palette = [] /\ images (pal R) = []
  | ImageLoadFailure => exists i, In i (images (pal R)) /\ image_load i = None
  | QuantizeFailure => In liq_histogram_quantize_call (trace R)
  end.

(** The two entries are not two entries that are searched for the same
    red, green and blue. *)
Definition apart (f g : palette_entry_t) : Prop :=
  exact g = false -> same_rgb (rgb (color f)) (rgb (color g)) = false.

(** Entries pinned at different indices are searched for different
    colours. *)
Definition distinct_colors (fs : list palette_entry_t) : Prop :=
  forall f g, In f fs -> In g fs -> exact f = false -> exact g = false ->
    index f <> index g ->
    same_rgb (rgb (color f)) (rgb (color g)) = false.

End Vocabulary2.

(** * Properties *)

(** ** Reading and writing slots *)

Lemma bind_Ok {A B} (m : res A) (k : A -> res B) (y : B) :
  (x ← m; k x) = Ok y <-> exists x, m = Ok x /\ k x = Ok y.
Proof.
  destruct m as [x|f]; simpl; split.
  - intros H. exists x. split; [reflexivity | exact H].
  - intros (x' & Hx & Hk). inversion Hx. subst x'. exact Hk.
  - intros H. discriminate H.
  - intros (x' & Hx & _). discriminate Hx.
Qed.

Lemma ok_bind {A B} (x : A) (k : A -> res B) : (Ok x ≫= k) = k x.
Proof. reflexivity. Qed.

Lemma read_Ok (es : list palette_entry_t) (i : nat) (e : palette_entry_t) :
  read es i = Ok e <-> es !! i = Some e.
Proof.
  unfold read. destruct (es !! i); split; intros H; congruence.
Qed.

Lemma read_lt (es : list palette_entry_t) (i : nat) :
  (i < length es)%nat -> exists e, read es i = Ok e /\ es !! i = Some e.
Proof.
  intros H. destruct (lookup_lt_is_Some_2 es i H) as [e He].
  exists e. split; [apply read_Ok|]; exact He.
Qed.

Lemma write_Ok (es es' : list palette_entry_t) (i : nat) (e : palette_entry_t) :
  write es i e = Ok es' <-> (i < length es)%nat /\ es' = <[i := e]> es.
Proof.
  unfold write. destruct (decide (i < length es)%nat) as [H|H]; split.
  - intros E. inversion E. split; [exact H | reflexivity].
  - intros [_ E]. subst es'. reflexivity.
  - intros E. discriminate E.
  - intros [H' _]. contradiction.
Qed.

Lemma write_lt (es : list palette_entry_t) (i : nat) (e : palette_entry_t) :
  (i < length es)%nat -> write es i e = Ok (<[i := e]> es).
Proof. intros H. apply write_Ok. split; [exact H | reflexivity]. Qed.

Lemma int_sub_in_range (x y : Z) : INT_MIN <= x - y -> int_sub x y = x - y.
Proof.
  intros H. unfold int_sub. destruct (Z.ltb_spec (x - y) INT_MIN); [lia | reflexivity].
Qed.

(** Splits a successful sequence of steps into its steps, and the pairs
    they return into their components. *)
Ltac steps H :=
  repeat match type of H with
  | mbind _ _ = Ok _ =>
      let x := fresh "x" in
      let Hx := fresh "Hx" in
      apply bind_Ok in H; destruct H as (x & Hx & H)
  | (let '(_, _) := ?p in _) = _ =>
      is_var p;
      let u := fresh "u" in
      let v := fresh "v" in
      destruct p as [u v]
  end.

Section Properties.

Context {ext : Collaborators}.

(** ** The builtin bypass *)

Lemma byte_at_lt (builtin : list Z) (i : nat) :
  (i < length builtin)%nat -> byte_at builtin i = Ok (nth i builtin 0).
Proof.
  intros H. unfold byte_at. rewrite nth_lookup.
  destruct (lookup_lt_is_Some_2 builtin i H) as [x Hx]. rewrite Hx. reflexivity.
Qed.

Lemma builtin_loop_spec (builtin : list Z) (m : color_mode_t) (n : nat) :
  forall (i : nat) (es : list palette_entry_t),
    (i + n <= length es)%nat ->
    ((i + n) * 3 <= length builtin)%nat ->
    exists es',
      builtin_loop builtin m i n es = Ok es' /\
      length es' = length es /\
      forall k : nat,
        es' !! k =
        if bool_decide (i <= k < i + n)%nat
        then builtin_entry builtin m k <$> es !! k
        else es !! k.
Proof.
  induction n as [|n IH]; intros i es Hes Hb.
  - exists es. split; [reflexivity|]. split; [reflexivity|].
    intros k. rewrite bool_decide_eq_false_2 by lia. reflexivity.
  - destruct (read_lt es i) as (e & Hr & He); [lia|].
    destruct (IH (S i) (<[i := builtin_entry builtin m i e]> es))
      as (es' & Hloop & Hlen & Hk).
    { rewrite length_insert. lia. }
    { lia. }
    exists es'. split; [|split].
    + simpl. rewrite Hr. simpl.
      rewrite !byte_at_lt by lia. simpl.
      rewrite write_lt by lia. simpl. exact Hloop.
    + rewrite Hlen. apply length_insert.
    + intros k. rewrite Hk.
      destruct (decide (k = i)) as [->|Hne].
      * rewrite bool_decide_eq_false_2 by lia.
        rewrite bool_decide_eq_true_2 by lia.
        rewrite list_lookup_insert_eq by lia. rewrite He. reflexivity.
      * rewrite list_lookup_insert_ne by congruence.
        destruct (bool_decide (S i <= k < S i + n)%nat) eqn:E.
        -- apply bool_decide_eq_true in E.
           rewrite bool_decide_eq_true_2 by lia. reflexivity.
        -- apply bool_decide_eq_false in E.
           rewrite bool_decide_eq_false_2 by lia. reflexivity.
Qed.

Lemma builtin_tables_length (n : string) (table : list Z) :
  reserved n = Some table -> length table = (PALETTE_MAX_ENTRIES * 3)%nat.
Proof.
  unfold reserved. intros H.
  destruct (String.eqb n "xlibc"); [|destruct (String.eqb n "rgb332")];
    inversion H; subst table; vm_compute; reflexivity.
Qed.

Lemma palette_generate_builtin_spec (palette : palette_t) (table : list Z)
    (m : color_mode_t) :
  length table = (PALETTE_MAX_ENTRIES * 3)%nat ->
  length (entries palette) = PALETTE_MAX_ENTRIES ->
  palette_generate_builtin palette table PALETTE_MAX_ENTRIES m =
  mk_run Success
    (set_table palette (imap (builtin_entry table m) (entries palette))
       (Z.of_nat PALETTE_MAX_ENTRIES))
    [].
Proof.
  intros Ht He. unfold palette_generate_builtin.
  destruct (builtin_loop_spec table m PALETTE_MAX_ENTRIES 0 (entries palette))
    as (es' & Hloop & Hlen & Hk); [lia | lia |].
  rewrite Hloop. f_equal. f_equal.
  apply list_eq. intros k. rewrite Hk, list_lookup_imap.
  destruct (bool_decide (0 <= k < 0 + PALETTE_MAX_ENTRIES)%nat) eqn:E;
    [reflexivity|].
  apply bool_decide_eq_false in E.
  rewrite (lookup_ge_None_2 (entries palette) k) by lia. reflexivity.
Qed.

(** C3, as amended.  For a palette named "xlibc" or "rgb332",
    [palette_generate] succeeds without calling any collaborator but the
    colour converter; [numEntries] is 256 and the colour of slot [i] is
    triplet [i] of the builtin table with alpha 255, converted with
    [COLOR_MODE_1555_GBGR].  The [valid], [index] and [exact] fields of the
    slots are left as they were, and so is the rest of the palette: the
    fixed entries, the images, the automatic flag and the conversion jobs
    are not consulted. *)
Theorem builtin_bypass (palette : palette_t) (converts : list convert_t)
    (table : list Z) :
  reserved (name palette) = Some table ->
  length (entries palette) = PALETTE_MAX_ENTRIES ->
  palette_generate palette converts =
    mk_run Success
      (set_table palette
         (imap (builtin_entry table COLOR_MODE_1555_GBGR) (entries palette))
         256)
      []
  /\ (forall (i : nat) (e : palette_entry_t),
        entries palette !! i = Some e ->
        exists e',
          entries (pal (palette_generate palette converts)) !! i = Some e' /\
          color e' =
            color_convert (mk_color (triplet table i) (target (color e)))
              COLOR_MODE_1555_GBGR /\
          valid e' = valid e /\ index e' = index e /\ exact e' = exact e).
Proof.
  intros Hname Hlen.
  assert (Hgen : palette_generate palette converts =
                 palette_generate_builtin palette table PALETTE_MAX_ENTRIES
                   COLOR_MODE_1555_GBGR).
  { unfold palette_generate, reserved in *.
    destruct (String.eqb (name palette) "xlibc").
    - inversion Hname. reflexivity.
    - destruct (String.eqb (name palette) "rgb332"); [|discriminate Hname].
      inversion Hname. reflexivity. }
  rewrite Hgen.
  rewrite palette_generate_builtin_spec;
    [| exact (builtin_tables_length _ _ Hname) | exact Hlen].
  split; [reflexivity|].
  intros i e He. exists (builtin_entry table COLOR_MODE_1555_GBGR i e).
  simpl. rewrite list_lookup_imap, He. simpl. repeat split; reflexivity.
Qed.

(** ** Automatic collection *)

Lemma set_images_id (palette : palette_t) :
  set_images palette (images palette) = palette.
Proof. destruct palette. reflexivity. Qed.

Lemma palette_add_image_images (palette : palette_t) (p : option string) :
  exists l, snd (palette_add_image palette p) = set_images palette l /\
            (fst (palette_add_image palette p) = 0 \/
             fst (palette_add_image palette p) = 1).
Proof.
  destruct p as [s|]; simpl.
  - eexists. split; [reflexivity | left; reflexivity].
  - exists (images palette). rewrite set_images_id.
    split; [reflexivity | right; reflexivity].
Qed.

Lemma add_images_images (l : list image_t) :
  forall palette : palette_t,
    exists l', snd (add_images palette l) = set_images palette l' /\
               (fst (add_images palette l) = 0 \/ fst (add_images palette l) = 1).
Proof.
  induction l as [|i l IH]; intros palette; simpl.
  - exists (images palette). rewrite set_images_id.
    split; [reflexivity | left; reflexivity].
  - destruct (palette_add_image_images palette (path i)) as (l1 & H1 & Hr).
    destruct (palette_add_image palette (path i)) as [ret palette'].
    simpl in H1, Hr. subst palette'.
    destruct (ret =? 0) eqn:E.
    + destruct (IH (set_images palette l1)) as (l2 & H2 & Hr2).
      exists l2. split; [exact H2 | exact Hr2].
    + exists l1. split; [reflexivity|].
      destruct Hr as [->| ->]; [discriminate E | right; reflexivity].
Qed.

Lemma palette_automatic_build_images (converts : list convert_t) :
  forall palette : palette_t,
    exists l,
      snd (palette_automatic_build palette converts) = set_images palette l /\
      (fst (palette_automatic_build palette converts) = 0 \/
       fst (palette_automatic_build palette converts) = 1).
Proof.
  induction converts as [|c converts IH]; intros palette; simpl.
  - exists (images palette). rewrite set_images_id.
    split; [reflexivity | left; reflexivity].
  - destruct (String.eqb (name palette) (paletteName c)); simpl; [|apply IH].
    destruct (add_images_images (convert_images c) palette) as (l1 & H1 & Hr1).
    destruct (add_images palette (convert_images c)) as [ret palette1].
    simpl in H1, Hr1. subst palette1.
    destruct Hr1 as [->| ->]; simpl;
      [| exists l1; split; [reflexivity | right; reflexivity]].
    destruct (tilesetGroup c) as [group|]; simpl.
    + destruct (add_images_images (map image (tilesets group))
                  (set_images palette l1)) as (l2 & H2 & Hr2).
      destruct (add_images (set_images palette l1) (map image (tilesets group)))
        as [ret palette2].
      simpl in H2, Hr2. subst palette2.
      destruct Hr2 as [->| ->]; simpl;
        [| exists l2; split; [reflexivity | right; reflexivity]].
      destruct (IH (set_images palette l2)) as (l3 & H3 & Hr3).
      exists l3. split; [exact H3 | exact Hr3].
    + destruct (IH (set_images palette l1)) as (l3 & H3 & Hr3).
      exists l3. split; [exact H3 | exact Hr3].
Qed.

Lemma collect_images (palette : palette_t) (converts : list convert_t) :
  exists l,
    snd (collect palette converts) = set_images palette l /\
    (fst (collect palette converts) = 0 \/ fst (collect palette converts) = 1).
Proof.
  unfold collect. destruct (automatic palette).
  - apply palette_automatic_build_images.
  - exists (images palette). rewrite set_images_id.
    split; [reflexivity | left; reflexivity].
Qed.

(** [palette_generate] past the builtin test, in terms of [collect]. *)
Lemma palette_generate_custom (palette : palette_t) (converts : list convert_t) :
  reserved (name palette) = None ->
  palette_generate palette converts =
  let '(ret, palette1) := collect palette converts in
  if negb (ret =? 0) then mk_run (Failure AutomaticBuildFailure) palette1 []
  else if maxEntries palette1 <? numFixedEntries palette1 then
    mk_run (Failure TooManyFixedColors) palette1 []
  else if 0 <? numImages palette1 then palette_generate_with_images palette1
  else if numFixedEntries palette1 =? 0 then
    mk_run (Failure EmptyPalette) palette1 []
  else
    match copy_fixed (fixedEntries palette1) (entries palette1) (-1) with
    | Fault f => mk_run (Undefined f) palette1 []
    | Ok (es, maxIndex) =>
        mk_run Success (set_table palette1 es (maxIndex + 1))
          [generated_info (maxIndex + 1)
             (Z.of_nat PALETTE_MAX_ENTRIES - (maxIndex + 1)
              + numFixedEntries palette1)]
    end.
Proof.
  unfold reserved, palette_generate, collect. intros H.
  destruct (String.eqb (name palette) "xlibc"); [discriminate H|].
  destruct (String.eqb (name palette) "rgb332"); [discriminate H|].
  reflexivity.
Qed.

(** C4, as amended.  For a palette with a name that is not builtin and with
    more fixed entries than [maxEntries], [palette_generate] fails and
    leaves the table, [numEntries] and the fixed entries as they were, and
    calls no collaborator.  The failure is the one of the capacity test
    when the automatic collection of images returned 0 (always so for a
    palette that is not automatic); when the collection failed, its failure
    is returned, the capacity test being placed after it. *)
Theorem capacity_guard (palette : palette_t) (converts : list convert_t) :
  reserved (name palette) = None ->
  maxEntries palette < numFixedEntries palette ->
  let R := palette_generate palette converts in
  out R = Failure (if fst (collect palette converts) =? 0
                   then TooManyFixedColors else AutomaticBuildFailure) /\
  (automatic palette = false -> out R = Failure TooManyFixedColors) /\
  entries (pal R) = entries palette /\
  numEntries (pal R) = numEntries palette /\
  fixedEntries (pal R) = fixedEntries palette /\
  trace R = [].
Proof.
  intros Hname Hcap R. subst R.
  rewrite (palette_generate_custom _ _ Hname).
  assert (Hauto : automatic palette = false -> fst (collect palette converts) = 0).
  { intros Ha. unfold collect. rewrite Ha. reflexivity. }
  destruct (collect_images palette converts) as (l & Hp & Hr).
  destruct (collect palette converts) as [ret palette1].
  simpl in Hp, Hr, Hauto. subst palette1.
  destruct Hr as [->| ->]; simpl.
  - unfold numFixedEntries in *. simpl.
    assert (E : (maxEntries palette <? Z.of_nat (length (fixedEntries palette))) = true)
      by (apply Z.ltb_lt; exact Hcap).
    rewrite E. simpl. repeat split; reflexivity.
  - repeat split; try reflexivity.
    intros Ha. specialize (Hauto Ha). discriminate Hauto.
Qed.

(** ** The branch without images *)

Lemma raise_to_max (maxIndex : Z) (i : nat) :
  raise_to maxIndex i = Z.max maxIndex (Z.of_nat i).
Proof. unfold raise_to. destruct (Z.ltb_spec maxIndex (Z.of_nat i)); lia. Qed.

Lemma place_all_length (fs : list palette_entry_t) :
  forall es, length (place_all es fs) = length es.
Proof.
  induction fs as [|f fs IH]; intros es; simpl; [reflexivity|].
  unfold place_all in IH. rewrite IH. apply length_insert.
Qed.

Lemma place_all_other (fs : list palette_entry_t) (k : nat) :
  Forall (fun f => index f <> k) fs ->
  forall es, place_all es fs !! k = es !! k.
Proof.
  induction 1 as [|f fs Hf _ IH]; intros es; simpl; [reflexivity|].
  unfold place_all in IH. rewrite IH.
  apply list_lookup_insert_ne. exact Hf.
Qed.

Lemma place_all_last (es fs1 fs2 : list palette_entry_t) (f : palette_entry_t) :
  (index f < length es)%nat ->
  Forall (fun f' => index f' <> index f) fs2 ->
  place_all es (fs1 ++ f :: fs2) !! index f = Some f.
Proof.
  intros Hlt Hfs2. unfold place_all. rewrite foldl_app. simpl.
  fold (place_all es fs1).
  fold (place_all (<[index f := f]> (place_all es fs1)) fs2).
  rewrite place_all_other by exact Hfs2.
  apply list_lookup_insert_eq. rewrite place_all_length. exact Hlt.
Qed.

Lemma raise_all_max (fs : list palette_entry_t) :
  forall (f : palette_entry_t) (maxIndex : Z),
    raise_all maxIndex (f :: fs) =
    Z.max maxIndex (Z.of_nat (max_list (index <$> (f :: fs)))).
Proof.
  induction fs as [|f' fs IH]; intros f maxIndex.
  - simpl. rewrite raise_to_max. lia.
  - change (raise_all maxIndex (f :: f' :: fs))
      with (raise_all (raise_to maxIndex (index f)) (f' :: fs)).
    rewrite IH, raise_to_max. simpl. lia.
Qed.

Lemma copy_fixed_spec (fs : list palette_entry_t) :
  forall (es : list palette_entry_t) (maxIndex : Z),
    Forall (fun f => (index f < length es)%nat) fs ->
    copy_fixed fs es maxIndex = Ok (place_all es fs, raise_all maxIndex fs).
Proof.
  induction fs as [|f fs IH]; intros es maxIndex Hfs; [reflexivity|].
  inversion Hfs as [|? ? Hf Hrest]; subst.
  simpl. rewrite write_lt by exact Hf. simpl.
  apply IH. rewrite length_insert. exact Hrest.
Qed.

(** C7, as amended.  For a palette with a name that is not builtin, whose
    list of images is empty once the automatic collection has run, and
    whose [numFixedEntries] does not exceed [maxEntries]: without fixed
    entries [palette_generate] fails with EmptyPalette and leaves the table
    as it was; otherwise, the pinned indices being slots of the table, it
    succeeds without loading an image or calling the quantizer, the table
    is the old one with every fixed entry copied as it is over the slot of
    its pinned index, in declaration order (so a fixed entry is found at
    its pinned index when no later fixed entry is pinned there), and
    [numEntries] is 1 plus the maximum pinned index. *)
Theorem placed_without_images (palette palette1 : palette_t)
    (converts : list convert_t) :
  reserved (name palette) = None ->
  collect palette converts = (0, palette1) ->
  images palette1 = [] ->
  numFixedEntries palette <= maxEntries palette ->
  let R := palette_generate palette converts in
  (fixedEntries palette = [] ->
   out R = Failure EmptyPalette /\ entries (pal R) = entries palette) /\
  (fixedEntries palette <> [] ->
   Forall (fun f => (index f < length (entries palette))%nat)
     (fixedEntries palette) ->
   out R = Success /\
   entries (pal R) = place_all (entries palette) (fixedEntries palette) /\
   (forall fs1 f fs2,
      fixedEntries palette = fs1 ++ f :: fs2 ->
      Forall (fun f' => index f' <> index f) fs2 ->
      entries (pal R) !! index f = Some f) /\
   (forall k : nat,
      Forall (fun f => index f <> k) (fixedEntries palette) ->
      entries (pal R) !! k = entries palette !! k) /\
   numEntries (pal R) = 1 + Z.of_nat (max_list (index <$> fixedEntries palette)) /\
   trace R =
     [generated_info (numEntries (pal R))
        (Z.of_nat PALETTE_MAX_ENTRIES - numEntries (pal R)
         + numFixedEntries palette)]).
Proof.
  intros Hname Hcol Himg Hcap R. subst R.
  rewrite (palette_generate_custom _ _ Hname).
  destruct (collect_images palette converts) as (l & Hp & _).
  rewrite Hcol in *. simpl in Hp. subst palette1. simpl in Himg. subst l.
  simpl.
  assert (E1 : (maxEntries palette <? numFixedEntries (set_images palette [])) = false).
  { apply Z.ltb_ge. exact Hcap. }
  rewrite E1. simpl.
  unfold numFixedEntries in *. simpl.
  split.
  - intros Hnil. rewrite Hnil. simpl. split; reflexivity.
  - intros Hne Hidx.
    assert (E2 : (Z.of_nat (length (fixedEntries palette)) =? 0) = false).
    { apply Z.eqb_neq. destruct (fixedEntries palette); [congruence | simpl; lia]. }
    rewrite E2. rewrite copy_fixed_spec by exact Hidx.
    simpl pal. simpl out. simpl trace. simpl entries. simpl numEntries.
    repeat split.
    + intros fs1 f fs2 Heq Hlater. rewrite Heq.
      apply place_all_last; [|exact Hlater].
      rewrite Heq in Hidx. apply Forall_app in Hidx as [_ Hidx].
      inversion Hidx. assumption.
    + intros k Hk. apply place_all_other. exact Hk.
    + destruct (fixedEntries palette) as [|f0 fs]; [congruence|].
      rewrite raise_all_max. lia.
Qed.

(** ** Assembling the quantizer's input *)

Lemma addcolor_spec (fs : list palette_entry_t) (px : liq_color) :
  addcolor fs px = negb (is_exact_color fs px).
Proof.
  induction fs as [|entry fs IH]; simpl; [reflexivity|].
  destruct (exact entry && same_rgb px (rgb (color entry))); simpl;
    [reflexivity | exact IH].
Qed.

Lemma survivors_addcolor (fs : list palette_entry_t) (data : list liq_color) :
  survivors fs data = List.filter (addcolor fs) data.
Proof.
  unfold survivors. induction data as [|px data IH]; simpl; [reflexivity|].
  rewrite addcolor_spec, IH. reflexivity.
Qed.

(** The in-place compaction computes the filter: when the loop over [j]
    ends, the first [numcolors] pixels of the buffer are the conversions of
    the pixels that were kept, in order. *)
Lemma filter_pixels_inv (fs : list palette_entry_t) (m : color_mode_t)
    (orig : list liq_color) (n : nat) :
  forall (j numcolors : nat) (data : list liq_color),
    (j + n = length orig)%nat ->
    length data = length orig ->
    (numcolors <= j)%nat ->
    drop j data = drop j orig ->
    take numcolors data =
      map (convert_pixel m) (List.filter (addcolor fs) (take j orig)) ->
    take (snd (filter_pixels fs m n j numcolors data))
         (fst (filter_pixels fs m n j numcolors data)) =
      map (convert_pixel m) (List.filter (addcolor fs) orig) /\
    snd (filter_pixels fs m n j numcolors data) =
      length (List.filter (addcolor fs) orig).
Proof.
  induction n as [|n IH]; intros j numcolors data Hj Hlen Hnc Hdrop Htake.
  - simpl. replace j with (length orig) in Htake by lia.
    rewrite firstn_all in Htake. split; [exact Htake|].
    apply (f_equal length) in Htake.
    rewrite length_map, length_take in Htake. lia.
  - assert (Hlook : data !! j = orig !! j).
    { apply (f_equal (fun l => l !! 0%nat)) in Hdrop.
      rewrite !lookup_drop, Nat.add_0_r in Hdrop. exact Hdrop. }
    destruct (lookup_lt_is_Some_2 orig j) as [px Hpx]; [lia|].
    assert (Hdrop' : forall x k, (k <= j)%nat ->
              drop (S j) (<[k := x]> data) = drop (S j) orig).
    { intros x k Hk. rewrite drop_insert_lt by lia.
      apply (f_equal (drop 1)) in Hdrop. rewrite !drop_drop in Hdrop.
      replace (j + 1)%nat with (S j) in Hdrop by lia. exact Hdrop. }
    simpl. rewrite Hlook, Hpx.
    destruct (addcolor fs px) eqn:Hkeep.
    + apply IH; [lia | rewrite length_insert; exact Hlen | lia
                | apply Hdrop'; exact Hnc |].
      rewrite (take_S_r orig j px Hpx), List.filter_app, map_app. simpl.
      rewrite Hkeep. simpl.
      rewrite (take_S_r _ numcolors (convert_pixel m px)).
      * rewrite take_insert_ge by lia. rewrite Htake. reflexivity.
      * apply list_lookup_insert_eq. lia.
    + apply IH; [lia | exact Hlen | lia | |].
      * rewrite <- (Hdrop' px j) by lia.
        f_equal. symmetry. apply list_insert_id. rewrite Hlook. exact Hpx.
      * rewrite (take_S_r orig j px Hpx), List.filter_app, map_app. simpl.
        rewrite Hkeep. simpl. rewrite app_nil_r. exact Htake.
Qed.

Lemma filter_pixels_spec (fs : list palette_entry_t) (m : color_mode_t)
    (data : list liq_color) :
  take (snd (filter_pixels fs m (length data) 0 0 data))
       (fst (filter_pixels fs m (length data) 0 0 data)) =
    map (convert_pixel m) (survivors fs data) /\
  snd (filter_pixels fs m (length data) 0 0 data) = length (survivors fs data).
Proof.
  rewrite survivors_addcolor.
  apply filter_pixels_inv; (reflexivity || lia).
Qed.

Lemma read_images_closed (fs : list palette_entry_t) (m : color_mode_t)
    (cap : Z) (l : list image_t) (hist : liq_histogram) (nq : bool)
    (t : list event) :
  cap <= 1 ->
  read_images fs m cap l hist nq t = (Some (hist, nq), t).
Proof.
  intros Hcap. destruct l as [|i rest]; simpl; [reflexivity|].
  destruct (Z.ltb_spec 1 cap); [lia | reflexivity].
Qed.

Lemma read_images_step (fs : list palette_entry_t) (m : color_mode_t)
    (cap : Z) (i : image_t) (rest : list image_t) (hist : liq_histogram)
    (nq : bool) (t : list event) :
  1 < cap ->
  is_Some (image_load i) ->
  read_images fs m cap (i :: rest) hist nq t =
  read_images fs m cap rest
    (mk_hist (fixed_colors hist) (rows hist ++ submitted_rows fs m [i]))
    (nq || nonempty (submitted_rows fs m [i]))
    (t ++ image_events fs m i).
Proof.
  intros Hcap [data Hload]. simpl.
  destruct (Z.ltb_spec 1 cap); [simpl | lia].
  unfold submitted_rows, image_events, submitted_row. simpl. rewrite Hload.
  destruct (filter_pixels_spec fs m data) as [Htake Hn].
  destruct (filter_pixels fs m (length data) 0 0 data) as [data' numcolors].
  simpl in Htake, Hn. subst numcolors.
  destruct (survivors fs data) as [|px s] eqn:Hs.
  - simpl. rewrite app_nil_r, orb_false_r. destruct hist. reflexivity.
  - rewrite Htake. simpl. rewrite orb_true_r. reflexivity.
Qed.

Lemma submitted_rows_cons (fs : list palette_entry_t) (m : color_mode_t)
    (i : image_t) (l : list image_t) :
  submitted_rows fs m (i :: l) = submitted_rows fs m [i] ++ submitted_rows fs m l.
Proof.
  unfold submitted_rows. simpl. destruct (submitted_row fs m i); reflexivity.
Qed.

Lemma nonempty_app {A} (l1 l2 : list A) :
  nonempty (l1 ++ l2) = nonempty l1 || nonempty l2.
Proof. destruct l1; [reflexivity | reflexivity]. Qed.

(** The loop over the images when every image loads. *)
Lemma read_images_ok (fs : list palette_entry_t) (m : color_mode_t) (cap : Z)
    (l : list image_t) :
  1 < cap ->
  Forall (fun i => is_Some (image_load i)) l ->
  forall (hist : liq_histogram) (nq : bool) (t : list event),
    read_images fs m cap l hist nq t =
    (Some (mk_hist (fixed_colors hist) (rows hist ++ submitted_rows fs m l),
           nq || nonempty (submitted_rows fs m l)),
     t ++ concat (map (image_events fs m) l)).
Proof.
  intros Hcap Hl. induction Hl as [|i l Hi _ IH]; intros hist nq t.
  - simpl. rewrite !app_nil_r, orb_false_r. destruct hist. reflexivity.
  - rewrite read_images_step by assumption. rewrite IH.
    rewrite (submitted_rows_cons fs m i l), nonempty_app.
    cbn [fixed_colors rows map concat].
    rewrite <- !app_assoc, orb_assoc. reflexivity.
Qed.

(** The loop over the images when one of them does not load. *)
Lemma read_images_fail (fs : list palette_entry_t) (m : color_mode_t) (cap : Z)
    (l1 l2 : list image_t) (i : image_t) :
  1 < cap ->
  Forall (fun i => is_Some (image_load i)) l1 ->
  image_load i = None ->
  forall (hist : liq_histogram) (nq : bool) (t : list event),
    read_images fs m cap (l1 ++ i :: l2) hist nq t =
    (None, t ++ concat (map (image_events fs m) l1) ++ [image_load_call i]).
Proof.
  intros Hcap Hl Hi. induction Hl as [|i1 l1 Hi1 _ IH]; intros hist nq t.
  - simpl. destruct (Z.ltb_spec 1 cap); [simpl | lia]. rewrite Hi. reflexivity.
  - rewrite <- app_comm_cons. rewrite read_images_step by assumption.
    rewrite IH. simpl. rewrite <- !app_assoc. reflexivity.
Qed.

(** A list of images either loads entirely or has a first image that does
    not load. *)
Lemma first_failing_image (l : list image_t) :
  Forall (fun i => is_Some (image_load i)) l \/
  exists l1 i l2,
    l = l1 ++ i :: l2 /\
    Forall (fun i => is_Some (image_load i)) l1 /\
    image_load i = None.
Proof.
  induction l as [|i l IH]; [left; constructor|].
  destruct (image_load i) as [data|] eqn:Hi.
  - destruct IH as [IH | (l1 & i' & l2 & -> & Hl1 & Hi')].
    + left. constructor; [rewrite Hi; eauto | exact IH].
    + right. exists (i :: l1), i', l2. split; [reflexivity|].
      split; [constructor; [rewrite Hi; eauto | exact Hl1] | exact Hi'].
  - right. exists [], i, l. split; [reflexivity|]. split; [constructor | exact Hi].
Qed.

(** ** The shape of a run of [palette_generate_with_images] *)

Lemma palette_generate_with_images_unfold (palette : palette_t) :
  palette_generate_with_images palette =
  match read_images (seeded palette) (mode palette) (capacity palette)
          (images palette) (seeds palette) false
          [liq_attr_create; liq_histogram_create] with
  | (None, t) =>
      mk_run (Failure ImageLoadFailure)
        (set_fixedEntries palette (seeded palette))
        (t ++ [liq_histogram_destroy; liq_attr_destroy])
  | (Some (hist', needquantize), t) =>
      if needquantize then
        quantized (set_fixedEntries palette (seeded palette)) (entries palette)
          (liq_histogram_quantize hist'
             (mk_attr (quantizeSpeed palette) (capacity palette))) t
      else
        finish (set_fixedEntries palette (seeded palette)) None
          (entries palette) (-1) t
  end.
Proof.
  unfold palette_generate_with_images, seeded, seeds, capacity, quantized.
  destruct (add_fixed_colors (mode palette) (fixedEntries palette)
              (mk_hist [] [])) as [fs hist].
  reflexivity.
Qed.

Lemma add_fixed_colors_rows (m : color_mode_t) (fs : list palette_entry_t) :
  forall hist, rows (snd (add_fixed_colors m fs hist)) = rows hist.
Proof.
  induction fs as [|entry fs IH]; intros hist; simpl; [reflexivity|].
  destruct (exact entry).
  - specialize (IH hist).
    destruct (add_fixed_colors m fs hist). exact IH.
  - specialize (IH (liq_histogram_add_fixed_color hist
                      (rgb (color (set_color entry
                                     (color_convert (color entry) m)))))).
    destruct (add_fixed_colors m fs _). exact IH.
Qed.

Lemma add_fixed_colors_fst (m : color_mode_t) (fs : list palette_entry_t) :
  forall hist, fst (add_fixed_colors m fs hist) = map (seed m) fs.
Proof.
  induction fs as [|entry fs IH]; intros hist; simpl; [reflexivity|].
  unfold seed at 1. destruct (exact entry).
  - specialize (IH hist).
    destruct (add_fixed_colors m fs hist). simpl in *. rewrite IH. reflexivity.
  - specialize (IH (liq_histogram_add_fixed_color hist
                      (rgb (color (set_color entry
                                     (color_convert (color entry) m)))))).
    destruct (add_fixed_colors m fs _). simpl in *. rewrite IH. reflexivity.
Qed.

Lemma seeded_map (palette : palette_t) :
  seeded palette = map (seed (mode palette)) (fixedEntries palette).
Proof. apply add_fixed_colors_fst. Qed.

Lemma is_exact_color_seeded (m : color_mode_t) (fs : list palette_entry_t)
    (px : liq_color) :
  is_exact_color (map (seed m) fs) px = is_exact_color fs px.
Proof.
  induction fs as [|entry fs IH]; simpl; [reflexivity|].
  rewrite IH. unfold seed. destruct (exact entry) eqn:E; simpl.
  - rewrite E. reflexivity.
  - rewrite E. reflexivity.
Qed.

Lemma submitted_rows_seeded (m : color_mode_t) (fs : list palette_entry_t)
    (l : list image_t) :
  submitted_rows (map (seed m) fs) m l = submitted_rows fs m l.
Proof.
  assert (E : forall i, submitted_row (map (seed m) fs) m i = submitted_row fs m i).
  { intros i. unfold submitted_row.
    destruct (image_load i) as [data|]; [|reflexivity].
    assert (Hs : survivors (map (seed m) fs) data = survivors fs data).
    { unfold survivors. induction data as [|px data IHd]; simpl; [reflexivity|].
      rewrite is_exact_color_seeded, IHd. reflexivity. }
    rewrite Hs. reflexivity. }
  induction l as [|i l IH]; [reflexivity|].
  rewrite (submitted_rows_cons _ m i l), (submitted_rows_cons fs m i l), IH.
  unfold submitted_rows. simpl. rewrite E. reflexivity.
Qed.

(** A run in which every image that is reached loads. *)
Lemma palette_generate_with_images_loaded (palette : palette_t) :
  Forall (fun i => is_Some (image_load i)) (processed palette) ->
  palette_generate_with_images palette =
  if nonempty (rows (histogram palette)) then
    quantized (set_fixedEntries palette (seeded palette)) (entries palette)
      (liq_histogram_quantize (histogram palette)
         (mk_attr (quantizeSpeed palette) (capacity palette)))
      (loading_trace palette)
  else
    finish (set_fixedEntries palette (seeded palette)) None (entries palette)
      (-1) (loading_trace palette).
Proof.
  intros Hl. rewrite palette_generate_with_images_unfold.
  unfold histogram, loading_trace, processed in *.
  destruct (Z.ltb_spec 1 (capacity palette)) as [Hcap|Hcap].
  - rewrite read_images_ok by assumption.
    unfold seeds at 2. rewrite add_fixed_colors_rows. simpl.
    rewrite seeded_map, submitted_rows_seeded. reflexivity.
  - rewrite read_images_closed by assumption.
    simpl. reflexivity.
Qed.

(** A run in which an image that is reached does not load. *)
Lemma palette_generate_with_images_failed (palette : palette_t)
    (l1 l2 : list image_t) (i : image_t) :
  processed palette = l1 ++ i :: l2 ->
  Forall (fun i => is_Some (image_load i)) l1 ->
  image_load i = None ->
  palette_generate_with_images palette =
  mk_run (Failure ImageLoadFailure)
    (set_fixedEntries palette (seeded palette))
    ([liq_attr_create; liq_histogram_create] ++
     concat (map (image_events (seeded palette) (mode palette)) l1) ++
     [image_load_call i; liq_histogram_destroy; liq_attr_destroy]).
Proof.
  intros Hp Hl1 Hi. rewrite palette_generate_with_images_unfold.
  unfold processed in Hp.
  destruct (Z.ltb_spec 1 (capacity palette)) as [Hcap|Hcap].
  - rewrite Hp. rewrite read_images_fail by assumption.
    rewrite <- !app_assoc. reflexivity.
  - destruct l1; discriminate Hp.
Qed.

Lemma image_events_no_quantize (fs : list palette_entry_t) (m : color_mode_t)
    (l : list image_t) :
  ~ In liq_histogram_quantize_call (concat (map (image_events fs m) l)).
Proof.
  induction l as [|i l IH]; simpl; [tauto|].
  rewrite in_app_iff. intros [H|H]; [|exact (IH H)].
  unfold image_events in H.
  destruct (submitted_row fs m i); simpl in H;
    repeat (destruct H as [H|H]; [discriminate H|]); exact H.
Qed.

Lemma finish_trace (palette1 : palette_t) (liqpalette : option (list liq_color))
    (es : list palette_entry_t) (maxIndex : Z) (t : list event) (e : event) :
  In e (trace (finish palette1 liqpalette es maxIndex t)) ->
  In e t \/ (exists n u, e = generated_info n u) \/
  (exists p, e = liq_result_destroy p) \/
  e = liq_histogram_destroy \/ e = liq_attr_destroy.
Proof.
  unfold finish.
  destruct (resolve _ _ _ _ _) as [[[[fs' es'] n] u]|f]; simpl.
  - rewrite in_app_iff. simpl. intros [H|[H|[H|[H|[H|[]]]]]]; eauto 10.
  - intros H. left. exact H.
Qed.

Lemma submitted_rows_nil (fs : list palette_entry_t) (m : color_mode_t)
    (l : list image_t) :
  (forall i data, In i l -> image_load i = Some data -> survivors fs data = []) ->
  submitted_rows fs m l = [].
Proof.
  induction l as [|i l IH]; intros H; [reflexivity|].
  rewrite submitted_rows_cons, IH by (intros; eapply H; [right|]; eassumption).
  unfold submitted_rows, submitted_row. simpl.
  destruct (image_load i) as [data|] eqn:Hi; [|reflexivity].
  rewrite (H i data); [reflexivity | left; reflexivity | exact Hi].
Qed.

(** ** A failing image *)

Lemma image_events_loads (fs : list palette_entry_t) (m : color_mode_t)
    (l : list image_t) (i : image_t) :
  In (image_load_call i) (concat (map (image_events fs m) l)) -> In i l.
Proof.
  induction l as [|x l IH]; simpl; [tauto|].
  rewrite in_app_iff. intros [H|H]; [left | right; exact (IH H)].
  unfold image_events in H.
  destruct (submitted_row fs m x); simpl in H.
  - destruct H as [H|[H|[H|[]]]]; inversion H. reflexivity.
  - destruct H as [H|[H|[]]]; inversion H. reflexivity.
Qed.

Lemma quantized_trace (palette1 : palette_t) (es : list palette_entry_t)
    (answer : option (list liq_color)) (t : list event) (i : image_t) :
  In (image_load_call i) (trace (quantized palette1 es answer t)) ->
  In (image_load_call i) t.
Proof.
  unfold quantized. destruct answer as [l|].
  - destruct (store_quantized _ _ _ _ _) as [[es' maxIndex]|f].
    + intros H. apply finish_trace in H.
      destruct H as [H|[(n & u & H)|[(p & H)|[H|H]]]]; try discriminate H.
      apply in_app_iff in H as [H|[H|[]]]; [exact H | discriminate H].
    + simpl. intros H.
      apply in_app_iff in H as [H|[H|[]]]; [exact H | discriminate H].
  - simpl. intros H.
    apply in_app_iff in H as [H|[H|[H|[H|[]]]]];
      [exact H | discriminate H ..].
Qed.

Lemma loading_trace_loads (palette : palette_t) (i : image_t) :
  In (image_load_call i) (loading_trace palette) -> In i (processed palette).
Proof.
  unfold loading_trace. rewrite in_app_iff. intros [H|H].
  - destruct H as [H|[H|[]]]; discriminate H.
  - exact (image_events_loads _ _ _ _ H).
Qed.

(** A run of [palette_generate_with_images] that called [image_load] on an
    image that does not load is the run of the early return. *)
Lemma palette_generate_with_images_load_failure (palette : palette_t)
    (i : image_t) :
  In (image_load_call i) (trace (palette_generate_with_images palette)) ->
  image_load i = None ->
  exists l1 l2,
    images palette = l1 ++ i :: l2 /\
    Forall (fun x => is_Some (image_load x)) l1 /\
    palette_generate_with_images palette =
    mk_run (Failure ImageLoadFailure)
      (set_fixedEntries palette (seeded palette))
      ([liq_attr_create; liq_histogram_create] ++
       concat (map (image_events (seeded palette) (mode palette)) l1) ++
       [image_load_call i; liq_histogram_destroy; liq_attr_destroy]).
Proof.
  intros Hin Hi.
  destruct (first_failing_image (processed palette))
    as [Hok | (l1 & i0 & l2 & Hp & Hl1 & Hi0)].
  - exfalso.
    rewrite palette_generate_with_images_loaded in Hin by exact Hok.
    assert (Hload : In (image_load_call i) (loading_trace palette)).
    { destruct (nonempty (rows (histogram palette))).
      - exact (quantized_trace _ _ _ _ _ Hin).
      - apply finish_trace in Hin.
        destruct Hin as [H|[(n & u & H)|[(p & H)|[H|H]]]];
          [exact H | discriminate H ..]. }
    apply loading_trace_loads in Hload.
    rewrite List.Forall_forall in Hok. destruct (Hok i Hload) as [data Hdata].
    congruence.
  - rewrite (palette_generate_with_images_failed palette l1 l2 i0 Hp Hl1 Hi0)
      in Hin |- *.
    assert (Hsame : i = i0).
    { simpl in Hin. destruct Hin as [H|[H|H]]; try discriminate H.
      apply in_app_iff in H as [H|H].
      - apply image_events_loads in H.
        rewrite List.Forall_forall in Hl1. destruct (Hl1 i H) as [data Hdata].
        congruence.
      - destruct H as [H|[H|[H|[]]]]; inversion H. reflexivity. }
    subst i0. exists l1, l2. split; [|split; [exact Hl1 | reflexivity]].
    unfold processed in Hp.
    destruct (1 <? capacity palette); [exact Hp | destruct l1; discriminate Hp].
Qed.

(** C8.  When a run of [palette_generate] calls [image_load] on an image
    and the call fails, the run fails with ImageLoadFailure; the table and
    [numEntries] are the ones before the run; the images before the failing
    one were loaded, and the failing load is followed by nothing but the
    release of the histogram and of the attribute: no later image is
    loaded and the quantizer is not called. *)
Theorem load_failure_aborts (palette : palette_t) (converts : list convert_t)
    (i : image_t) :
  let R := palette_generate palette converts in
  In (image_load_call i) (trace R) ->
  image_load i = None ->
  out R = Failure ImageLoadFailure /\
  entries (pal R) = entries palette /\
  numEntries (pal R) = numEntries palette /\
  exists l1 l2 t,
    images (pal R) = l1 ++ i :: l2 /\
    Forall (fun x => is_Some (image_load x)) l1 /\
    trace R = t ++ [image_load_call i; liq_histogram_destroy; liq_attr_destroy] /\
    (forall x, In (image_load_call x) t -> In x l1) /\
    ~ In liq_histogram_quantize_call t.
Proof.
  intros R Hin Hi. subst R.
  destruct (reserved (name palette)) as [table|] eqn:Hname.
  { exfalso. unfold reserved, palette_generate in *.
    assert (Hb : forall tb n m,
              trace (palette_generate_builtin palette tb n m) = []).
    { intros tb n m. unfold palette_generate_builtin.
      destruct (builtin_loop tb m 0 n (entries palette)); reflexivity. }
    destruct (String.eqb (name palette) "xlibc");
      [rewrite Hb in Hin; exact Hin|].
    destruct (String.eqb (name palette) "rgb332");
      [rewrite Hb in Hin; exact Hin | discriminate Hname]. }
  rewrite (palette_generate_custom _ _ Hname) in Hin |- *.
  destruct (collect_images palette converts) as (l & Hp & _).
  destruct (collect palette converts) as [ret palette1].
  simpl in Hp. subst palette1.
  destruct (negb (ret =? 0)); [destruct Hin|].
  destruct (maxEntries (set_images palette l) <? numFixedEntries (set_images palette l));
    [destruct Hin|].
  destruct (0 <? numImages (set_images palette l)).
  - destruct (palette_generate_with_images_load_failure _ _ Hin Hi)
      as (l1 & l2 & Himg & Hl1 & ->).
    simpl. split; [reflexivity|]. split; [reflexivity|]. split; [reflexivity|].
    exists l1, l2.
    eexists ([liq_attr_create; liq_histogram_create] ++
             concat (map (image_events _ _) l1)).
    split; [exact Himg|]. split; [exact Hl1|].
    split; [rewrite <- app_assoc; reflexivity|]. split.
    + intros x Hx. apply in_app_iff in Hx as [Hx|Hx].
      * destruct Hx as [Hx|[Hx|[]]]; discriminate Hx.
      * exact (image_events_loads _ _ _ _ Hx).
    + intros Hq. apply in_app_iff in Hq as [Hq|Hq].
      * destruct Hq as [Hq|[Hq|[]]]; discriminate Hq.
      * exact (image_events_no_quantize _ _ _ Hq).
  - exfalso.
    destruct (numFixedEntries (set_images palette l) =? 0); [destruct Hin|].
    destruct (copy_fixed _ _ _) as [[es maxIndex]|f]; simpl in Hin.
    + destruct Hin as [Hin|[]]. discriminate Hin.
    + destruct Hin.
Qed.

(** ** The steps of the resolution *)

Lemma swap_into_place_Ok (fixedEntry : palette_entry_t) (j : nat)
    (es es' : list palette_entry_t) (maxIndex maxIndex' : Z) :
  swap_into_place fixedEntry j es maxIndex = Ok (es', maxIndex') <->
  exists tmpEntry displaced,
    es !! j = Some tmpEntry /\
    es !! index fixedEntry = Some displaced /\
    es' = <[index fixedEntry := set_valid tmpEntry true]> (<[j := displaced]> es) /\
    maxIndex' = raise_to maxIndex (index fixedEntry).
Proof.
  unfold swap_into_place. split.
  - intros H. steps H.
    apply read_Ok in Hx, Hx0. apply write_Ok in Hx1 as [_ ->].
    apply write_Ok in Hx2 as [_ ->]. inversion H; subst.
    exists x, x0. repeat split; assumption.
  - intros (t & d & Ht & Hd & -> & ->).
    apply read_Ok in Ht as Hrt. apply read_Ok in Hd as Hrd.
    rewrite Hrt. simpl. rewrite Hrd. simpl.
    rewrite write_lt by (eapply lookup_lt_Some; exact Ht). simpl.
    rewrite write_lt
      by (rewrite length_insert; eapply lookup_lt_Some; exact Hd).
    reflexivity.
Qed.

Lemma find_color_found (fixedEntry : palette_entry_t)
    (es : list palette_entry_t) (n : nat) :
  forall (j k : nat),
    find_color fixedEntry es j n = Ok (Some k) ->
    (j <= k < j + n)%nat /\
    exists entry,
      es !! k = Some entry /\
      same_rgb (rgb (color fixedEntry)) (rgb (color entry)) = true.
Proof.
  induction n as [|n IH]; intros j k H; simpl in H; [discriminate H|].
  steps H. apply read_Ok in Hx.
  destruct (same_rgb _ _) eqn:E.
  - inversion H; subst. split; [lia|]. exists x. split; assumption.
  - destruct (IH _ _ H) as [Hk He]. split; [lia | exact He].
Qed.

Lemma find_color_none (fixedEntry : palette_entry_t)
    (es : list palette_entry_t) (n : nat) :
  forall j : nat,
    (j + n <= length es)%nat ->
    (forall k entry, (j <= k < j + n)%nat -> es !! k = Some entry ->
       same_rgb (rgb (color fixedEntry)) (rgb (color entry)) = false) ->
    find_color fixedEntry es j n = Ok None.
Proof.
  induction n as [|n IH]; intros j Hlen Hno; simpl; [reflexivity|].
  destruct (read_lt es j) as (entry & Hr & He); [lia|].
  rewrite Hr. simpl. rewrite (Hno j entry) by (lia || assumption).
  apply IH; [lia|]. intros k e Hk. apply Hno. lia.
Qed.

Lemma first_free_spec (es : list palette_entry_t) (n : nat) :
  forall (j k : nat),
    first_free es j n = Ok k ->
    (j <= k <= j + n)%nat /\
    (forall i, (j <= i < k)%nat ->
       exists entry, es !! i = Some entry /\ valid entry = true) /\
    ((k < j + n)%nat ->
       exists entry, es !! k = Some entry /\ valid entry = false).
Proof.
  induction n as [|n IH]; intros j k H; simpl in H.
  - inversion H; subst. split; [lia|]. split; intros; lia.
  - steps H. apply read_Ok in Hx. destruct (valid x) eqn:E.
    + destruct (IH _ _ H) as (Hk & Hbelow & Hat).
      split; [lia|]. split.
      * intros i Hi. destruct (decide (i = j)) as [->|Hne].
        -- exists x. split; assumption.
        -- apply Hbelow. lia.
      * intros Hlt. apply Hat. lia.
    + inversion H; subst. split; [lia|]. split.
      * intros; lia.
      * intros _. exists x. split; assumption.
Qed.

Lemma place_exact_Ok (m : color_mode_t) (fixedEntry fixedEntry' : palette_entry_t)
    (es es' : list palette_entry_t) (maxIndex maxIndex' : Z) :
  place_exact m fixedEntry es maxIndex = Ok (fixedEntry', es', maxIndex') ->
  fixedEntry' = set_color fixedEntry (color_convert (color fixedEntry) m) /\
  exists occupant,
    es !! index fixedEntry = Some occupant /\
    ((valid occupant = false /\
      es' = <[index fixedEntry := set_valid fixedEntry' true]> es /\
      maxIndex' = raise_to maxIndex (index fixedEntry))
     \/
     (valid occupant = true /\
      exists j,
        first_free es 0 PALETTE_MAX_ENTRIES = Ok j /\
        (j < length es)%nat /\
        es' = <[index fixedEntry := set_valid fixedEntry' true]>
                (<[j := occupant]> es) /\
        maxIndex' = raise_to (raise_to maxIndex j) (index fixedEntry))).
Proof.
  unfold place_exact. intros H. steps H. simpl in Hx.
  apply read_Ok in Hx.
  apply write_Ok in Hx1 as [_ ->]. inversion H; subst. clear H.
  split; [reflexivity|]. exists x. split; [exact Hx|].
  destruct (valid x) eqn:E.
  - right. split; [reflexivity|]. steps Hx0.
    apply write_Ok in Hx2 as [Hlt ->]. inversion Hx0; subst.
    exists x0. repeat split; assumption.
  - left. inversion Hx0; subst. repeat split; reflexivity.
Qed.

(** ** Relocation keeps every valid colour *)

Lemma same_rgb_refl (x : liq_color) : same_rgb x x = true.
Proof. unfold same_rgb. rewrite !Z.eqb_refl. reflexivity. Qed.

Lemma valid_colors_app (l1 l2 : list palette_entry_t) :
  valid_colors (l1 ++ l2) = valid_colors l1 ++ valid_colors l2.
Proof. unfold valid_colors. rewrite List.filter_app, map_app. reflexivity. Qed.

Lemma valid_colors_cons (e : palette_entry_t) (l : list palette_entry_t) :
  valid_colors (e :: l) = shown e ++ valid_colors l.
Proof. unfold valid_colors, shown. simpl. destruct (valid e); reflexivity. Qed.

Lemma four_lists {A} (x y z w : list A) :
  (x ++ y ++ z) ++ w ≡ₚ y ++ x ++ w ++ z.
Proof.
  rewrite <- !app_assoc.
  etransitivity; [apply Permutation_app_swap_app|].
  do 2 apply Permutation_app_head. apply Permutation_app_comm.
Qed.

(** Overwriting a slot exchanges what the old and the new content show. *)
Lemma valid_colors_insert (es : list palette_entry_t) (i : nat)
    (old new : palette_entry_t) :
  es !! i = Some old ->
  valid_colors (<[i := new]> es) ++ shown old ≡ₚ shown new ++ valid_colors es.
Proof.
  intros H.
  assert (Hlt : (i < length es)%nat) by (eapply lookup_lt_Some; exact H).
  rewrite (insert_take_drop es i new Hlt).
  rewrite <- (take_drop_middle es i old H) at 3.
  rewrite !valid_colors_app, !valid_colors_cons.
  apply four_lists.
Qed.

(** The swap of the loop over the entries that are not exact: the entry
    displaced from the pinned index is at [j] afterwards, and the valid
    colours are the same, but for the colour found at [j] when its slot was
    not valid. *)
Lemma swap_into_place_colors (fixedEntry : palette_entry_t) (j : nat)
    (es es' : list palette_entry_t) (maxIndex maxIndex' : Z)
    (tmpEntry displaced : palette_entry_t) :
  swap_into_place fixedEntry j es maxIndex = Ok (es', maxIndex') ->
  es !! j = Some tmpEntry ->
  es !! index fixedEntry = Some displaced ->
  length es' = length es /\
  es' !! index fixedEntry = Some (set_valid tmpEntry true) /\
  (j <> index fixedEntry -> es' !! j = Some displaced) /\
  valid_colors es' ++ shown tmpEntry ≡ₚ color tmpEntry :: valid_colors es.
Proof.
  intros H Ht Hd. apply swap_into_place_Ok in H.
  destruct H as (t & d & Ht' & Hd' & -> & ->).
  rewrite Ht in Ht'. rewrite Hd in Hd'. inversion Ht'. inversion Hd'. subst t d.
  assert (Hj : (j < length es)%nat) by (eapply lookup_lt_Some; exact Ht).
  assert (Hi : (index fixedEntry < length es)%nat)
    by (eapply lookup_lt_Some; exact Hd).
  split; [rewrite !length_insert; reflexivity|].
  split; [apply list_lookup_insert_eq; rewrite length_insert; exact Hi|].
  split.
  { intros Hne. rewrite list_lookup_insert_ne by congruence.
    apply list_lookup_insert_eq. exact Hj. }
  assert (H1 : <[j := displaced]> es !! index fixedEntry = Some displaced).
  { destruct (decide (j = index fixedEntry)) as [<-|Hne].
    - apply list_lookup_insert_eq. exact Hj.
    - rewrite list_lookup_insert_ne by exact Hne. exact Hd. }
  pose proof (valid_colors_insert _ _ _ (set_valid tmpEntry true) H1) as P2.
  pose proof (valid_colors_insert _ _ _ displaced Ht) as P1.
  change (shown (set_valid tmpEntry true)) with [color tmpEntry] in P2.
  apply (Permutation_app_inv_r (shown displaced)).
  rewrite <- app_assoc.
  rewrite (Permutation_app_comm (shown tmpEntry) (shown displaced)).
  rewrite app_assoc, P2. simpl. rewrite P1.
  apply perm_skip. apply Permutation_app_comm.
Qed.

(** The placement of an exact entry: the valid colours gain the colour of
    the entry and lose nothing; an occupant that was valid is found again
    at the first slot that was not. *)
Lemma place_exact_colors (m : color_mode_t)
    (fixedEntry fixedEntry' : palette_entry_t)
    (es es' : list palette_entry_t) (maxIndex maxIndex' : Z) :
  place_exact m fixedEntry es maxIndex = Ok (fixedEntry', es', maxIndex') ->
  length es = PALETTE_MAX_ENTRIES ->
  length es' = length es /\
  es' !! index fixedEntry = Some (set_valid fixedEntry' true) /\
  valid_colors es' ≡ₚ color fixedEntry' :: valid_colors es /\
  (forall occupant,
     es !! index fixedEntry = Some occupant -> valid occupant = true ->
     exists j free,
       first_free es 0 PALETTE_MAX_ENTRIES = Ok j /\
       (forall i, (i < j)%nat ->
          exists entry, es !! i = Some entry /\ valid entry = true) /\
       es !! j = Some free /\ valid free = false /\
       es' !! j = Some occupant).
Proof.
  intros H Hlen.
  destruct (place_exact_Ok _ _ _ _ _ _ _ H) as (-> & occ & Hocc & Hcase).
  set (placed := set_valid
                   (set_color fixedEntry (color_convert (color fixedEntry) m))
                   true) in *.
  assert (Hi : (index fixedEntry < length es)%nat)
    by (eapply lookup_lt_Some; exact Hocc).
  destruct Hcase as [(Hinv & -> & ->) | (Hval & j & Hfree & Hj & -> & ->)].
  - split; [apply length_insert|].
    split; [apply list_lookup_insert_eq; exact Hi|]. split.
    + pose proof (valid_colors_insert _ _ _ placed Hocc) as P.
      unfold shown at 1 in P. rewrite Hinv, app_nil_r in P. exact P.
    + intros occupant Ho Hv. rewrite Hocc in Ho. inversion Ho. congruence.
  - destruct (first_free_spec _ _ _ _ Hfree) as (_ & Hbelow & Hat).
    destruct Hat as (free & Hfj & Hfv); [rewrite <- Hlen; exact Hj|].
    assert (Hne : j <> index fixedEntry) by congruence.
    assert (H1 : <[j := occ]> es !! index fixedEntry = Some occ).
    { rewrite list_lookup_insert_ne by exact Hne. exact Hocc. }
    split; [rewrite !length_insert; reflexivity|].
    split; [apply list_lookup_insert_eq; rewrite length_insert; exact Hi|].
    split.
    + pose proof (valid_colors_insert _ _ _ occ Hfj) as P1.
      pose proof (valid_colors_insert _ _ _ placed H1) as P2.
      unfold shown in P1 at 1 2. rewrite Hfv, Hval, app_nil_r in P1.
      unfold shown at 1 in P2. rewrite Hval in P2.
      change (shown placed) with [color placed] in P2.
      rewrite P1 in P2. simpl in P2.
      apply (Permutation_app_inv_r [color occ]).
      rewrite P2. simpl. apply perm_skip.
      apply Permutation_cons_append.
    + intros occupant Ho Hv. rewrite Hocc in Ho. inversion Ho. subst occupant.
      exists j, free. split; [exact Hfree|]. split; [intros i Hlt; apply Hbelow; lia|].
      split; [exact Hfj|]. split; [exact Hfv|].
      rewrite list_lookup_insert_ne by congruence.
      apply list_lookup_insert_eq. exact Hj.
Qed.

Lemma grows_refl (m : color_mode_t) (fs : list palette_entry_t)
    (es : list palette_entry_t) :
  grows m fs es es.
Proof. split; [reflexivity|]. exists []. split; [reflexivity | constructor]. Qed.

Lemma grows_trans (m : color_mode_t) (fs : list palette_entry_t)
    (es1 es2 es3 : list palette_entry_t) :
  grows m fs es1 es2 -> grows m fs es2 es3 -> grows m fs es1 es3.
Proof.
  intros (L1 & a1 & P1 & F1) (L2 & a2 & P2 & F2).
  split; [congruence|]. exists (a2 ++ a1). split.
  - rewrite P2, P1, app_assoc. reflexivity.
  - apply Forall_app. split; assumption.
Qed.

Lemma place_fixed_grows (m : color_mode_t) (fs : list palette_entry_t)
    (liqpalette : option (list liq_color)) (fixedEntry : palette_entry_t)
    (es es' : list palette_entry_t) (maxIndex maxIndex' : Z) :
  In fixedEntry fs ->
  place_fixed liqpalette fixedEntry es maxIndex = Ok (es', maxIndex') ->
  grows m fs es es'.
Proof.
  intros Hin H. unfold place_fixed in H.
  destruct (exact fixedEntry) eqn:Hex.
  { inversion H; subst. apply grows_refl. }
  destruct liqpalette as [l|]; [|discriminate H].
  steps H. destruct x as [j|]; [|inversion H; subst; apply grows_refl].
  destruct (find_color_found _ _ _ _ _ Hx) as (_ & t & Ht & Hmatch).
  destruct (proj1 (swap_into_place_Ok _ _ _ _ _ _) H)
    as (t' & d & Ht' & Hd & _ & _).
  destruct (swap_into_place_colors _ _ _ _ _ _ _ _ H Ht Hd) as (L & _ & _ & P).
  split; [exact L|]. unfold shown in P. destruct (valid t) eqn:Hv.
  - exists []. split; [|constructor]. simpl.
    apply (Permutation_app_inv_r [color t]). rewrite P.
    apply Permutation_cons_append.
  - exists [color t]. split; [rewrite app_nil_r in P; exact P|].
    constructor; [|constructor]. exists fixedEntry. split; [exact Hin|].
    unfold placed_color. rewrite Hex. exact Hmatch.
Qed.

Lemma place_fixed_all_grows (m : color_mode_t) (fs0 : list palette_entry_t)
    (liqpalette : option (list liq_color)) (fs : list palette_entry_t) :
  forall (es es' : list palette_entry_t) (maxIndex maxIndex' : Z),
    (forall f, In f fs -> In f fs0) ->
    place_fixed_all liqpalette fs es maxIndex = Ok (es', maxIndex') ->
    grows m fs0 es es'.
Proof.
  induction fs as [|f fs IH]; intros es es' maxIndex maxIndex' Hsub H.
  - inversion H; subst. apply grows_refl.
  - simpl in H. steps H.
    apply (grows_trans _ _ _ u).
    + eapply place_fixed_grows; [|exact Hx]. apply Hsub. left. reflexivity.
    + eapply IH; [|exact H]. intros f' Hf'. apply Hsub. right. exact Hf'.
Qed.

Lemma place_exact_all_grows (m : color_mode_t) (fs0 : list palette_entry_t)
    (fs : list palette_entry_t) :
  forall (fs' es es' : list palette_entry_t) (maxIndex maxIndex' : Z),
    (forall f, In f fs -> In f fs0) ->
    length es = PALETTE_MAX_ENTRIES ->
    place_exact_all m fs es maxIndex = Ok (fs', es', maxIndex') ->
    grows m fs0 es es'.
Proof.
  induction fs as [|f fs IH]; intros fs' es es' maxIndex maxIndex' Hsub Hlen H.
  - inversion H; subst. apply grows_refl.
  - simpl in H. destruct (exact f) eqn:Hex; simpl in H.
    + steps H. inversion H; subst. clear H.
      destruct (place_exact_colors _ _ _ _ _ _ _ Hx Hlen) as (L & _ & P & _).
      destruct (place_exact_Ok _ _ _ _ _ _ _ Hx) as (-> & _).
      apply (grows_trans _ _ _ v0).
      * split; [exact L|].
        exists [color (set_color f (color_convert (color f) m))].
        split; [exact P|]. constructor; [|constructor].
        exists f. split; [apply Hsub; left; reflexivity|].
        unfold placed_color. rewrite Hex. simpl. apply same_rgb_refl.
      * eapply IH; [| |exact Hx0]; [|congruence].
        intros f' Hf'. apply Hsub. right. exact Hf'.
    + steps H. inversion H; subst.
      eapply IH; [| |exact Hx]; [|exact Hlen].
      intros f' Hf'. apply Hsub. right. exact Hf'.
Qed.

(** The scan stays inside a table of [PALETTE_MAX_ENTRIES] slots, and stops
    below [PALETTE_MAX_ENTRIES] when some slot is not valid. *)
Lemma first_free_total (es : list palette_entry_t) (n : nat) :
  forall j : nat,
    (j + n <= length es)%nat -> exists k, first_free es j n = Ok k.
Proof.
  induction n as [|n IH]; intros j Hlen; simpl; [eexists; reflexivity|].
  destruct (read_lt es j) as (e & Hr & _); [lia|]. rewrite Hr. simpl.
  destruct (valid e); [apply IH; lia | eexists; reflexivity].
Qed.

Lemma place_exact_total (m : color_mode_t) (fixedEntry : palette_entry_t)
    (es : list palette_entry_t) (maxIndex : Z) :
  length es = PALETTE_MAX_ENTRIES ->
  (index fixedEntry < PALETTE_MAX_ENTRIES)%nat ->
  (exists k e, es !! k = Some e /\ valid e = false) ->
  exists r, place_exact m fixedEntry es maxIndex = Ok r.
Proof.
  intros Hlen Hidx (k & e & Hk & Hv). unfold place_exact.
  change (index (set_color fixedEntry (color_convert (color fixedEntry) m)))
    with (index fixedEntry).
  destruct (read_lt es (index fixedEntry)) as (occ & Hr & _); [lia|].
  rewrite Hr, ok_bind. destruct (valid occ).
  - destruct (first_free_total es PALETTE_MAX_ENTRIES 0) as [j Hj]; [lia|].
    rewrite Hj, ok_bind.
    destruct (first_free_spec _ _ _ _ Hj) as (Hb & Hbelow & _).
    assert (Hjlt : (j < length es)%nat).
    { assert (Hklt : (k < length es)%nat) by (eapply lookup_lt_Some; exact Hk).
      destruct (Nat.lt_ge_cases k j) as [Hlt|Hge]; [|lia].
      destruct (Hbelow k) as (e' & He' & Hv'); [lia|]. congruence. }
    rewrite write_lt by exact Hjlt. rewrite !ok_bind. cbv beta iota.
    rewrite write_lt by (rewrite length_insert; lia). rewrite ok_bind.
    eexists. reflexivity.
  - rewrite ok_bind. cbv beta iota. rewrite write_lt by lia. rewrite ok_bind.
    eexists. reflexivity.
Qed.

(** As long as the resolution stays within the table, placing a fixed
    colour drops no valid colour.  (1) The swap
    of an entry that is not exact with the slot [j] where its colour was
    found leaves the entry displaced from the pinned index at [j], and the
    valid colours of the table are the same, [tmpEntry] being valid.
    (2) The placement of an exact entry over a valid occupant moves the
    occupant to the first slot that is not valid, found by the scan from
    slot 0, and the valid colours of the table are the old ones and the
    colour placed.  (3) Over the whole resolution, every valid colour of
    the table the quantizer's output was stored in is a valid colour of the
    final table, with its multiplicity; the other valid colours of the
    final table are fixed colours.  (4) The placement of an exact entry
    pinned inside a table of [PALETTE_MAX_ENTRIES] slots is defined as long
    as some slot of the table is not valid. *)
Theorem relocation_preserves_colors (m : color_mode_t)
    (liqpalette : option (list liq_color)) :
  (forall fixedEntry j es es' maxIndex maxIndex' tmpEntry displaced,
     swap_into_place fixedEntry j es maxIndex = Ok (es', maxIndex') ->
     es !! j = Some tmpEntry ->
     es !! index fixedEntry = Some displaced ->
     valid tmpEntry = true ->
     es' !! index fixedEntry = Some tmpEntry /\
     (j <> index fixedEntry -> es' !! j = Some displaced) /\
     valid_colors es' ≡ₚ valid_colors es) /\
  (forall fixedEntry fixedEntry' es es' maxIndex maxIndex' occupant,
     place_exact m fixedEntry es maxIndex = Ok (fixedEntry', es', maxIndex') ->
     length es = PALETTE_MAX_ENTRIES ->
     es !! index fixedEntry = Some occupant ->
     valid occupant = true ->
     valid_colors es' ≡ₚ color fixedEntry' :: valid_colors es /\
     exists j free,
       first_free es 0 PALETTE_MAX_ENTRIES = Ok j /\
       (forall i, (i < j)%nat ->
          exists entry, es !! i = Some entry /\ valid entry = true) /\
       es !! j = Some free /\ valid free = false /\
       es' !! j = Some occupant) /\
  (forall fs fs' es es' maxIndex numEntries unused,
     resolve m liqpalette fs es maxIndex = Ok (fs', es', numEntries, unused) ->
     length es = PALETTE_MAX_ENTRIES ->
     valid_colors es ⊆+ valid_colors es' /\
     exists added,
       valid_colors es' ≡ₚ added ++ valid_colors es /\
       Forall (is_fixed_color m fs) added) /\
  (forall fixedEntry es maxIndex,
     length es = PALETTE_MAX_ENTRIES ->
     (index fixedEntry < PALETTE_MAX_ENTRIES)%nat ->
     (exists k e, es !! k = Some e /\ valid e = false) ->
     exists r, place_exact m fixedEntry es maxIndex = Ok r).
Proof.
  split; [|split; [|split]];
    [| | |intros f es mi; apply place_exact_total].
  - intros f j es es' mi mi' t d H Ht Hd Hv.
    destruct (swap_into_place_colors _ _ _ _ _ _ _ _ H Ht Hd)
      as (_ & Hidx & Hj & P).
    split; [|split; [exact Hj|]].
    + rewrite Hidx. f_equal. destruct t. simpl in *. subst. reflexivity.
    + unfold shown in P. rewrite Hv in P.
      apply (Permutation_app_inv_r [color t]). rewrite P.
      apply Permutation_cons_append.
  - intros f f' es es' mi mi' occ H Hlen Hocc Hv.
    destruct (place_exact_colors _ _ _ _ _ _ _ H Hlen) as (_ & _ & P & Hmove).
    split; [exact P | exact (Hmove occ Hocc Hv)].
  - intros fs fs' es es' mi n unused H Hlen. unfold resolve in H. steps H.
    inversion H; subst. clear H. rename u into es1.
    assert (G1 : grows m fs es es1).
    { eapply place_fixed_all_grows; [|exact Hx]. tauto. }
    assert (G2 : grows m fs es1 es').
    { eapply place_exact_all_grows; [| |exact Hx0]; [tauto|].
      destruct G1 as [L _]. congruence. }
    destruct (grows_trans _ _ _ _ _ G1 G2) as (_ & added & P & F).
    split; [|exists added; split; assumption].
    rewrite P. apply submseteq_inserts_l. reflexivity.
Qed.

(** ** [maxIndex] follows the highest valid slot *)

Lemma tracked_write (es : list palette_entry_t) (maxIndex : Z) (k : nat)
    (e : palette_entry_t) :
  tracked es maxIndex ->
  (k < length es)%nat ->
  valid e = true ->
  tracked (<[k := e]> es) (raise_to maxIndex k).
Proof.
  intros (Hb & Habove & Hat) Hk Hv. rewrite raise_to_max.
  split; [rewrite length_insert; lia|]. split.
  - intros i x Hi Hx. destruct (decide (i = k)) as [->|Hne]; [lia|].
    rewrite list_lookup_insert_ne in Hi by congruence.
    specialize (Habove i x Hi Hx). lia.
  - intros _. destruct (Z.le_gt_cases maxIndex (Z.of_nat k)) as [Hle|Hgt].
    + exists e. rewrite Z.max_r by exact Hle. rewrite Nat2Z.id.
      split; [apply list_lookup_insert_eq; exact Hk | exact Hv].
    + rewrite Z.max_l by lia. destruct Hat as (x & Hx & Hxv); [lia|].
      exists x. split; [|exact Hxv].
      rewrite list_lookup_insert_ne by lia. exact Hx.
Qed.

Lemma store_quantized_spec (m : color_mode_t) (l : list liq_color) :
  forall (i : nat) (es es' : list palette_entry_t) (maxIndex maxIndex' : Z),
    store_quantized m l i es maxIndex = Ok (es', maxIndex') ->
    length es' = length es /\
    (l = [] \/ (i + length l <= length es)%nat) /\
    (forall k, (k < i \/ i + length l <= k)%nat -> es' !! k = es !! k) /\
    (forall k c, l !! k = Some c ->
       exists e, es' !! (i + k)%nat = Some e /\ valid e = true /\
                 color e = stored_color m c) /\
    maxIndex' =
      match l with
      | [] => maxIndex
      | _ => Z.max maxIndex (Z.of_nat (i + length l) - 1)
      end.
Proof.
  induction l as [|c l IH]; intros i es es' maxIndex maxIndex' H.
  - inversion H; subst. split; [reflexivity|]. split; [left; reflexivity|].
    split; [reflexivity|]. split; [|reflexivity].
    intros k c Hk. discriminate Hk.
  - simpl in H. steps H. apply read_Ok in Hx.
    apply write_Ok in Hx0 as [Hlt ->].
    destruct (IH _ _ _ _ _ H) as (L & Hfit & Hout & Hin & Hmax).
    rewrite length_insert in L, Hfit.
    split; [exact L|]. split; [|split; [|split]].
    + right. destruct Hfit as [->|Hfit]; simpl; lia.
    + intros k Hk. rewrite Hout by (simpl in Hk; lia).
      apply list_lookup_insert_ne. simpl in Hk. lia.
    + intros k c' Hk. destruct k as [|k]; simpl in Hk.
      * inversion Hk; subst c'. rewrite Nat.add_0_r.
        rewrite Hout by lia. rewrite list_lookup_insert_eq by exact Hlt.
        eexists. split; [reflexivity|]. split; reflexivity.
      * destruct (Hin k c' Hk) as (e & He & Hv & Hc).
        exists e. replace (i + S k)%nat with (S i + k)%nat by lia.
        split; [exact He | split; assumption].
    + rewrite Hmax, raise_to_max. destruct l; simpl length; lia.
Qed.

Lemma place_fixed_tracked (l : list liq_color) (fixedEntry : palette_entry_t)
    (es es' : list palette_entry_t) (maxIndex maxIndex' : Z) :
  place_fixed (Some l) fixedEntry es maxIndex = Ok (es', maxIndex') ->
  tracked es maxIndex -> dense (length l) es maxIndex ->
  tracked es' maxIndex' /\ dense (length l) es' maxIndex'.
Proof.
  intros H T D. unfold place_fixed in H.
  destruct (exact fixedEntry); [inversion H; subst; split; assumption|].
  steps H. destruct x as [j|]; [|inversion H; subst; split; assumption].
  destruct (find_color_found _ _ _ _ _ Hx) as (Hj & _).
  apply swap_into_place_Ok in H as (t & d & Ht & Hd & -> & ->).
  destruct T as (Hb & Habove & Hat). destruct D as (Hlow & Hfull).
  assert (Hjl : (j < length es)%nat) by (eapply lookup_lt_Some; exact Ht).
  assert (Hil : (index fixedEntry < length es)%nat)
    by (eapply lookup_lt_Some; exact Hd).
  set (i := index fixedEntry) in *.
  assert (Hlook : forall k,
            <[i := set_valid t true]> (<[j := d]> es) !! k =
            if decide (k = i) then Some (set_valid t true)
            else if decide (k = j) then Some d else es !! k).
  { intros k. destruct (decide (k = i)) as [->|Hki].
    - apply list_lookup_insert_eq. rewrite length_insert. exact Hil.
    - rewrite list_lookup_insert_ne by congruence.
      destruct (decide (k = j)) as [->|Hkj].
      + apply list_lookup_insert_eq. exact Hjl.
      + apply list_lookup_insert_ne. congruence. }
  assert (Hd_valid : maxIndex = Z.of_nat (length l) - 1 ->
                     (i < length l)%nat -> valid d = true).
  { intros Hm Hi. destruct (Hfull Hm i Hi) as (e & He & Hv). congruence. }
  rewrite raise_to_max. split; [split; [|split]|split].
  - rewrite !length_insert. lia.
  - intros k e Hk Hv. rewrite Hlook in Hk.
    destruct (decide (k = i)) as [->|Hki]; [lia|].
    destruct (decide (k = j)) as [->|Hkj]; [lia|].
    specialize (Habove k e Hk Hv). lia.
  - intros _. rewrite Hlook.
    destruct (Z.le_gt_cases maxIndex (Z.of_nat i)) as [Hle|Hgt].
    + rewrite Z.max_r by exact Hle. rewrite Nat2Z.id.
      rewrite decide_True by reflexivity. eexists. split; reflexivity.
    + rewrite Z.max_l by lia.
      rewrite decide_False by lia.
      destruct (decide (Z.to_nat maxIndex = j)) as [Hmj|Hmj].
      * exists d. split; [reflexivity|]. apply Hd_valid; lia.
      * apply Hat. lia.
  - lia.
  - intros Hm k Hk. rewrite Hlook.
    destruct (decide (k = i)) as [->|Hki];
      [eexists; split; reflexivity|].
    destruct (decide (k = j)) as [->|Hkj].
    + exists d. split; [reflexivity|]. apply Hd_valid; lia.
    + apply Hfull; lia.
Qed.

Lemma place_fixed_all_tracked (l : list liq_color) (fs : list palette_entry_t) :
  forall (es es' : list palette_entry_t) (maxIndex maxIndex' : Z),
    place_fixed_all (Some l) fs es maxIndex = Ok (es', maxIndex') ->
    tracked es maxIndex -> dense (length l) es maxIndex ->
    tracked es' maxIndex'.
Proof.
  induction fs as [|f fs IH]; intros es es' maxIndex maxIndex' H T D.
  - inversion H; subst. exact T.
  - simpl in H. steps H.
    destruct (place_fixed_tracked _ _ _ _ _ _ Hx T D) as [T1 D1].
    exact (IH _ _ _ _ H T1 D1).
Qed.

(** Without a palette of the quantizer, the loop over the entries that are
    not exact either changes nothing or dereferences [NULL]. *)
Lemma place_fixed_all_null (fs : list palette_entry_t) :
  forall (es : list palette_entry_t) (maxIndex : Z),
    place_fixed_all None fs es maxIndex =
    if forallb exact fs then Ok (es, maxIndex) else Fault NullDereference.
Proof.
  induction fs as [|f fs IH]; intros es maxIndex; [reflexivity|].
  simpl. unfold place_fixed. destruct (exact f); simpl; [apply IH | reflexivity].
Qed.

Lemma place_exact_tracked (m : color_mode_t)
    (fixedEntry fixedEntry' : palette_entry_t)
    (es es' : list palette_entry_t) (maxIndex maxIndex' : Z) :
  place_exact m fixedEntry es maxIndex = Ok (fixedEntry', es', maxIndex') ->
  tracked es maxIndex -> tracked es' maxIndex'.
Proof.
  intros H T.
  destruct (place_exact_Ok _ _ _ _ _ _ _ H) as (-> & occ & Hocc & Hcase).
  assert (Hi : (index fixedEntry < length es)%nat)
    by (eapply lookup_lt_Some; exact Hocc).
  destruct Hcase as [(_ & -> & ->) | (Hval & j & _ & Hj & -> & ->)].
  - apply tracked_write; [exact T | exact Hi | reflexivity].
  - apply tracked_write; [|rewrite length_insert; exact Hi | reflexivity].
    apply tracked_write; [exact T | exact Hj | exact Hval].
Qed.

Lemma place_exact_all_tracked (m : color_mode_t) (fs : list palette_entry_t) :
  forall (fs' es es' : list palette_entry_t) (maxIndex maxIndex' : Z),
    place_exact_all m fs es maxIndex = Ok (fs', es', maxIndex') ->
    tracked es maxIndex -> tracked es' maxIndex'.
Proof.
  induction fs as [|f fs IH]; intros fs' es es' maxIndex maxIndex' H T.
  - inversion H; subst. exact T.
  - simpl in H. destruct (exact f); simpl in H; steps H; inversion H; subst.
    + eapply IH; [exact Hx0|]. eapply place_exact_tracked; eassumption.
    + eapply IH; eassumption.
Qed.

Lemma count_unused_spec (es : list palette_entry_t) (n : nat) :
  forall (i : nat) (unused unused' : Z),
    count_unused es i n unused = Ok unused' ->
    unused' =
    unused +
    Z.of_nat (length (List.filter (fun e => negb (valid e)) (take n (drop i es)))).
Proof.
  induction n as [|n IH]; intros i unused unused' H; simpl in H.
  - inversion H; subst. rewrite take_0. simpl. lia.
  - steps H. apply read_Ok in Hx. rewrite (IH _ _ _ H).
    rewrite (drop_S es x i Hx). simpl.
    destruct (valid x); simpl; lia.
Qed.

Lemma place_exact_all_length (m : color_mode_t) (fs : list palette_entry_t) :
  forall (fs' es es' : list palette_entry_t) (maxIndex maxIndex' : Z),
    place_exact_all m fs es maxIndex = Ok (fs', es', maxIndex') ->
    length es' = length es.
Proof.
  induction fs as [|f fs IH]; intros fs' es es' maxIndex maxIndex' H.
  - inversion H; subst. reflexivity.
  - simpl in H. destruct (exact f); simpl in H; steps H; inversion H; subst.
    + rewrite (IH _ _ _ _ _ Hx0).
      destruct (place_exact_Ok _ _ _ _ _ _ _ Hx) as (_ & occ & _ & Hcase).
      destruct Hcase as [(_ & -> & _) | (_ & j & _ & _ & -> & _)];
        rewrite ?length_insert; reflexivity.
    + exact (IH _ _ _ _ _ Hx).
Qed.

(** The shape of a run of [palette_generate_with_images] that returns 0:
    either the quantizer was not called and the resolution ran on the table
    as it was, or its colours were stored first. *)
Lemma palette_generate_with_images_success (palette : palette_t) :
  out (palette_generate_with_images palette) = Success ->
  exists liqpalette es0 maxIndex0 t fs' es' n unused,
    ((liqpalette = None /\ es0 = entries palette /\ maxIndex0 = -1) \/
     (exists l, liqpalette = Some l /\
        store_quantized (mode palette) l 0 (entries palette) (-1) =
        Ok (es0, maxIndex0))) /\
    resolve (mode palette) liqpalette (seeded palette) es0 maxIndex0 =
      Ok (fs', es', n, unused) /\
    palette_generate_with_images palette =
      mk_run Success
        (set_table (set_fixedEntries (set_fixedEntries palette (seeded palette)) fs')
           es' n)
        (t ++ [generated_info n (Z.of_nat PALETTE_MAX_ENTRIES - n + unused);
               liq_result_destroy (bool_decide (is_Some liqpalette));
               liq_histogram_destroy; liq_attr_destroy]) /\
    (forall l, liqpalette = Some l ->
       exists hist,
         liq_histogram_quantize hist
           (mk_attr (quantizeSpeed palette) (capacity palette)) = Some l).
Proof.
  rewrite palette_generate_with_images_unfold.
  destruct (read_images _ _ _ _ _ _ _) as [[[hist' nq]|] t];
    [|intros H; discriminate H].
  assert (Hfin : forall liqpalette es0 maxIndex0 t0,
            out (finish (set_fixedEntries palette (seeded palette)) liqpalette
                   es0 maxIndex0 t0) = Success ->
            exists fs' es' n unused,
              resolve (mode palette) liqpalette (seeded palette) es0 maxIndex0 =
                Ok (fs', es', n, unused) /\
              finish (set_fixedEntries palette (seeded palette)) liqpalette
                es0 maxIndex0 t0 =
              mk_run Success
                (set_table
                   (set_fixedEntries (set_fixedEntries palette (seeded palette)) fs')
                   es' n)
                (t0 ++ [generated_info n
                          (Z.of_nat PALETTE_MAX_ENTRIES - n + unused);
                        liq_result_destroy (bool_decide (is_Some liqpalette));
                        liq_histogram_destroy; liq_attr_destroy])).
  { intros lp es0 mi0 t0. unfold finish. simpl.
    destruct (resolve _ _ _ _ _) as [[[[fs' es'] n] unused]|f];
      [|intros H; discriminate H].
    intros _. exists fs', es', n, unused. split; reflexivity. }
  destruct nq.
  - unfold quantized.
    destruct (liq_histogram_quantize _ _) as [l|] eqn:Hq;
      [|intros H; discriminate H].
    destruct (store_quantized _ _ _ _ _) as [[es0 maxIndex0]|f] eqn:Hstore;
      [|intros H; discriminate H].
    intros H. destruct (Hfin _ _ _ _ H) as (fs' & es' & n & unused & Hres & Heq).
    exists (Some l), es0, maxIndex0, (t ++ [liq_histogram_quantize_call]),
      fs', es', n, unused.
    split; [right; exists l; split; [reflexivity | exact Hstore]|].
    split; [exact Hres|]. split; [exact Heq|].
    intros l' Hl'. inversion Hl'; subst l'. exists hist'. exact Hq.
  - intros H. destruct (Hfin _ _ _ _ H) as (fs' & es' & n & unused & Hres & Heq).
    exists None, (entries palette), (-1), t, fs', es', n, unused.
    split; [left; repeat split|]. split; [exact Hres|]. split; [exact Heq|].
    intros l' Hl'. discriminate Hl'.
Qed.

(** The table the resolution starts from is tracked, when no slot was
    valid before the run. *)
Lemma start_tracked (palette : palette_t) (liqpalette : option (list liq_color))
    (es0 : list palette_entry_t) (maxIndex0 : Z) :
  Forall (fun e => valid e = false) (entries palette) ->
  ((liqpalette = None /\ es0 = entries palette /\ maxIndex0 = -1) \/
   (exists l, liqpalette = Some l /\
      store_quantized (mode palette) l 0 (entries palette) (-1) =
      Ok (es0, maxIndex0))) ->
  length es0 = length (entries palette) /\
  tracked es0 maxIndex0 /\
  (forall l, liqpalette = Some l -> dense (length l) es0 maxIndex0).
Proof.
  intros Hinv [(-> & -> & ->) | (l & -> & Hstore)].
  - split; [reflexivity|]. split; [|intros l Hl; discriminate Hl].
    split; [lia|]. split.
    + intros k e Hk Hv. rewrite List.Forall_forall in Hinv.
      assert (Hin : In e (entries palette)).
      { apply list_elem_of_In. eapply list_elem_of_lookup_2. exact Hk. }
      specialize (Hinv e Hin). congruence.
    + intros Hneg. lia.
  - destruct (store_quantized_spec _ _ _ _ _ _ _ Hstore)
      as (L & Hfit & Hout & Hin & Hmax).
    assert (Hm : maxIndex0 = Z.of_nat (length l) - 1).
    { subst maxIndex0. destruct l; simpl length; lia. }
    assert (Hvalid : forall k, (k < length l)%nat ->
              exists e, es0 !! k = Some e /\ valid e = true).
    { intros k Hk. destruct (lookup_lt_is_Some_2 l k Hk) as [c Hc].
      destruct (Hin k c Hc) as (e & He & Hv & _). exists e.
      split; [exact He | exact Hv]. }
    split; [exact L|]. split; [split; [|split]|].
    + rewrite L. destruct Hfit as [->|Hfit]; simpl in *; lia.
    + intros k e Hk Hv.
      destruct (Nat.lt_ge_cases k (length l)) as [Hlt|Hge]; [lia|].
      rewrite Hout in Hk by lia. rewrite List.Forall_forall in Hinv.
      assert (Hin' : In e (entries palette)).
      { apply list_elem_of_In. eapply list_elem_of_lookup_2. exact Hk. }
      specialize (Hinv e Hin'). congruence.
    + intros Hpos. apply Hvalid. lia.
    + intros l' Hl'. inversion Hl'; subst l'. split; [lia|].
      intros _. exact Hvalid.
Qed.

Lemma place_fixed_all_length (liqpalette : option (list liq_color))
    (fs : list palette_entry_t) :
  forall (es es' : list palette_entry_t) (maxIndex maxIndex' : Z),
    place_fixed_all liqpalette fs es maxIndex = Ok (es', maxIndex') ->
    length es' = length es.
Proof.
  intros es es' maxIndex maxIndex' H.
  destruct (place_fixed_all_grows 0 fs liqpalette fs es es' maxIndex maxIndex')
    as [L _]; [tauto | exact H | exact L].
Qed.

Lemma resolve_tracked (m : color_mode_t) (liqpalette : option (list liq_color))
    (fs fs' es0 es' : list palette_entry_t) (maxIndex0 n unused : Z) :
  resolve m liqpalette fs es0 maxIndex0 = Ok (fs', es', n, unused) ->
  tracked es0 maxIndex0 ->
  (forall l, liqpalette = Some l -> dense (length l) es0 maxIndex0) ->
  length es' = length es0 /\
  tracked es' (n - 1) /\
  unused =
    Z.of_nat (length (List.filter (fun e => negb (valid e))
                        (take (Z.to_nat n) es'))).
Proof.
  intros H T D. unfold resolve in H. steps H. inversion H; subst. clear H.
  rename u into es1, v into maxIndex1, v0 into maxIndex2.
  assert (T1 : tracked es1 maxIndex1).
  { destruct liqpalette as [l|].
    - exact (place_fixed_all_tracked _ _ _ _ _ _ Hx T (D l eq_refl)).
    - rewrite place_fixed_all_null in Hx.
      destruct (forallb exact fs); inversion Hx; subst. exact T. }
  assert (T2 : tracked es' maxIndex2)
    by exact (place_exact_all_tracked _ _ _ _ _ _ _ Hx0 T1).
  split; [|split].
  - rewrite (place_exact_all_length _ _ _ _ _ _ _ Hx0).
    exact (place_fixed_all_length _ _ _ _ _ _ Hx).
  - replace (maxIndex2 + 1 - 1) with maxIndex2 by lia. exact T2.
  - rewrite (count_unused_spec _ _ _ _ _ Hx1). rewrite drop_0. lia.
Qed.

(** ** A fixed colour that is not found *)

Lemma place_fixed_unmatched (l : list liq_color) (f : palette_entry_t)
    (es : list palette_entry_t) (maxIndex : Z) :
  (length l <= length es)%nat ->
  unmatched f es ->
  place_fixed (Some l) f es maxIndex = Ok (es, maxIndex).
Proof.
  intros Hlen Hno. unfold place_fixed.
  destruct (exact f); [reflexivity|].
  rewrite find_color_none; [reflexivity | simpl; lia |].
  intros k entry _ Hk. apply Hno.
  apply list_elem_of_In. eapply list_elem_of_lookup_2. exact Hk.
Qed.

(** The swaps move the colours of the table about and bring in no
    colour. *)
Lemma place_fixed_unmatched_kept (liqpalette : option (list liq_color))
    (f g : palette_entry_t) (es es' : list palette_entry_t)
    (maxIndex maxIndex' : Z) :
  place_fixed liqpalette g es maxIndex = Ok (es', maxIndex') ->
  unmatched f es -> unmatched f es'.
Proof.
  intros H Hno. unfold place_fixed in H.
  destruct (exact g); [inversion H; subst; exact Hno|].
  destruct liqpalette as [l|]; [|discriminate H].
  steps H. destruct x as [j|]; [|inversion H; subst; exact Hno].
  apply swap_into_place_Ok in H as (t & d & Ht & Hd & -> & ->).
  intros e He. apply list_elem_of_In in He.
  apply list_elem_of_lookup in He as [k Hk].
  destruct (decide (k = index g)) as [->|Hki].
  - rewrite list_lookup_insert_eq in Hk.
    + inversion Hk; subst e. simpl. apply Hno.
      apply list_elem_of_In. eapply list_elem_of_lookup_2. exact Ht.
    + rewrite length_insert. eapply lookup_lt_Some. exact Hd.
  - rewrite list_lookup_insert_ne in Hk by congruence.
    destruct (decide (k = j)) as [->|Hkj].
    + rewrite list_lookup_insert_eq in Hk by (eapply lookup_lt_Some; exact Ht).
      inversion Hk; subst e. apply Hno.
      apply list_elem_of_In. eapply list_elem_of_lookup_2. exact Hd.
    + rewrite list_lookup_insert_ne in Hk by congruence.
      apply Hno. apply list_elem_of_In. eapply list_elem_of_lookup_2. exact Hk.
Qed.

Lemma place_fixed_all_skip (l : list liq_color) (f : palette_entry_t)
    (fs1 fs2 : list palette_entry_t) :
  forall (es : list palette_entry_t) (maxIndex : Z),
    (length l <= length es)%nat ->
    unmatched f es ->
    place_fixed_all (Some l) (fs1 ++ f :: fs2) es maxIndex =
    place_fixed_all (Some l) (fs1 ++ fs2) es maxIndex /\
    forall es1 maxIndex1,
      place_fixed_all (Some l) fs1 es maxIndex = Ok (es1, maxIndex1) ->
      place_fixed (Some l) f es1 maxIndex1 = Ok (es1, maxIndex1).
Proof.
  induction fs1 as [|g fs1 IH]; intros es maxIndex Hlen Hno.
  - simpl. rewrite place_fixed_unmatched by assumption. simpl.
    split; [reflexivity|]. intros es1 maxIndex1 H. inversion H; subst.
    apply place_fixed_unmatched; assumption.
  - simpl.
    destruct (place_fixed (Some l) g es maxIndex) as [[es' maxIndex']|flt] eqn:Hg;
      simpl; [|split; [reflexivity | intros ? ? H; discriminate H]].
    apply IH.
    + destruct (place_fixed_grows 0 [g] _ _ _ _ _ _ (or_introl eq_refl) Hg)
        as [L _]. lia.
    + eapply place_fixed_unmatched_kept; eassumption.
Qed.

Lemma place_exact_all_skip (m : color_mode_t) (f : palette_entry_t)
    (fs1 fs2 : list palette_entry_t) :
  exact f = false ->
  forall (es : list palette_entry_t) (maxIndex : Z),
    table_of (place_exact_all m (fs1 ++ f :: fs2) es maxIndex) =
    table_of (place_exact_all m (fs1 ++ fs2) es maxIndex).
Proof.
  intros Hf. induction fs1 as [|g fs1 IH]; intros es maxIndex.
  - simpl. rewrite Hf. simpl.
    destruct (place_exact_all m fs2 es maxIndex) as [[[fs' es'] mi']|flt];
      reflexivity.
  - simpl. destruct (exact g); simpl.
    + destruct (place_exact m g es maxIndex) as [[[g' es1] mi1]|flt];
        simpl; [|reflexivity].
      specialize (IH es1 mi1).
      destruct (place_exact_all m (fs1 ++ f :: fs2) es1 mi1)
        as [[[fs' es'] mi']|flt];
      destruct (place_exact_all m (fs1 ++ fs2) es1 mi1)
        as [[[fs'' es''] mi'']|flt']; simpl in *; congruence.
    + specialize (IH es maxIndex).
      destruct (place_exact_all m (fs1 ++ f :: fs2) es maxIndex)
        as [[[fs' es'] mi']|flt];
      destruct (place_exact_all m (fs1 ++ fs2) es maxIndex)
        as [[[fs'' es''] mi'']|flt']; simpl in *; congruence.
Qed.

(** A fixed entry that is not exact and whose colour, as
    converted by the seeding loop, has the red, green and blue of no slot
    of the table in which the quantizer's colours were stored (neither of a
    stored colour nor of the stale colour of another slot) is not found:
    its turn in the loop writes nothing and leaves [maxIndex], and the
    resolution ends with the table, [numEntries] and count of unused slots
    it would end with if the entry were not declared; no error and no
    status of its own comes from it. *)
Theorem unmatched_entry_skipped (m : color_mode_t) (l : list liq_color)
    (f : palette_entry_t) (fs1 fs2 es : list palette_entry_t) (maxIndex : Z) :
  exact f = false ->
  (length l <= length es)%nat ->
  unmatched f es ->
  (forall es1 maxIndex1,
     place_fixed_all (Some l) fs1 es maxIndex = Ok (es1, maxIndex1) ->
     place_fixed (Some l) f es1 maxIndex1 = Ok (es1, maxIndex1)) /\
  resolved m (Some l) (fs1 ++ f :: fs2) es maxIndex =
  resolved m (Some l) (fs1 ++ fs2) es maxIndex.
Proof.
  intros Hf Hlen Hno.
  destruct (place_fixed_all_skip l f fs1 fs2 es maxIndex Hlen Hno) as [Hall Hone].
  split; [exact Hone|].
  unfold resolved, resolve. rewrite Hall.
  destruct (place_fixed_all (Some l) (fs1 ++ fs2) es maxIndex)
    as [[es1 mi1]|flt]; simpl; [|reflexivity].
  pose proof (place_exact_all_skip m f fs1 fs2 Hf es1 mi1) as Hex.
  destruct (place_exact_all m (fs1 ++ f :: fs2) es1 mi1)
    as [[[fs' es'] mi']|flt];
  destruct (place_exact_all m (fs1 ++ fs2) es1 mi1)
    as [[[fs'' es''] mi'']|flt']; simpl in *; try congruence.
  inversion Hex; subst.
  destruct (count_unused es'' 0 (Z.to_nat (mi'' + 1)) 0); reflexivity.
Qed.

(** ** A resolution without a quantizer palette *)

Lemma forallb_exact_seed (m : color_mode_t) (fs : list palette_entry_t) :
  forallb exact (map (seed m) fs) = forallb exact fs.
Proof.
  induction fs as [|f fs IH]; [reflexivity|].
  simpl. rewrite IH. f_equal. unfold seed.
  destruct (exact f) eqn:Ef; [exact Ef | exact Ef].
Qed.

(** When the quantizer was not called, a run of
    [palette_generate_with_images] with a fixed entry that is not exact
    reads [liqpalette->count] through the [NULL] pointer. *)
Lemma null_palette_dereferenced (palette : palette_t) :
  Forall (fun i => is_Some (image_load i)) (processed palette) ->
  rows (histogram palette) = [] ->
  forallb exact (fixedEntries palette) = false ->
  out (palette_generate_with_images palette) = Undefined NullDereference.
Proof.
  intros Hload Hrows Hfs.
  rewrite palette_generate_with_images_loaded by exact Hload.
  rewrite Hrows. simpl. unfold finish, resolve. simpl.
  rewrite place_fixed_all_null.
  rewrite seeded_map, forallb_exact_seed, Hfs. reflexivity.
Qed.

(** ** Exact colours in the run with images *)

(** The loop over the exact entries leaves a valid slot alone, unless an
    exact entry is pinned there. *)
Lemma place_exact_all_keeps (m : color_mode_t) (fs : list palette_entry_t) :
  forall (fs' es es' : list palette_entry_t) (maxIndex maxIndex' : Z)
         (k : nat) (e : palette_entry_t),
    place_exact_all m fs es maxIndex = Ok (fs', es', maxIndex') ->
    length es = PALETTE_MAX_ENTRIES ->
    es !! k = Some e -> valid e = true ->
    (forall f, In f fs -> exact f = true -> index f <> k) ->
    es' !! k = Some e.
Proof.
  induction fs as [|f fs IH];
    intros fs' es es' maxIndex maxIndex' k e H Hlen Hk Hv Hfree.
  - inversion H; subst. exact Hk.
  - simpl in H. destruct (exact f) eqn:Hex; simpl in H; steps H;
      inversion H; subst; clear H.
    + destruct (place_exact_colors _ _ _ _ _ _ _ Hx Hlen) as (L & _ & _ & Hmove).
      destruct (place_exact_Ok _ _ _ _ _ _ _ Hx) as (_ & occ & Hocc & Hcase).
      assert (Hne : index f <> k) by (apply Hfree; [left; reflexivity | exact Hex]).
      eapply IH; [exact Hx0 | congruence | | exact Hv |].
      * destruct Hcase as [(_ & -> & _) | (Hval & j & Hfj & _ & -> & _)].
        -- rewrite list_lookup_insert_ne by exact Hne. exact Hk.
        -- rewrite list_lookup_insert_ne by exact Hne.
           destruct (Hmove occ Hocc Hval) as (j' & free & Hfj' & _ & Hj & Hinv & _).
           rewrite Hfj in Hfj'. inversion Hfj'; subst j'.
           rewrite list_lookup_insert_ne by congruence. exact Hk.
      * intros f' Hin. apply Hfree. right. exact Hin.
    + eapply IH; [exact Hx | exact Hlen | exact Hk | exact Hv |].
      intros f' Hin. apply Hfree. right. exact Hin.
Qed.

Lemma place_exact_all_fidelity (m : color_mode_t) (fs : list palette_entry_t) :
  forall (fs' es es' : list palette_entry_t) (maxIndex maxIndex' : Z),
    place_exact_all m fs es maxIndex = Ok (fs', es', maxIndex') ->
    length es = PALETTE_MAX_ENTRIES ->
    NoDup (map index (List.filter exact fs)) ->
    forall f, In f fs -> exact f = true ->
      es' !! index f = Some (exact_slot m f).
Proof.
  induction fs as [|f0 fs IH];
    intros fs' es es' maxIndex maxIndex' H Hlen Hnd f Hin Hf; [destruct Hin|].
  simpl in H, Hnd. destruct (exact f0) eqn:Hex; simpl in H; steps H;
    inversion H; subst; clear H.
  - destruct (place_exact_colors _ _ _ _ _ _ _ Hx Hlen) as (L & Hplaced & _ & _).
    destruct (place_exact_Ok _ _ _ _ _ _ _ Hx) as (-> & _).
    simpl in Hnd. apply NoDup_cons in Hnd as [Hfresh Hnd].
    destruct Hin as [->|Hin].
    + eapply place_exact_all_keeps;
        [exact Hx0 | congruence | exact Hplaced | reflexivity |].
      intros f' Hin' Hex' Heq. apply Hfresh.
      apply list_elem_of_In. rewrite <- Heq. apply in_map.
      apply filter_In. split; assumption.
    + eapply IH; [exact Hx0 | congruence | exact Hnd | exact Hin | exact Hf].
  - destruct Hin as [->|Hin]; [congruence|].
    eapply IH; [exact Hx | exact Hlen | exact Hnd | exact Hin | exact Hf].
Qed.

Lemma filter_exact_seed (m : color_mode_t) (fs : list palette_entry_t) :
  List.filter exact (map (seed m) fs) = List.filter exact fs.
Proof.
  induction fs as [|f fs IH]; [reflexivity|].
  simpl. unfold seed at 1 2. destruct (exact f) eqn:Ef.
  - rewrite Ef, IH. reflexivity.
  - simpl. rewrite Ef. exact IH.
Qed.

(** In the run with images the colour of every exact fixed entry, the
    pinned indices of the exact entries being distinct, is in the slot of
    its pinned index, converted, and the slot is valid. *)
Lemma exact_fidelity_with_images (palette : palette_t) :
  length (entries palette) = PALETTE_MAX_ENTRIES ->
  NoDup (map index (List.filter exact (fixedEntries palette))) ->
  out (palette_generate_with_images palette) = Success ->
  forall f, In f (fixedEntries palette) -> exact f = true ->
    entries (pal (palette_generate_with_images palette)) !! index f =
    Some (mk_entry (color_convert (color f) (mode palette)) (index f) true true).
Proof.
  intros Hlen Hnd Hout f Hin Hf.
  destruct (palette_generate_with_images_success _ Hout)
    as (lp & es0 & mi0 & t & fs' & es' & n & unused & Hstart & Hres & -> & _).
  simpl. unfold resolve in Hres. steps Hres. inversion Hres; subst. clear Hres.
  assert (L0 : length es0 = length (entries palette)).
  { destruct Hstart as [(_ & -> & _) | (l & _ & Hstore)]; [reflexivity|].
    destruct (store_quantized_spec _ _ _ _ _ _ _ Hstore) as (L & _). exact L. }
  pose proof (place_fixed_all_length _ _ _ _ _ _ Hx) as L1.
  rewrite (place_exact_all_fidelity _ _ _ _ _ _ _ Hx0) with (f := f).
  - unfold exact_slot, set_valid, set_color. simpl. rewrite Hf. reflexivity.
  - congruence.
  - rewrite seeded_map, filter_exact_seed. exact Hnd.
  - rewrite seeded_map. apply in_map_iff. exists f. split; [|exact Hin].
    unfold seed. rewrite Hf. reflexivity.
  - exact Hf.
Qed.

(** ** When [numEntries] stays within [maxEntries] *)

Lemma nvalid_colors (es : list palette_entry_t) :
  length (valid_colors es) = nvalid es.
Proof. unfold valid_colors, nvalid. apply length_map. Qed.

Lemma count_exact_length (fs : list palette_entry_t) :
  forall n, count_exact fs n = n + Z.of_nat (length (List.filter exact fs)).
Proof.
  induction fs as [|f fs IH]; intros n; simpl; [lia|].
  rewrite IH. destruct (exact f); simpl; lia.
Qed.

(** The scan stops at the latest after as many slots as are valid. *)
Lemma valid_prefix_le_nvalid (j : nat) :
  forall es : list palette_entry_t,
    (forall i, (i < j)%nat -> exists e, es !! i = Some e /\ valid e = true) ->
    (j <= nvalid es)%nat.
Proof.
  induction j as [|j IH]; intros es H; [lia|].
  destruct es as [|e es].
  - destruct (H 0%nat) as (e & He & _); [lia | discriminate He].
  - destruct (H 0%nat) as (e' & He' & Hv); [lia|].
    simpl in He'. inversion He'; subst e'.
    unfold nvalid. simpl. rewrite Hv. simpl.
    apply le_n_S. apply IH. intros i Hi. apply (H (S i)). lia.
Qed.

Lemma store_quantized_nvalid (m : color_mode_t) (l : list liq_color) :
  forall (i : nat) (es es' : list palette_entry_t) (maxIndex maxIndex' : Z),
    store_quantized m l i es maxIndex = Ok (es', maxIndex') ->
    (forall k e, (i <= k)%nat -> es !! k = Some e -> valid e = false) ->
    nvalid es' = (nvalid es + length l)%nat.
Proof.
  induction l as [|c l IH]; intros i es es' maxIndex maxIndex' H Hinv.
  - inversion H; subst. simpl. lia.
  - simpl in H. steps H. apply read_Ok in Hx.
    apply write_Ok in Hx0 as [Hlt ->].
    rewrite (IH _ _ _ _ _ H).
    + pose proof (valid_colors_insert es i x
                    (mk_entry (stored_color m c) (index x) (exact x) true) Hx) as P.
      unfold shown in P. rewrite (Hinv i x (le_n i) Hx) in P. simpl in P.
      rewrite app_nil_r in P. apply Permutation_length in P.
      simpl in P. rewrite !nvalid_colors in P.
      unfold stored_color in P. simpl. lia.
    + intros k e Hk He. rewrite list_lookup_insert_ne in He by lia.
      apply (Hinv k e); [lia | exact He].
Qed.

Lemma In_lookup (es : list palette_entry_t) (e : palette_entry_t) :
  In e es <-> exists k, es !! k = Some e.
Proof. rewrite <- list_elem_of_In. apply list_elem_of_lookup. Qed.

Lemma store_quantized_stale (m : color_mode_t) (l : list liq_color)
    (es es' : list palette_entry_t) (maxIndex maxIndex' : Z) :
  store_quantized m l 0 es maxIndex = Ok (es', maxIndex') ->
  stale_from es es'.
Proof.
  intros H e He Hv.
  destruct (store_quantized_spec _ _ _ _ _ _ _ H) as (_ & _ & Hout & Hin & _).
  apply In_lookup in He as [k Hk].
  destruct (Nat.lt_ge_cases k (length l)) as [Hlt|Hge].
  - destruct (lookup_lt_is_Some_2 l k Hlt) as [c Hc].
    destruct (Hin k c Hc) as (e' & He' & Hv' & _). simpl in He'. congruence.
  - rewrite Hout in Hk by (simpl; lia). exists e.
    split; [apply In_lookup; exists k; exact Hk | reflexivity].
Qed.

Lemma place_fixed_bounded (l : list liq_color) (f : palette_entry_t)
    (initial es es' : list palette_entry_t) (maxIndex maxIndex' M : Z) :
  place_fixed (Some l) f es maxIndex = Ok (es', maxIndex') ->
  (exact f = false -> unmatched f initial /\ Z.of_nat (index f) < M) ->
  stale_from initial es ->
  maxIndex < M ->
  nvalid es' = nvalid es /\ stale_from initial es' /\ maxIndex' < M.
Proof.
  intros H Hf S Hm. unfold place_fixed in H.
  destruct (exact f); [inversion H; subst; repeat split; assumption|].
  destruct (Hf eq_refl) as [Hno Hidx].
  steps H. destruct x as [j|]; [|inversion H; subst; repeat split; assumption].
  destruct (find_color_found _ _ _ _ _ Hx) as (_ & t & Ht & Hmatch).
  destruct (proj1 (swap_into_place_Ok _ _ _ _ _ _) H)
    as (t' & d & Ht' & Hd & Hes & Hmi).
  rewrite Ht in Ht'. inversion Ht'; subst t'.
  assert (Hv : valid t = true).
  { destruct (valid t) eqn:Hv; [reflexivity|]. exfalso.
    destruct (S t) as (e0 & He0 & Hc);
      [apply In_lookup; exists j; exact Ht | exact Hv |].
    specialize (Hno e0 He0). rewrite <- Hc in Hno. congruence. }
  destruct (swap_into_place_colors _ _ _ _ _ _ _ _ H Ht Hd) as (_ & _ & _ & P).
  unfold shown in P. rewrite Hv in P. apply Permutation_length in P.
  rewrite length_app in P. simpl in P. rewrite !nvalid_colors in P.
  split; [lia|]. split; [|subst maxIndex'; rewrite raise_to_max; lia].
  subst es'. intros e He Hinv. apply In_lookup in He as [k Hk].
  destruct (decide (k = index f)) as [->|Hki].
  - rewrite list_lookup_insert_eq in Hk
      by (rewrite length_insert; eapply lookup_lt_Some; exact Hd).
    inversion Hk; subst e. discriminate Hinv.
  - rewrite list_lookup_insert_ne in Hk by congruence.
    destruct (decide (k = j)) as [->|Hkj].
    + rewrite list_lookup_insert_eq in Hk by (eapply lookup_lt_Some; exact Ht).
      inversion Hk; subst e.
      apply S; [apply In_lookup; exists (index f); exact Hd | exact Hinv].
    + rewrite list_lookup_insert_ne in Hk by congruence.
      apply S; [apply In_lookup; exists k; exact Hk | exact Hinv].
Qed.

Lemma place_fixed_all_bounded (l : list liq_color)
    (initial : list palette_entry_t) (M : Z) (fs : list palette_entry_t) :
  forall (es es' : list palette_entry_t) (maxIndex maxIndex' : Z),
    place_fixed_all (Some l) fs es maxIndex = Ok (es', maxIndex') ->
    Forall (fun f => exact f = false ->
                     unmatched f initial /\ Z.of_nat (index f) < M) fs ->
    stale_from initial es ->
    maxIndex < M ->
    nvalid es' = nvalid es /\ maxIndex' < M.
Proof.
  induction fs as [|f fs IH]; intros es es' maxIndex maxIndex' H Hfs S Hm.
  - inversion H; subst. split; [reflexivity | exact Hm].
  - simpl in H. steps H. inversion Hfs as [|? ? Hf Hrest]; subst.
    destruct (place_fixed_bounded _ _ _ _ _ _ _ _ Hx Hf S Hm) as (N1 & S1 & M1).
    destruct (IH _ _ _ _ H Hrest S1 M1) as (N2 & M2).
    split; [congruence | exact M2].
Qed.

Lemma place_exact_all_bounded (m : color_mode_t) (M : Z)
    (fs : list palette_entry_t) :
  forall (fs' es es' : list palette_entry_t) (maxIndex maxIndex' : Z),
    place_exact_all m fs es maxIndex = Ok (fs', es', maxIndex') ->
    length es = PALETTE_MAX_ENTRIES ->
    Forall (fun f => Z.of_nat (index f) < M) fs ->
    Z.of_nat (nvalid es) + Z.of_nat (length (List.filter exact fs)) <= M ->
    maxIndex < M ->
    maxIndex' < M.
Proof.
  induction fs as [|f fs IH];
    intros fs' es es' maxIndex maxIndex' H Hlen Hfs Hroom Hm.
  - inversion H; subst. exact Hm.
  - inversion Hfs as [|? ? Hf Hrest]; subst.
    simpl in H, Hroom. destruct (exact f) eqn:Hex; simpl in H, Hroom; steps H;
      inversion H; subst; clear H.
    + destruct (place_exact_colors _ _ _ _ _ _ _ Hx Hlen) as (L & _ & P & Hmove).
      destruct (place_exact_Ok _ _ _ _ _ _ _ Hx) as (_ & occ & Hocc & Hcase).
      apply Permutation_length in P. simpl in P. rewrite !nvalid_colors in P.
      eapply IH; [exact Hx0 | congruence | exact Hrest | lia |].
      destruct Hcase as [(_ & _ & ->) | (Hval & j & Hfj & _ & _ & ->)].
      * rewrite raise_to_max. lia.
      * destruct (Hmove occ Hocc Hval) as (j' & free & Hfj' & Hbelow & _).
        rewrite Hfj in Hfj'. inversion Hfj'; subst j'.
        pose proof (valid_prefix_le_nvalid j es Hbelow) as Hj.
        rewrite !raise_to_max. lia.
    + eapply IH; [exact Hx | exact Hlen | exact Hrest | lia | exact Hm].
Qed.

Lemma nvalid_all_invalid (es : list palette_entry_t) :
  Forall (fun e => valid e = false) es -> nvalid es = 0%nat.
Proof.
  unfold nvalid. induction 1 as [|e es He _ IH]; [reflexivity|].
  simpl. rewrite He. exact IH.
Qed.

(** *** Runs that stay within the table *)

Lemma store_quantized_total (m : color_mode_t) (l : list liq_color) :
  forall (i : nat) (es : list palette_entry_t) (maxIndex : Z),
    (i + length l <= length es)%nat ->
    exists es' maxIndex', store_quantized m l i es maxIndex = Ok (es', maxIndex').
Proof.
  induction l as [|c l IH]; intros i es maxIndex Hlen; simpl.
  - eexists _, _. reflexivity.
  - simpl in Hlen. destruct (read_lt es i) as (e & Hr & _); [lia|].
    rewrite Hr, ok_bind, write_lt by lia. rewrite ok_bind.
    apply IH. rewrite length_insert. lia.
Qed.

Lemma count_unused_total (es : list palette_entry_t) (n : nat) :
  forall (i : nat) (unused : Z),
    (i + n <= length es)%nat -> exists u, count_unused es i n unused = Ok u.
Proof.
  induction n as [|n IH]; intros i unused Hlen; simpl; [eexists; reflexivity|].
  destruct (read_lt es i) as (e & Hr & _); [lia|].
  rewrite Hr, ok_bind. apply IH. lia.
Qed.

Lemma find_color_total (fixedEntry : palette_entry_t)
    (es : list palette_entry_t) (n : nat) :
  forall j : nat,
    (j + n <= length es)%nat -> exists found, find_color fixedEntry es j n = Ok found.
Proof.
  induction n as [|n IH]; intros j Hlen; simpl; [eexists; reflexivity|].
  destruct (read_lt es j) as (e & Hr & _); [lia|].
  rewrite Hr, ok_bind.
  destruct (same_rgb _ _); [eexists; reflexivity | apply IH; lia].
Qed.

(** The fixed entries that are not exact. *)
Lemma nonexact_length (fs : list palette_entry_t) :
  (length (List.filter exact fs) +
   length (List.filter (fun f => negb (exact f)) fs) = length fs)%nat.
Proof.
  induction fs as [|f fs IH]; [reflexivity|].
  simpl. destruct (exact f); simpl; lia.
Qed.

Lemma place_fixed_in_table (l : list liq_color) (f : palette_entry_t)
    (es : list palette_entry_t) (maxIndex : Z) :
  (length l <= length es)%nat ->
  (index f < length es)%nat ->
  exists es' maxIndex',
    place_fixed (Some l) f es maxIndex = Ok (es', maxIndex') /\
    length es' = length es /\
    (nvalid es' <= nvalid es + (if exact f then 0 else 1))%nat.
Proof.
  intros Hl Hidx. unfold place_fixed. destruct (exact f).
  - exists es, maxIndex. split; [reflexivity|]. split; [reflexivity | lia].
  - destruct (find_color_total f es (length l) 0) as [found Hfound]; [lia|].
    rewrite Hfound, ok_bind. destruct found as [j|].
    + destruct (find_color_found _ _ _ _ _ Hfound) as (_ & tmp & Htmp & _).
      destruct (lookup_lt_is_Some_2 es (index f) Hidx) as [displaced Hd].
      assert (Hswap : swap_into_place f j es maxIndex =
                Ok (<[index f := set_valid tmp true]> (<[j := displaced]> es),
                    raise_to maxIndex (index f))).
      { apply swap_into_place_Ok. exists tmp, displaced. auto. }
      eexists _, _. split; [exact Hswap|].
      destruct (swap_into_place_colors _ _ _ _ _ _ _ _ Hswap Htmp Hd)
        as (L & _ & _ & P).
      split; [exact L|].
      apply Permutation_length in P. rewrite length_app in P. simpl in P.
      rewrite !nvalid_colors in P. lia.
    + exists es, maxIndex. split; [reflexivity|]. split; [reflexivity | lia].
Qed.

Lemma place_fixed_all_in_table (l : list liq_color) (fs : list palette_entry_t) :
  forall (es : list palette_entry_t) (maxIndex : Z),
    (length l <= length es)%nat ->
    Forall (fun f => (index f < length es)%nat) fs ->
    exists es' maxIndex',
      place_fixed_all (Some l) fs es maxIndex = Ok (es', maxIndex') /\
      length es' = length es /\
      (nvalid es' <=
       nvalid es + length (List.filter (fun f => negb (exact f)) fs))%nat.
Proof.
  induction fs as [|f fs IH]; intros es maxIndex Hl Hidx.
  - exists es, maxIndex. split; [reflexivity|]. split; [reflexivity | simpl; lia].
  - apply Forall_cons in Hidx as [Hf Hidx].
    destruct (place_fixed_in_table l f es maxIndex Hl Hf)
      as (es1 & mi1 & H1 & L1 & N1).
    destruct (IH es1 mi1) as (es' & mi' & H2 & L2 & N2);
      [lia | rewrite L1; exact Hidx |].
    exists es', mi'. simpl. rewrite H1, ok_bind. split; [exact H2|].
    split; [lia|]. destruct (exact f); simpl in *; lia.
Qed.

Lemma free_slot_exists (es : list palette_entry_t) :
  (nvalid es < length es)%nat ->
  exists k e, es !! k = Some e /\ valid e = false.
Proof.
  unfold nvalid. induction es as [|e es IH]; simpl; [lia|].
  destruct (valid e) eqn:E; simpl; intros H.
  - destruct IH as (k & e' & Hk & Hv); [lia|].
    exists (S k), e'. split; [exact Hk | exact Hv].
  - exists 0%nat, e. split; [reflexivity | exact E].
Qed.

Lemma place_exact_in_table (m : color_mode_t) (f : palette_entry_t)
    (es : list palette_entry_t) (maxIndex : Z) :
  length es = PALETTE_MAX_ENTRIES ->
  (index f < PALETTE_MAX_ENTRIES)%nat ->
  (nvalid es < PALETTE_MAX_ENTRIES)%nat ->
  exists f' es' maxIndex',
    place_exact m f es maxIndex = Ok (f', es', maxIndex') /\
    length es' = PALETTE_MAX_ENTRIES /\
    nvalid es' = S (nvalid es).
Proof.
  intros Hlen Hidx Hroom.
  destruct (place_exact_total m f es maxIndex Hlen Hidx) as [[[f' es'] mi'] H].
  { apply free_slot_exists. lia. }
  exists f', es', mi'. split; [exact H|].
  destruct (place_exact_colors _ _ _ _ _ _ _ H Hlen) as (L & _ & P & _).
  split; [congruence|].
  apply Permutation_length in P. simpl in P. rewrite !nvalid_colors in P.
  exact P.
Qed.

Lemma place_exact_all_in_table (m : color_mode_t) (fs : list palette_entry_t) :
  forall (es : list palette_entry_t) (maxIndex : Z),
    length es = PALETTE_MAX_ENTRIES ->
    Forall (fun f => (index f < PALETTE_MAX_ENTRIES)%nat) fs ->
    (nvalid es + length (List.filter exact fs) <= PALETTE_MAX_ENTRIES)%nat ->
    exists fs' es' maxIndex',
      place_exact_all m fs es maxIndex = Ok (fs', es', maxIndex').
Proof.
  induction fs as [|f fs IH]; intros es maxIndex Hlen Hidx Hroom.
  - eexists _, _, _. reflexivity.
  - apply Forall_cons in Hidx as [Hf Hidx]. simpl in Hroom |- *.
    destruct (exact f); simpl in Hroom |- *.
    + destruct (place_exact_in_table m f es maxIndex Hlen Hf)
        as (f' & es1 & mi1 & H1 & L1 & N1); [lia|].
      rewrite H1, ok_bind.
      destruct (IH es1 mi1 L1 Hidx) as (fs' & es' & mi' & H2); [lia|].
      rewrite H2, ok_bind. eexists _, _, _. reflexivity.
    + destruct (IH es maxIndex Hlen Hidx Hroom) as (fs' & es' & mi' & H2).
      rewrite H2, ok_bind. eexists _, _, _. reflexivity.
Qed.

(** With every pinned index inside the table, and room in the table for
    the exact entries once the entries that are not exact have had their
    turn, the resolution reads and writes inside the table. *)
Lemma resolve_in_table (m : color_mode_t) (liqpalette : option (list liq_color))
    (fs es : list palette_entry_t) (maxIndex : Z) :
  length es = PALETTE_MAX_ENTRIES ->
  Forall (fun f => (index f < PALETTE_MAX_ENTRIES)%nat) fs ->
  (forall es1 mi1,
     place_fixed_all liqpalette fs es maxIndex = Ok (es1, mi1) ->
     (nvalid es1 + length (List.filter exact fs) <= PALETTE_MAX_ENTRIES)%nat) ->
  tracked es maxIndex ->
  (forall l, liqpalette = Some l ->
     (length l <= PALETTE_MAX_ENTRIES)%nat /\ dense (length l) es maxIndex) ->
  resolve m liqpalette fs es maxIndex <> Fault OutOfBounds.
Proof.
  intros Hlen Hidx Hroom T Hlp. unfold resolve.
  assert (Hfixed : (exists es1 mi1,
            place_fixed_all liqpalette fs es maxIndex = Ok (es1, mi1) /\
            length es1 = PALETTE_MAX_ENTRIES /\
            tracked es1 mi1) \/
          place_fixed_all liqpalette fs es maxIndex = Fault NullDereference).
  { destruct liqpalette as [l|].
    - destruct (Hlp l eq_refl) as [Hl D].
      destruct (place_fixed_all_in_table l fs es maxIndex)
        as (es1 & mi1 & H1 & L1 & _);
        [lia | rewrite Hlen; exact Hidx |].
      left. exists es1, mi1. split; [exact H1|]. split; [congruence|].
      exact (place_fixed_all_tracked _ _ _ _ _ _ H1 T D).
    - rewrite place_fixed_all_null. destruct (forallb exact fs) eqn:Hex.
      + left. exists es, maxIndex. split; [reflexivity|]. split; [exact Hlen|].
        exact T.
      + right. reflexivity. }
  destruct Hfixed as [(es1 & mi1 & H1 & L1 & T1) | H1];
    [|rewrite H1; simpl; discriminate].
  pose proof (Hroom es1 mi1 H1) as N1.
  rewrite H1, ok_bind.
  destruct (place_exact_all_in_table m fs es1 mi1 L1 Hidx N1)
    as (fs' & es2 & mi2 & H2).
  rewrite H2, ok_bind.
  pose proof (place_exact_all_tracked _ _ _ _ _ _ _ H2 T1) as ((Hb & Hub) & _).
  pose proof (place_exact_all_length _ _ _ _ _ _ _ H2) as L2.
  destruct (count_unused_total es2 (Z.to_nat (mi2 + 1)) 0 0) as [u Hu]; [lia|].
  rewrite Hu. simpl. discriminate.
Qed.

(** A run of [palette_generate] on a fresh table of [PALETTE_MAX_ENTRIES]
    slots, with every pinned index inside the table, a quantizer that keeps
    to its ceiling, and room in the table, stays within the table. *)
Lemma palette_generate_in_table (palette : palette_t) (converts : list convert_t) :
  reserved (name palette) = None ->
  length (entries palette) = PALETTE_MAX_ENTRIES ->
  Forall (fun e => valid e = false) (entries palette) ->
  Forall (fun f => (index f < PALETTE_MAX_ENTRIES)%nat) (fixedEntries palette) ->
  (forall h l,
     liq_histogram_quantize h
       (mk_attr (quantizeSpeed palette) (capacity palette)) = Some l ->
     Z.of_nat (length l) <= capacity palette) ->
  has_room palette ->
  out (palette_generate palette converts) <> Undefined OutOfBounds.
Proof.
  intros Hname Hlen Hinv Hidx Hliq Hroom.
  rewrite (palette_generate_custom _ _ Hname).
  destruct (collect_images palette converts) as (l & Hp & _).
  destruct (collect palette converts) as [ret palette1].
  simpl in Hp. subst palette1.
  destruct (negb (ret =? 0)); [discriminate|].
  destruct (maxEntries (set_images palette l) <? numFixedEntries (set_images palette l))
    eqn:Hcap; [discriminate|].
  apply Z.ltb_ge in Hcap. unfold numFixedEntries in Hcap. simpl in Hcap.
  unfold has_room in Hroom.
  set (fs := fixedEntries palette) in *.
  set (M := maxEntries palette) in *.
  pose proof (nonexact_length fs) as Hsplit.
  assert (HM : M <= Z.of_nat PALETTE_MAX_ENTRIES)
    by (destruct Hroom as [Hr | [Hr _]]; lia).
  assert (Hc : capacity palette = M - Z.of_nat (length (List.filter exact fs))).
  { unfold capacity. fold fs M. rewrite count_exact_length.
    rewrite int_sub_in_range by (unfold INT_MIN; lia). lia. }
  assert (Hseeded : seeded (set_images palette l) = map (seed (mode palette)) fs)
    by exact (seeded_map (set_images palette l)).
  set (sfs := seeded (set_images palette l)) in *.
  assert (Hidx' : Forall (fun f => (index f < PALETTE_MAX_ENTRIES)%nat) sfs).
  { rewrite Hseeded. apply List.Forall_forall. intros f Hf.
    apply in_map_iff in Hf as (f0 & <- & Hf0).
    rewrite List.Forall_forall in Hidx. specialize (Hidx f0 Hf0).
    unfold seed. destruct (exact f0); exact Hidx. }
  assert (Hex : length (List.filter exact sfs) = length (List.filter exact fs))
    by (rewrite Hseeded, filter_exact_seed; reflexivity).
  assert (Hnon : length (List.filter (fun f => negb (exact f)) sfs) =
                 length (List.filter (fun f => negb (exact f)) fs)).
  { pose proof (nonexact_length sfs) as H1.
    assert (Hl : length sfs = length fs) by (rewrite Hseeded; apply length_map).
    lia. }
  (* the room left once the entries that are not exact have had their turn *)
  assert (Hphase : forall lp es0 mi0 (n0 : nat),
            length es0 = PALETTE_MAX_ENTRIES ->
            nvalid es0 = n0 ->
            Z.of_nat n0 + Z.of_nat (length (List.filter exact fs)) <= M ->
            mi0 < Z.of_nat PALETTE_MAX_ENTRIES ->
            stale_from (entries palette) es0 ->
            (forall lq, lp = Some lq -> (length lq <= PALETTE_MAX_ENTRIES)%nat) ->
            forall es1 mi1,
              place_fixed_all lp sfs es0 mi0 = Ok (es1, mi1) ->
              (nvalid es1 + length (List.filter exact sfs)
               <= PALETTE_MAX_ENTRIES)%nat).
  { intros lp es0 mi0 n0 L0 N0 Hfit Hmi Hst Hlq es1 mi1 H1. rewrite Hex.
    destruct lp as [lq|].
    - specialize (Hlq lq eq_refl).
      destruct Hroom as [Hr | [_ Hstale]].
      + destruct (place_fixed_all_in_table lq sfs es0 mi0)
          as (es1' & mi1' & H1' & _ & N1);
          [lia | rewrite L0; exact Hidx' |].
        rewrite H1 in H1'. inversion H1'; subst es1' mi1'.
        rewrite Hnon in N1. unfold PALETTE_MAX_ENTRIES in *. lia.
      + assert (Hstale' : Forall (fun f => exact f = false ->
                             unmatched f (entries palette) /\
                             Z.of_nat (index f) < Z.of_nat PALETTE_MAX_ENTRIES)
                            sfs).
        { rewrite Hseeded. apply List.Forall_forall. intros f Hf.
          apply in_map_iff in Hf as (f0 & <- & Hf0).
          rewrite List.Forall_forall in Hidx, Hstale.
          specialize (Hidx f0 Hf0). specialize (Hstale f0 Hf0).
          intros Hx0. assert (Hex0 : exact f0 = false).
          { unfold seed in Hx0. destruct (exact f0) eqn:E0; [congruence | reflexivity]. }
          split; [exact (Hstale Hex0)|].
          unfold seed. rewrite Hex0. simpl. lia. }
        destruct (place_fixed_all_bounded _ _ _ _ _ _ _ _ H1 Hstale' Hst Hmi)
          as (N1 & _).
        rewrite N1, N0. unfold PALETTE_MAX_ENTRIES in *. lia.
    - rewrite place_fixed_all_null in H1.
      destruct (forallb exact sfs); inversion H1; subst.
      unfold PALETTE_MAX_ENTRIES in *. lia. }
  assert (Hfresh : stale_from (entries palette) (entries palette)).
  { intros e He _. exists e. split; [exact He | reflexivity]. }
  destruct (0 <? numImages (set_images palette l)).
  - rewrite palette_generate_with_images_unfold. fold sfs.
    destruct (read_images _ _ _ _ _ _ _) as [[[hist nq]|] t]; [|discriminate].
    destruct nq.
    + unfold quantized.
      destruct (liq_histogram_quantize hist _) as [lq|] eqn:Hans; [|discriminate].
      specialize (Hliq _ _ Hans).
      change (mode (set_fixedEntries (set_images palette l) sfs))
        with (mode palette).
      destruct (store_quantized_total (mode palette) lq 0 (entries palette) (-1))
        as (es0 & mi0 & Hst); [unfold PALETTE_MAX_ENTRIES in *; lia|].
      change (entries (set_images palette l)) with (entries palette).
      rewrite Hst.
      destruct (start_tracked (set_images palette l) (Some lq) es0 mi0 Hinv)
        as (L0 & T0 & D0); [right; exists lq; split; [reflexivity | exact Hst]|].
      simpl in L0.
      pose proof (store_quantized_nvalid _ _ _ _ _ _ _ Hst) as Hn.
      rewrite (nvalid_all_invalid _ Hinv) in Hn.
      specialize (Hn ltac:(intros k e _ He;
                           rewrite List.Forall_forall in Hinv;
                           apply Hinv, In_lookup; exists k; exact He)).
      simpl in Hn.
      pose proof (store_quantized_stale _ _ _ _ _ _ Hst) as Hstale0.
      destruct T0 as ((Hlo & Hhi) & T0').
      unfold finish.
      change (fixedEntries (set_fixedEntries (set_images palette l) sfs))
        with sfs.
      change (mode (set_fixedEntries (set_images palette l) sfs))
        with (mode palette).
      pose proof (resolve_in_table (mode palette) (Some lq) sfs es0 mi0) as Hres.
      destruct (resolve _ _ _ _ _) as [[[[fs' es'] n] u]|flt]; [discriminate|].
      simpl. intros E. inversion E; subst flt. apply Hres; try reflexivity.
      * congruence.
      * exact Hidx'.
      * apply (Hphase (Some lq) es0 mi0 (length lq)); try assumption.
        -- congruence.
        -- lia.
        -- rewrite L0, Hlen in Hhi. exact Hhi.
        -- intros lq' E'. inversion E'; subst lq'.
           unfold PALETTE_MAX_ENTRIES in *. lia.
      * split; [split; assumption | exact T0'].
      * intros l' Hl'. inversion Hl'; subst l'.
        split; [unfold PALETTE_MAX_ENTRIES in *; lia | exact (D0 lq eq_refl)].
    + unfold finish.
      change (fixedEntries (set_fixedEntries (set_images palette l) sfs))
        with sfs.
      change (mode (set_fixedEntries (set_images palette l) sfs))
        with (mode palette).
      change (entries (set_fixedEntries (set_images palette l) sfs))
        with (entries palette).
      destruct (start_tracked (set_images palette l) None (entries palette) (-1)
                  Hinv) as (_ & T0 & _); [left; auto|].
      pose proof (resolve_in_table (mode palette) None sfs (entries palette) (-1))
        as Hres.
      destruct (resolve _ _ _ _ _) as [[[[fs' es'] n] u]|flt]; [discriminate|].
      simpl. intros E. inversion E; subst flt. apply Hres; try reflexivity.
      * exact Hlen.
      * exact Hidx'.
      * apply (Hphase None (entries palette) (-1) 0%nat); try assumption.
        -- exact (nvalid_all_invalid _ Hinv).
        -- pose proof (List.filter_length_le exact fs). lia.
        -- unfold PALETTE_MAX_ENTRIES. lia.
        -- intros lq' E'. discriminate E'.
      * exact T0.
      * intros l' Hl'. discriminate Hl'.
  - destruct (numFixedEntries (set_images palette l) =? 0); [discriminate|].
    change (fixedEntries (set_images palette l)) with fs.
    change (entries (set_images palette l)) with (entries palette).
    rewrite copy_fixed_spec by (rewrite Hlen; exact Hidx).
    discriminate.
Qed.

(** C5, as amended.  Take a palette with a name that is not builtin and
    with images, on a fresh table: [PALETTE_MAX_ENTRIES] slots, none of
    them valid, every pinned index inside the table, a quantizer that
    returns no more colours than the ceiling it was given, and room in the
    table ([has_room]): for [maxEntries] colours and the fixed entries that
    are not exact besides, or for [maxEntries] colours when no fixed colour
    that is not exact has the red, green and blue of a colour the table
    held before the run.  No run of [palette_generate] on it reads or writes outside
    the table, and after a run that returns 0: every valid slot lies below
    [numEntries], the slot [numEntries - 1] is valid when [numEntries] is
    positive, and [numEntries] is at most the number of slots of the table;
    the slots below [numEntries] that are not valid enter the run through
    the count of the final message only.  [numEntries] is within
    [maxEntries] when, besides, every pinned index is below [maxEntries]
    and no fixed colour that is not exact has the red, green and blue of a
    colour the table held before the run; the code itself compares neither
    a pinned index nor the slot of a relocation with [maxEntries]. *)
Theorem index_hole_invariant (palette : palette_t) (converts : list convert_t) :
  reserved (name palette) = None ->
  images (snd (collect palette converts)) <> [] ->
  length (entries palette) = PALETTE_MAX_ENTRIES ->
  Forall (fun e => valid e = false) (entries palette) ->
  Forall (fun f => (index f < PALETTE_MAX_ENTRIES)%nat) (fixedEntries palette) ->
  (forall h l,
     liq_histogram_quantize h
       (mk_attr (quantizeSpeed palette) (capacity palette)) = Some l ->
     Z.of_nat (length l) <= capacity palette) ->
  has_room palette ->
  let R := palette_generate palette converts in
  out R <> Undefined OutOfBounds /\
  (out R = Success ->
   let n := numEntries (pal R) in
   let holes :=
     Z.of_nat (length (List.filter (fun e => negb (valid e))
                         (take (Z.to_nat n) (entries (pal R))))) in
   0 <= n <= Z.of_nat PALETTE_MAX_ENTRIES /\
   length (entries (pal R)) = PALETTE_MAX_ENTRIES /\
   (forall k e, entries (pal R) !! k = Some e -> valid e = true ->
      Z.of_nat k < n) /\
   (0 < n ->
    exists e, entries (pal R) !! Z.to_nat (n - 1) = Some e /\ valid e = true) /\
   (exists t p,
      trace R =
      t ++ [generated_info n (Z.of_nat PALETTE_MAX_ENTRIES - n + holes);
            liq_result_destroy p; liq_histogram_destroy; liq_attr_destroy]) /\
   (Forall (fun f => Z.of_nat (index f) < maxEntries palette)
      (fixedEntries palette) ->
    Forall (fun f => exact f = false ->
                     unmatched (seed (mode palette) f) (entries palette))
      (fixedEntries palette) ->
    n <= maxEntries palette)).
Proof.
  intros Hname Himg Hlen Hinv Hpin Hliq Hroom R.
  split; [exact (palette_generate_in_table palette converts Hname Hlen Hinv
                   Hpin Hliq Hroom)|].
  subst R.
  rewrite (palette_generate_custom _ _ Hname).
  destruct (collect_images palette converts) as (l & Hp & _).
  destruct (collect palette converts) as [ret palette1].
  simpl in Hp, Himg. subst palette1. simpl in Himg.
  destruct (negb (ret =? 0)); [intros H; discriminate H|].
  destruct (maxEntries (set_images palette l) <? numFixedEntries (set_images palette l))
    eqn:Hcap; [intros H; discriminate H|].
  apply Z.ltb_ge in Hcap. unfold numFixedEntries in Hcap. simpl in Hcap.
  assert (E : (0 <? numImages (set_images palette l)) = true).
  { apply Z.ltb_lt. unfold numImages. simpl. destruct l; [congruence | simpl; lia]. }
  rewrite E. intros Hout.
  destruct (palette_generate_with_images_success _ Hout)
    as (lp & es0 & mi0 & t & fs' & es' & n & unused & Hstart & Hres & -> & Hq).
  destruct (start_tracked (set_images palette l) lp es0 mi0 Hinv Hstart)
    as (L0 & T0 & D0).
  destruct (resolve_tracked _ _ _ _ _ _ _ _ _ Hres T0 D0) as (L & T & Hu).
  destruct T as (Hb & Habove & Hat).
  simpl in L0. simpl.
  split; [rewrite <- Hlen, <- L0, <- L; lia|]. split; [congruence|].
  split; [|split; [|split]].
  - intros k e Hk Hv. specialize (Habove k e Hk Hv). lia.
  - intros Hpos. apply Hat. lia.
  - exists t, (bool_decide (is_Some lp)). rewrite Hu. reflexivity.
  - intros Hidx Hstale.
    set (M := maxEntries palette) in *.
    set (fs := fixedEntries palette) in *.
    assert (Hseeded : seeded (set_images palette l) = map (seed (mode palette)) fs)
      by exact (seeded_map (set_images palette l)).
    assert (Hexact : (length (List.filter exact (seeded (set_images palette l)))
                      <= length fs)%nat).
    { rewrite Hseeded, filter_exact_seed. apply List.filter_length_le. }
    assert (Hidx' : Forall (fun f => Z.of_nat (index f) < M)
                      (seeded (set_images palette l))).
    { rewrite Hseeded. apply List.Forall_forall. intros f Hf.
      apply in_map_iff in Hf as (f0 & <- & Hf0).
      rewrite List.Forall_forall in Hidx. specialize (Hidx f0 Hf0).
      unfold seed. destruct (exact f0); exact Hidx. }
    assert (Hstale' : Forall (fun f => exact f = false ->
                         unmatched f (entries palette) /\ Z.of_nat (index f) < M)
                        (seeded (set_images palette l))).
    { rewrite Hseeded. apply List.Forall_forall. intros f Hf.
      apply in_map_iff in Hf as (f0 & <- & Hf0).
      rewrite List.Forall_forall in Hidx, Hstale.
      specialize (Hidx f0 Hf0). specialize (Hstale f0 Hf0).
      intros Hex. assert (Hex0 : exact f0 = false).
      { unfold seed in Hex. destruct (exact f0) eqn:E0; [congruence | reflexivity]. }
      split; [exact (Hstale Hex0)|].
      unfold seed. rewrite Hex0. exact Hidx. }
    unfold resolve in Hres. steps Hres. inversion Hres; subst. clear Hres.
    rename u into es1, v into mi1, v0 into mi2.
    assert (Hcount : count_exact fs 0 =
              Z.of_nat (length (List.filter exact (seeded (set_images palette l))))).
    { rewrite count_exact_length, Hseeded, filter_exact_seed. lia. }
    assert (Hphase : length es1 = PALETTE_MAX_ENTRIES /\
                     Z.of_nat (nvalid es1) + count_exact fs 0 <= M /\ mi1 < M).
    { destruct Hstart as [(-> & -> & ->) | (l0 & -> & Hstore)].
      - rewrite place_fixed_all_null in Hx.
        destruct (forallb exact _); inversion Hx; subst.
        rewrite (nvalid_all_invalid _ Hinv). split; [exact Hlen|]. lia.
      - destruct (Hq l0 eq_refl) as (hist & Hans).
        specialize (Hliq _ _ Hans).
        unfold capacity in Hliq. fold M fs in Hliq.
        rewrite int_sub_in_range in Hliq by (unfold INT_MIN; lia).
        pose proof (store_quantized_nvalid _ _ _ _ _ _ _ Hstore) as Hn.
        simpl in Hn. rewrite (nvalid_all_invalid _ Hinv) in Hn.
        specialize (Hn ltac:(intros k e _ He;
                             rewrite List.Forall_forall in Hinv;
                             apply Hinv, In_lookup; exists k; exact He)).
        pose proof (store_quantized_stale _ _ _ _ _ _ Hstore) as Hst.
        destruct (store_quantized_spec _ _ _ _ _ _ _ Hstore) as (_ & _ & _ & _ & Hmi).
        assert (Hmi0 : mi0 < M).
        { subst mi0. destruct l0; simpl length in *; lia. }
        destruct (place_fixed_all_bounded _ _ _ _ _ _ _ _ Hx Hstale' Hst Hmi0)
          as (N1 & M1).
        split; [|split; [|exact M1]].
        + rewrite (place_fixed_all_length _ _ _ _ _ _ Hx). congruence.
        + rewrite N1, Hn. simpl. lia. }
    destruct Hphase as (L1 & Hroom1 & Hm1).
    pose proof (place_exact_all_bounded _ M _ _ _ _ _ _ Hx0 L1 Hidx'
                  ltac:(lia) Hm1).
    lia.
Qed.

(** ** What reaches the quantizer *)

Lemma survivors_seeded (m : color_mode_t) (fs : list palette_entry_t)
    (data : list liq_color) :
  survivors (map (seed m) fs) data = survivors fs data.
Proof.
  unfold survivors. induction data as [|px data IH]; simpl; [reflexivity|].
  rewrite is_exact_color_seeded, IH. reflexivity.
Qed.

Lemma image_events_rows (fs : list palette_entry_t) (m : color_mode_t)
    (l : list image_t) (row : list liq_color) :
  In (liq_histogram_add_image_call row) (concat (map (image_events fs m) l)) ->
  exists i data,
    In i l /\ image_load i = Some data /\
    row = map (convert_pixel m) (survivors fs data).
Proof.
  induction l as [|x l IH]; simpl; [tauto|].
  rewrite in_app_iff. intros [H|H].
  - unfold image_events, submitted_row in H.
    destruct (image_load x) as [data|] eqn:Hx.
    + destruct (survivors fs data) as [|px s] eqn:Hs; simpl in H.
      * destruct H as [H|[H|[]]]; discriminate H.
      * destruct H as [H|[H|[H|[]]]]; try discriminate H.
        inversion H. exists x, data.
        split; [left; reflexivity|]. split; [exact Hx|]. rewrite Hs. reflexivity.
    + simpl in H. destruct H as [H|[H|[]]]; discriminate H.
  - destruct (IH H) as (i & data & Hi & Hd & Hrow).
    exists i, data. split; [right; exact Hi | split; assumption].
Qed.

Lemma quantized_trace_events (palette1 : palette_t) (es : list palette_entry_t)
    (answer : option (list liq_color)) (t : list event) (e : event) :
  In e (trace (quantized palette1 es answer t)) ->
  In e t \/ e = liq_histogram_quantize_call \/
  (exists n u, e = generated_info n u) \/
  (exists p, e = liq_result_destroy p) \/
  e = liq_histogram_destroy \/ e = liq_attr_destroy.
Proof.
  unfold quantized. destruct answer as [l|].
  - destruct (store_quantized _ _ _ _ _) as [[es' maxIndex]|f].
    + intros H. apply finish_trace in H.
      destruct H as [H|H]; [|right; right; exact H].
      apply in_app_iff in H as [H|[H|[]]]; [left; exact H | right; left; auto].
    + simpl. intros H.
      apply in_app_iff in H as [H|[H|[]]]; [left; exact H | right; left; auto].
  - simpl. intros H.
    apply in_app_iff in H as [H|[H|[H|[H|[]]]]]; auto 10.
Qed.

Lemma processed_images (palette : palette_t) (i : image_t) :
  In i (processed palette) -> In i (images palette).
Proof.
  unfold processed. destruct (1 <? capacity palette); [tauto | intros []].
Qed.

(** The rows added to the histogram, in any run. *)
Lemma added_rows (palette : palette_t) (row : list liq_color) :
  In (liq_histogram_add_image_call row)
     (trace (palette_generate_with_images palette)) ->
  exists i data,
    In i (images palette) /\ image_load i = Some data /\
    row = map (convert_pixel (mode palette))
            (survivors (fixedEntries palette) data).
Proof.
  intros Hin.
  assert (Hev : forall l, (forall x, In x l -> In x (processed palette)) ->
            In (liq_histogram_add_image_call row)
               (concat (map (image_events (seeded palette) (mode palette)) l)) ->
            exists i data,
              In i (images palette) /\ image_load i = Some data /\
              row = map (convert_pixel (mode palette))
                      (survivors (fixedEntries palette) data)).
  { intros l Hsub H. destruct (image_events_rows _ _ _ _ H) as (i & data & Hi & Hd & Hr).
    exists i, data. split; [apply processed_images, Hsub, Hi|].
    split; [exact Hd|]. rewrite seeded_map, survivors_seeded in Hr. exact Hr. }
  destruct (first_failing_image (processed palette))
    as [Hok | (l1 & i0 & l2 & Hp & Hl1 & Hi0)].
  - rewrite palette_generate_with_images_loaded in Hin by exact Hok.
    assert (Hload : In (liq_histogram_add_image_call row) (loading_trace palette)).
    { destruct (nonempty (rows (histogram palette))).
      - apply quantized_trace_events in Hin.
        destruct Hin as [H|[H|[(n & u & H)|[(p & H)|[H|H]]]]];
          [exact H | discriminate H ..].
      - apply finish_trace in Hin.
        destruct Hin as [H|[(n & u & H)|[(p & H)|[H|H]]]];
          [exact H | discriminate H ..]. }
    unfold loading_trace in Hload. apply in_app_iff in Hload as [H|H].
    + destruct H as [H|[H|[]]]; discriminate H.
    + apply (Hev (processed palette)); [tauto | exact H].
  - rewrite (palette_generate_with_images_failed palette l1 l2 i0 Hp Hl1 Hi0) in Hin.
    simpl in Hin. destruct Hin as [H|[H|H]]; try discriminate H.
    apply in_app_iff in H as [H|H].
    + apply (Hev l1); [|exact H].
      intros x Hx. rewrite Hp. apply in_or_app. left. exact Hx.
    + destruct H as [H|[H|[H|[]]]]; discriminate H.
Qed.

(** A run in which the quantizer is called. *)
Lemma quantizer_called (palette : palette_t) :
  In liq_histogram_quantize_call (trace (palette_generate_with_images palette)) ->
  palette_generate_with_images palette =
  quantized (set_fixedEntries palette (seeded palette)) (entries palette)
    (liq_histogram_quantize (histogram palette)
       (mk_attr (quantizeSpeed palette) (capacity palette)))
    (loading_trace palette).
Proof.
  intros Hin.
  assert (Hno : ~ In liq_histogram_quantize_call (loading_trace palette)).
  { unfold loading_trace. intros H. apply in_app_iff in H as [H|H].
    - destruct H as [H|[H|[]]]; discriminate H.
    - exact (image_events_no_quantize _ _ _ H). }
  destruct (first_failing_image (processed palette))
    as [Hok | (l1 & i0 & l2 & Hp & Hl1 & Hi0)].
  - rewrite palette_generate_with_images_loaded in Hin |- * by exact Hok.
    destruct (nonempty (rows (histogram palette))); [reflexivity|].
    exfalso. apply finish_trace in Hin.
    destruct Hin as [H|[(n & u & H)|[(p & H)|[H|H]]]];
      [exact (Hno H) | discriminate H ..].
  - exfalso.
    rewrite (palette_generate_with_images_failed palette l1 l2 i0 Hp Hl1 Hi0) in Hin.
    simpl in Hin. destruct Hin as [H|[H|H]]; try discriminate H.
    apply in_app_iff in H as [H|H].
    + exact (image_events_no_quantize _ _ _ H).
    + destruct H as [H|[H|[H|[]]]]; discriminate H.
Qed.

(** A run in which every image that is reached loads and has no pixel
    that survives. *)
Lemma quantizer_skipped (palette : palette_t) :
  (forall i, In i (processed palette) ->
     exists data, image_load i = Some data /\
                  survivors (fixedEntries palette) data = []) ->
  palette_generate_with_images palette =
    finish (set_fixedEntries palette (seeded palette)) None
      (entries palette) (-1) (loading_trace palette) /\
  ~ In liq_histogram_quantize_call (trace (palette_generate_with_images palette)).
Proof.
  intros Hnone.
  assert (Hload : Forall (fun i => is_Some (image_load i)) (processed palette)).
  { apply List.Forall_forall. intros i Hi.
    destruct (Hnone i Hi) as (data & Hd & _). exists data. exact Hd. }
  assert (Hrows : rows (histogram palette) = []).
  { apply submitted_rows_nil. intros i data Hi Hd.
    destruct (Hnone i Hi) as (data' & Hd' & Hs). congruence. }
  assert (HR : palette_generate_with_images palette =
               finish (set_fixedEntries palette (seeded palette)) None
                 (entries palette) (-1) (loading_trace palette)).
  { rewrite palette_generate_with_images_loaded by exact Hload.
    rewrite Hrows. reflexivity. }
  split; [exact HR|].
  rewrite HR. intros Hin. apply finish_trace in Hin.
  destruct Hin as [Hin|[(n & u & Hin)|[(p & Hin)|[Hin|Hin]]]];
    try discriminate Hin.
  unfold loading_trace in Hin. apply in_app_iff in Hin as [Hin|Hin].
  - simpl in Hin. destruct Hin as [Hin|[Hin|[]]]; discriminate Hin.
  - exact (image_events_no_quantize _ _ _ Hin).
Qed.

End Properties.

(** X15.  In every run of [palette_generate_with_images], every row of
    pixels added to the histogram is the conversion of the pixels of one
    image that survive the filter, and a pixel whose red, green and blue
    are those of an exact fixed entry never survives it, whatever its
    alpha; when the quantizer is called, it is called on the histogram of
    exactly these rows.  When every image that is reached loads and no
    pixel of it survives (or no image is reached), the quantizer is not
    called and the run is the same whatever the quantizer is; it reads the
    palette of the quantizer through [NULL] when some fixed entry is not
    exact; and when it returns 0, over a table of [PALETTE_MAX_ENTRIES]
    slots, every fixed entry is exact and the valid colours of the final
    table are those of the table before the run and fixed colours. *)
Theorem exact_pixels_excluded {ext : Collaborators} (palette : palette_t) :
  let fs := fixedEntries palette in
  let R := palette_generate_with_images palette in
  (forall row, In (liq_histogram_add_image_call row) (trace R) ->
     exists i data,
       In i (images palette) /\ image_load i = Some data /\
       row = map (convert_pixel (mode palette)) (survivors fs data)) /\
  (forall data px entry,
     In entry fs -> exact entry = true ->
     r px = r (rgb (color entry)) -> g px = g (rgb (color entry)) ->
     b px = b (rgb (color entry)) ->
     ~ In px (survivors fs data)) /\
  (In liq_histogram_quantize_call (trace R) ->
   rows (histogram palette) =
     submitted_rows fs (mode palette) (processed palette) /\
   R = quantized (set_fixedEntries palette (seeded palette)) (entries palette)
         (liq_histogram_quantize (histogram palette)
            (mk_attr (quantizeSpeed palette) (capacity palette)))
         (loading_trace palette)) /\
  ((forall i, In i (processed palette) ->
      exists data, image_load i = Some data /\ survivors fs data = []) ->
   ~ In liq_histogram_quantize_call (trace R) /\
   (forall q,
      palette_generate_with_images (ext := with_quantizer ext q) palette = R) /\
   (forallb exact fs = false -> out R = Undefined NullDereference) /\
   (out R = Success ->
    length (entries palette) = PALETTE_MAX_ENTRIES ->
    forallb exact fs = true /\
    exists added,
      valid_colors (entries (pal R)) ≡ₚ added ++ valid_colors (entries palette) /\
      Forall (is_fixed_color (mode palette) (seeded palette)) added)).
Proof.
  intros fs R. subst R fs.
  split; [|split; [|split]].
  - intros row Hrow. exact (added_rows palette row Hrow).
  - intros data px entry Hin Hex Hr Hg Hb Hpx.
    unfold survivors in Hpx. apply filter_In in Hpx as [_ Hpx].
    apply negb_true_iff in Hpx.
    assert (Hyes : is_exact_color (fixedEntries palette) px = true).
    { unfold is_exact_color. apply existsb_exists. exists entry.
      split; [exact Hin|]. rewrite Hex. unfold same_rgb.
      rewrite Hr, Hg, Hb, !Z.eqb_refl. reflexivity. }
    congruence.
  - intros Hq. split; [reflexivity | exact (quantizer_called palette Hq)].
  - intros Hnone. destruct (quantizer_skipped palette Hnone) as [HR Hq].
    split; [exact Hq|]. split; [|split].
    + intros q.
      destruct (quantizer_skipped (ext := with_quantizer ext q) palette Hnone)
        as [HR' _].
      rewrite HR', HR. reflexivity.
    + intros Hex. rewrite HR. unfold finish, resolve.
      change (fixedEntries (set_fixedEntries palette (seeded palette)))
        with (seeded palette).
      rewrite place_fixed_all_null, seeded_map, forallb_exact_seed, Hex.
      reflexivity.
    + rewrite HR. unfold finish.
      change (fixedEntries (set_fixedEntries palette (seeded palette)))
        with (seeded palette).
      change (mode (set_fixedEntries palette (seeded palette)))
        with (mode palette).
      destruct (resolve (mode palette) None (seeded palette) (entries palette) (-1))
        as [[[[fs' es'] n] u]|flt] eqn:Hres; [|intros H; discriminate H].
      intros _ Hlen. cbn [pal set_table entries].
      unfold resolve in Hres. steps Hres. inversion Hres; subst. clear Hres.
      rename u0 into es1.
      split.
      * rewrite place_fixed_all_null in Hx.
        rewrite <- (forallb_exact_seed (mode palette)), <- seeded_map.
        destruct (forallb exact (seeded palette)); [reflexivity | discriminate Hx].
      * assert (G1 : grows (mode palette) (seeded palette) (entries palette) es1).
        { eapply place_fixed_all_grows; [|exact Hx]. tauto. }
        assert (G2 : grows (mode palette) (seeded palette) es1 es').
        { eapply place_exact_all_grows; [| |exact Hx0]; [tauto|].
          destruct G1 as [L _]. congruence. }
        destruct (grows_trans _ _ _ _ _ G1 G2) as (_ & added & P & F).
        exists added. split; assumption.
Qed.

(** * Closed examples *)

(** C1, at the failing input.  A palette without images and with the exact
    fixed entry white at index 0: [palette_generate] succeeds and slot 0 is
    the fixed entry as it was declared.  Its colour is not the converted
    one (the converter of the example maps white to 248, 248, 248 with
    target 32767) and the slot is not marked valid. *)
Theorem exact_color_copied_unconverted :
  let R := palette_generate (ext := ext_rg) palette_white_only [] in
  out R = Success /\
  entries (pal R) !! 0%nat = Some (fixed_color white 0 true) /\
  color (fixed_color white 0 true) <>
    @color_convert ext_rg (color (fixed_color white 0 true))
      (mode palette_white_only) /\
  valid (fixed_color white 0 true) = false.
Proof.
  split; [vm_compute; reflexivity|].
  split; [vm_compute; reflexivity|].
  split; [|reflexivity].
  vm_compute. intros H. discriminate H.
Qed.

(** The same palette with an image of which no pixel is white: the
    sibling path converts the colour and marks the slot. *)
Example exact_color_converted_with_images :
  let p := sample_palette "p" [file "a.png"] 256 [fixed_color white 0 true] in
  let R := palette_generate (ext := ext_rg) p [] in
  out R = Success /\
  entries (pal R) !! 0%nat =
    Some (mk_entry (sample_convert (mk_color white 0) 0) 0 true true).
Proof. split; vm_compute; reflexivity. Qed.

Lemma all_invalid_check (es : list palette_entry_t) :
  forallb (fun e => negb (valid e)) es = true ->
  Forall (fun e => valid e = false) es.
Proof.
  intros H. apply List.Forall_forall. intros e He.
  apply negb_true_iff. exact (proj1 (forallb_forall _ _) H e He).
Defined.

Lemma unmatched_check (f : palette_entry_t)
    (es : list palette_entry_t) :
  forallb (fun e => negb (same_rgb (rgb (color f)) (rgb (color e)))) es = true ->
  unmatched f es.
Proof.
  intros H e He. apply negb_true_iff.
  exact (proj1 (forallb_forall _ _) H e He).
Defined.

(** A run in which every pixel of the only image is the exact black: the
    quantizer is not called. *)
Lemma exact_pixels_excluded_witness :
  (forall i, In i (processed palette_exact_black) ->
     exists data,
       @image_load ext_black i = Some data /\
       survivors (fixedEntries palette_exact_black) data = []) /\
  ~ In liq_histogram_quantize_call
      (trace (palette_generate_with_images (ext := ext_black) palette_exact_black)).
Proof.
  assert (H : forall i, In i (processed palette_exact_black) ->
            exists data,
              @image_load ext_black i = Some data /\
              survivors (fixedEntries palette_exact_black) data = []).
  { intros i [<-|[]]. exists [black; black]. split; vm_compute; reflexivity. }
  split; [exact H|].
  exact (proj1 (proj2 (proj2 (proj2
           (exact_pixels_excluded (ext := ext_black) palette_exact_black))) H)).
Defined.

(** C3, as written, fails: the table of a palette named "xlibc" has slots
    that are not valid after a successful run; the builtin loop writes
    colours only. *)
Lemma builtin_entries_not_marked_valid :
  ~ (let R := palette_generate (ext := ext_rg) palette_xlibc_named [] in
     out R = Success /\ numEntries (pal R) = 256 /\
     forall (i : nat) (e : palette_entry_t),
       (i < 256)%nat -> entries (pal R) !! i = Some e -> valid e = true).
Proof.
  intros (_ & _ & H).
  assert (E : entries (pal (palette_generate (ext := ext_rg)
                              palette_xlibc_named [])) !! 0%nat =
              Some (mk_entry (mk_color (mk_liq_color 0 0 0 255) 0) 0 false false)).
  { vm_compute. reflexivity. }
  specialize (H 0%nat _ ltac:(lia) E). discriminate H.
Qed.

Lemma builtin_bypass_witness :
  reserved (name palette_xlibc_named) = Some palette_xlibc /\
  length (entries palette_xlibc_named) = PALETTE_MAX_ENTRIES /\
  numEntries (pal (palette_generate (ext := ext_rg) palette_xlibc_named [])) = 256.
Proof.
  assert (H1 : reserved (name palette_xlibc_named) = Some palette_xlibc)
    by (vm_compute; reflexivity).
  assert (H2 : length (entries palette_xlibc_named) = PALETTE_MAX_ENTRIES)
    by (vm_compute; reflexivity).
  split; [exact H1|]. split; [exact H2|].
  rewrite (proj1 (builtin_bypass (ext := ext_rg) palette_xlibc_named []
                    palette_xlibc H1 H2)).
  reflexivity.
Defined.

(** C4, as written, fails: for an automatic palette whose collection of
    images fails, the failure returned is the one of the collection, not
    the one of the capacity test that follows it. *)
Lemma capacity_guard_after_collection :
  ~ (let R := palette_generate (ext := ext_rg) palette_overfull_automatic
                converts_null_path in
     maxEntries palette_overfull_automatic <
       numFixedEntries palette_overfull_automatic ->
     out R = Failure TooManyFixedColors).
Proof.
  intros H.
  assert (Hcap : maxEntries palette_overfull_automatic <
                 numFixedEntries palette_overfull_automatic)
    by (vm_compute; reflexivity).
  specialize (H Hcap). vm_compute in H. discriminate H.
Qed.

Lemma capacity_guard_witness :
  reserved (name palette_overfull) = None /\
  maxEntries palette_overfull < numFixedEntries palette_overfull /\
  out (palette_generate (ext := ext_rg) palette_overfull []) =
    Failure TooManyFixedColors.
Proof.
  assert (H1 : reserved (name palette_overfull) = None)
    by (vm_compute; reflexivity).
  assert (H2 : maxEntries palette_overfull < numFixedEntries palette_overfull)
    by (vm_compute; reflexivity).
  split; [exact H1|]. split; [exact H2|].
  exact (proj1 (proj2 (capacity_guard (ext := ext_rg) palette_overfull [] H1 H2))
           eq_refl).
Defined.

(** C5, as written, fails: with [maxEntries] 2 and an exact entry pinned at
    index 5 the run succeeds with [numEntries] 6. *)
Lemma numEntries_above_maxEntries :
  ~ (let R := palette_generate (ext := ext_rg) palette_pinned_high [] in
     out R = Success -> numEntries (pal R) <= maxEntries (pal R)).
Proof.
  intros H.
  assert (Hout : out (palette_generate (ext := ext_rg) palette_pinned_high []) =
                 Success) by (vm_compute; reflexivity).
  specialize (H Hout). vm_compute in H. apply H. reflexivity.
Qed.

(** The stale colour of a slot counts: red moves to index 2 and leaves the
    stale black of slot 2 in slot 0, where the search for black finds it
    before the quantizer's black; the swap of slots 0 and 1 marks it valid,
    three slots are valid for two colours of the quantizer, and the exact
    white at index 0 sends the occupant of slot 0 to slot 3. *)
Example stale_slot_counted :
  let R := palette_generate (ext := ext_rb) palette_three [] in
  out R = Success /\ numEntries (pal R) = 4 /\ maxEntries (pal R) = 3.
Proof. repeat split; vm_compute; reflexivity. Qed.

(** When every slot is valid the scan for a free slot ends at
    [PALETTE_MAX_ENTRIES], and the occupant is written past the table.  The
    255 colours of the quantizer and the stale black that the swaps for red
    and black mark valid fill the table; the exact white finds its slot
    occupied. *)
Example relocation_without_free_slot :
  out (palette_generate (ext := ext_many) palette_full []) =
  Undefined OutOfBounds.
Proof. vm_compute. reflexivity. Qed.

(** A run that leaves holes: red is pinned at index 5 and found, so that
    slots 0, 2, 3 and 4 stay unused. *)
Lemma index_hole_invariant_witness :
  let R := palette_generate (ext := ext_rg) palette_roomy [] in
  reserved (name palette_roomy) = None /\
  images (snd (collect (ext := ext_rg) palette_roomy [])) <> [] /\
  length (entries palette_roomy) = PALETTE_MAX_ENTRIES /\
  Forall (fun e => valid e = false) (entries palette_roomy) /\
  Forall (fun f => (index f < PALETTE_MAX_ENTRIES)%nat)
    (fixedEntries palette_roomy) /\
  has_room (ext := ext_rg) palette_roomy /\
  out R = Success /\
  0 <= numEntries (pal R) <= Z.of_nat PALETTE_MAX_ENTRIES.
Proof.
  assert (H1 : reserved (name palette_roomy) = None) by (vm_compute; reflexivity).
  assert (H2 : images (snd (collect (ext := ext_rg) palette_roomy [])) <> [])
    by (vm_compute; intros H; discriminate H).
  assert (H3 : length (entries palette_roomy) = PALETTE_MAX_ENTRIES)
    by (vm_compute; reflexivity).
  assert (H4 : Forall (fun e => valid e = false) (entries palette_roomy))
    by (apply all_invalid_check; vm_compute; reflexivity).
  assert (H5 : Forall (fun f => (index f < PALETTE_MAX_ENTRIES)%nat)
                 (fixedEntries palette_roomy))
    by (repeat constructor; vm_compute; lia).
  assert (H6 : forall h l,
            @liq_histogram_quantize ext_rg h
              (mk_attr (quantizeSpeed palette_roomy) (capacity palette_roomy)) =
              Some l ->
            Z.of_nat (length l) <= capacity palette_roomy).
  { intros h l E. inversion E; subst l. vm_compute. discriminate. }
  assert (H7 : has_room (ext := ext_rg) palette_roomy)
    by (left; vm_compute; discriminate).
  assert (H8 : out (palette_generate (ext := ext_rg) palette_roomy []) = Success)
    by (vm_compute; reflexivity).
  intros R.
  split; [exact H1|]. split; [exact H2|]. split; [exact H3|]. split; [exact H4|].
  split; [exact H5|]. split; [exact H7|]. split; [exact H8|].
  exact (proj1 (proj2 (index_hole_invariant (ext := ext_rg) palette_roomy []
                         H1 H2 H3 H4 H5 H6 H7) H8)).
Defined.

(** The table of the end-to-end example once red and green are stored, and
    its resolution: black, exact at index 0, sends red to slot 2. *)
Lemma relocation_preserves_colors_witness :
  let es := <[1%nat := mk_entry (mk_color green 0) 0 false true]>
              (<[0%nat := mk_entry (mk_color red 0) 0 false true]> blank_table) in
  length es = PALETTE_MAX_ENTRIES /\
  exists fs' es' n unused,
    resolve (ext := ext_rg) 0 (Some [red; green]) [fixed_color black 0 true] es 1 =
      Ok (fs', es', n, unused) /\
    valid_colors es ⊆+ valid_colors es'.
Proof.
  intros es.
  assert (Hlen : length es = PALETTE_MAX_ENTRIES) by (vm_compute; reflexivity).
  split; [exact Hlen|].
  destruct (resolve (ext := ext_rg) 0 (Some [red; green])
              [fixed_color black 0 true] es 1)
    as [[[[fs' es'] n] unused]|f] eqn:Hres; [|vm_compute in Hres; discriminate Hres].
  exists fs', es', n, unused. split; [reflexivity|].
  exact (proj1 (proj1 (proj2 (proj2 (relocation_preserves_colors
                                       (ext := ext_rg) 0 (Some [red; green]))))
                 _ _ _ _ _ _ _ Hres Hlen)).
Defined.

(** C7, as written, fails: without images and with three fixed entries for
    a [maxEntries] of 2, nothing is placed; the capacity test fails
    first. *)
Lemma fixed_entries_not_placed :
  ~ (let R := palette_generate (ext := ext_rg) palette_overfull [] in
     (numFixedEntries palette_overfull = 0 -> out R = Failure EmptyPalette) /\
     (numFixedEntries palette_overfull <> 0 ->
      out R = Success /\
      numEntries (pal R) =
        1 + Z.of_nat (max_list (index <$> fixedEntries palette_overfull)))).
Proof.
  intros [_ H].
  assert (Hn : numFixedEntries palette_overfull <> 0)
    by (vm_compute; intros E; discriminate E).
  destruct (H Hn) as [Hout _]. vm_compute in Hout. discriminate Hout.
Qed.

Lemma placed_without_images_witness :
  reserved (name palette_two_fixed) = None /\
  collect (ext := ext_rg) palette_two_fixed [] = (0, palette_two_fixed) /\
  images palette_two_fixed = [] /\
  numFixedEntries palette_two_fixed <= maxEntries palette_two_fixed /\
  fixedEntries palette_two_fixed <> [] /\
  Forall (fun f => (index f < length (entries palette_two_fixed))%nat)
    (fixedEntries palette_two_fixed) /\
  out (palette_generate (ext := ext_rg) palette_two_fixed []) = Success.
Proof.
  assert (H1 : reserved (name palette_two_fixed) = None)
    by (vm_compute; reflexivity).
  assert (H2 : collect (ext := ext_rg) palette_two_fixed [] = (0, palette_two_fixed))
    by reflexivity.
  assert (H3 : images palette_two_fixed = []) by reflexivity.
  assert (H4 : numFixedEntries palette_two_fixed <= maxEntries palette_two_fixed)
    by (vm_compute; intros E; discriminate E).
  assert (H5 : fixedEntries palette_two_fixed <> [])
    by (intros E; discriminate E).
  assert (H6 : Forall (fun f => (index f < length (entries palette_two_fixed))%nat)
                 (fixedEntries palette_two_fixed)).
  { repeat constructor; vm_compute; lia. }
  repeat (split; [assumption|]).
  exact (proj1 (proj2 (placed_without_images (ext := ext_rg) palette_two_fixed
                         palette_two_fixed [] H1 H2 H3 H4) H5 H6)).
Defined.

(** Three images, the second of which does not load. *)
Lemma load_failure_aborts_witness :
  In (image_load_call (file "b.png"))
     (trace (palette_generate (ext := ext_missing) palette_missing_image [])) /\
  @image_load ext_missing (file "b.png") = None /\
  out (palette_generate (ext := ext_missing) palette_missing_image []) =
    Failure ImageLoadFailure.
Proof.
  assert (H1 : In (image_load_call (file "b.png"))
                 (trace (palette_generate (ext := ext_missing)
                           palette_missing_image []))).
  { vm_compute. do 5 right. left. reflexivity. }
  assert (H2 : @image_load ext_missing (file "b.png") = None)
    by (vm_compute; reflexivity).
  split; [exact H1|]. split; [exact H2|].
  exact (proj1 (load_failure_aborts (ext := ext_missing) palette_missing_image []
                  (file "b.png") H1 H2)).
Defined.

(** The steps of the search on that table.  Red is pinned at index 5 and black at index 1,
    neither exact; the quantizer answers red and green, so that black is
    not among its colours.  The swap for red brings the stale slot 5, which
    is black, to slot 0; the search for black finds it there, and the turn
    of black writes slots 0 and 1. *)
Lemma absent_color_written :
  exists es0 es1 A B,
    seeded (ext := ext_rg) palette_stale = [A; B] /\
    store_quantized (ext := ext_rg) 0 [red; green] 0 (entries palette_stale) (-1) =
      Ok (es0, 1) /\
    place_fixed (Some [red; green]) A es0 1 = Ok (es1, 5) /\
    exact B = false /\
    ~ ((forall c, In c [red; green] ->
          same_rgb (rgb (color B)) (rgb (stored_color (ext := ext_rg) 0 c)) = false) ->
       place_fixed (Some [red; green]) B es1 5 = Ok (es1, 5)).
Proof.
  do 4 eexists.
  split; [vm_compute; reflexivity|].
  split; [vm_compute; reflexivity|].
  split; [vm_compute; reflexivity|].
  split; [reflexivity|].
  intros H.
  assert (Habsent : forall c, In c [red; green] ->
            same_rgb (rgb (color (fixed_color black 1 false)))
              (rgb (stored_color (ext := ext_rg) 0 c)) = false).
  { intros c [<-|[<-|[]]]; vm_compute; reflexivity. }
  specialize (H Habsent). vm_compute in H. discriminate H.
Qed.

(** The whole run of that palette: it succeeds, and slot 1, where the
    quantizer's green was stored, holds the stale black, marked valid. *)
Example absent_color_run :
  let R := palette_generate (ext := ext_rg) palette_stale [] in
  out R = Success /\
  entries (pal R) !! 1%nat =
    Some (mk_entry (mk_color (mk_liq_color 0 0 0 0) 0) 0 false true).
Proof. split; vm_compute; reflexivity. Qed.

(** White, pinned at index 7 and matching no slot of the table in which
    red and green are stored, is skipped. *)
Lemma unmatched_entry_skipped_witness :
  let es := <[1%nat := mk_entry (mk_color green 0) 0 false true]>
              (<[0%nat := mk_entry (mk_color red 0) 0 false true]> blank_table) in
  let f := fixed_color (mk_liq_color 248 248 248 255) 7 false in
  exact f = false /\
  (length [red; green] <= length es)%nat /\
  unmatched f es /\
  resolved (ext := ext_rg) 0 (Some [red; green])
    ([fixed_color red 5 false] ++ f :: []) es 1 =
  resolved (ext := ext_rg) 0 (Some [red; green])
    ([fixed_color red 5 false] ++ []) es 1.
Proof.
  intros es f.
  assert (H1 : exact f = false) by reflexivity.
  assert (H2 : (length [red; green] <= length es)%nat) by (vm_compute; lia).
  assert (H3 : unmatched f es) by (apply unmatched_check; vm_compute; reflexivity).
  split; [exact H1|]. split; [exact H2|]. split; [exact H3|].
  exact (proj2 (unmatched_entry_skipped (ext := ext_rg) 0 [red; green] f
                  [fixed_color red 5 false] [] es 1 H1 H2 H3)).
Defined.

(** C2, at the failing inputs.  In both runs no pixel reaches the
    quantizer and the quantizer is not called: in the first the only image
    is black throughout and black is an exact fixed colour, so that every
    pixel is filtered; in the second [maxEntries] leaves room for one
    colour and the loop over the images is not entered.  In both a fixed
    entry is not exact, and instead of a table derived from the fixed
    entries the run reads [liqpalette->count] through [NULL]. *)
Theorem skipped_quantization_gives_no_table :
  let R1 := palette_generate (ext := ext_black) palette_null [] in
  let R2 := palette_generate (ext := ext_rg) palette_tight [] in
  (forall i, In i (processed palette_null) ->
     exists data,
       @image_load ext_black i = Some data /\
       survivors (fixedEntries palette_null) data = []) /\
  ~ In liq_histogram_quantize_call (trace R1) /\
  out R1 = Undefined NullDereference /\
  images palette_tight <> [] /\
  processed palette_tight = [] /\
  ~ In liq_histogram_quantize_call (trace R2) /\
  out R2 = Undefined NullDereference.
Proof.
  split.
  { intros i [<-|[]]. exists [black; black]. split; vm_compute; reflexivity. }
  split.
  { vm_compute. intros H.
    repeat (destruct H as [H|H]; [discriminate H|]). exact H. }
  split; [vm_compute; reflexivity|].
  split; [discriminate|].
  split; [vm_compute; reflexivity|].
  split; [|vm_compute; reflexivity].
  vm_compute. intros H.
  repeat (destruct H as [H|H]; [discriminate H|]). exact H.
Qed.

(** C6, at the failing input.  The quantizer answers 255 colours, stored in
    the slots 0 to 254 of a fresh table.  Red, not exact and pinned at
    index 255, is found and swapped there; the swap leaves the stale slot
    255 in the range of the search, where black, not exact and pinned at
    index 1, finds it and marks it valid: every one of the
    [PALETTE_MAX_ENTRIES] slots is now valid.  White is exact and pinned at
    index 5, whose occupant is valid: the scan for a free slot ends with
    [j = PALETTE_MAX_ENTRIES], and the occupant is written to
    [entries[PALETTE_MAX_ENTRIES]], outside the table. *)
Theorem displaced_entry_written_past_table :
  let R := palette_generate (ext := ext_many) palette_full [] in
  let white_entry := fixed_color white 5 true in
  exists es0 mi0 es1 mi1 occupant,
    store_quantized (ext := ext_many) 0 many_colors 0 (entries palette_full) (-1) =
      Ok (es0, mi0) /\
    place_fixed_all (Some many_colors) (seeded (ext := ext_many) palette_full)
      es0 mi0 = Ok (es1, mi1) /\
    length es1 = PALETTE_MAX_ENTRIES /\
    forallb valid es1 = true /\
    es1 !! index white_entry = Some occupant /\
    first_free es1 0 PALETTE_MAX_ENTRIES = Ok PALETTE_MAX_ENTRIES /\
    write es1 PALETTE_MAX_ENTRIES occupant = Fault OutOfBounds /\
    place_exact (ext := ext_many) 0 white_entry es1 mi1 = Fault OutOfBounds /\
    out R = Undefined OutOfBounds.
Proof.
  do 5 eexists.
  split; [vm_compute; reflexivity|].
  split; [vm_compute; reflexivity|].
  split; [vm_compute; reflexivity|].
  split; [vm_compute; reflexivity|].
  split; [vm_compute; reflexivity|].
  split; [vm_compute; reflexivity|].
  split; [vm_compute; reflexivity|].
  split; vm_compute; reflexivity.
Qed.

(** C9, at the failing input.  Red is pinned at index 5 and black at
    index 1, neither exact; the quantizer answers red and green, stored in
    the slots 0 and 1, so that black is not among its colours.  The swap
    for red brings the stale slot 5, never written and black, to slot 0,
    inside the range of the search; the search for black finds it there,
    and the turn of black writes the pinned slot 1: the run returns 0 with
    the stale entry at index 1, marked valid, where the quantizer's green
    was. *)
Theorem absent_color_found_in_stale_slot :
  let R := palette_generate (ext := ext_rg) palette_stale [] in
  let B := fixed_color black 1 false in
  In B (fixedEntries palette_stale) /\ exact B = false /\
  @liq_histogram_quantize ext_rg (histogram (ext := ext_rg) palette_stale)
    (mk_attr (quantizeSpeed palette_stale) (capacity palette_stale)) =
    Some [red; green] /\
  (forall c, In c [red; green] ->
     same_rgb (rgb (@color_convert ext_rg (color B) (mode palette_stale)))
       (rgb (stored_color (ext := ext_rg) (mode palette_stale) c)) = false) /\
  (exists es0,
     store_quantized (ext := ext_rg) 0 [red; green] 0 (entries palette_stale) (-1) =
       Ok (es0, 1) /\
     es0 !! 1%nat =
       Some (mk_entry (stored_color (ext := ext_rg) 0 green) 0 false true)) /\
  out R = Success /\
  entries (pal R) !! 1%nat =
    Some (mk_entry (mk_color (mk_liq_color 0 0 0 0) 0) 0 false true).
Proof.
  split; [right; left; reflexivity|].
  split; [reflexivity|].
  split; [reflexivity|].
  split; [intros c [<-|[<-|[]]]; vm_compute; reflexivity|].
  split; [eexists; split; vm_compute; reflexivity|].
  split; vm_compute; reflexivity.
Qed.

(** C10, at the failing input.  The only image is black throughout and
    black is an exact fixed colour, so that no pixel is handed to the
    quantizer and [liqpalette] stays [NULL]; red is a fixed colour that is
    not exact, and the loop that looks for it reads [liqpalette->count]. *)
Theorem quantizer_palette_read_through_null :
  let R := palette_generate (ext := ext_black) palette_null [] in
  rows (histogram (ext := ext_black) palette_null) = [] /\
  forallb exact (fixedEntries palette_null) = false /\
  ~ In liq_histogram_quantize_call (trace R) /\
  out R = Undefined NullDereference.
Proof.
  split; [vm_compute; reflexivity|].
  split; [vm_compute; reflexivity|].
  split; [|vm_compute; reflexivity].
  vm_compute. intros H.
  repeat (destruct H as [H|H]; [discriminate H|]). exact H.
Qed.

(** * Further properties *)

Section Further.

Context {ext : Collaborators}.

(** ** Registering images *)

Lemma palette_add_image_some (palette : palette_t) (s : string) :
  palette_add_image palette (Some s) =
  (0, set_images palette (images palette ++ [new_image s])).
Proof. reflexivity. Qed.

Lemma set_images_twice (palette : palette_t) (l l' : list image_t) :
  set_images (set_images palette l) l' = set_images palette l'.
Proof. reflexivity. Qed.

Lemma registered_cons (i : image_t) (l : list image_t) (s : string) :
  path i = Some s -> registered (i :: l) = new_image s :: registered l.
Proof. intros H. unfold registered. simpl. rewrite H. reflexivity. Qed.

Lemma add_images_ok (l : list image_t) :
  forall palette : palette_t,
    Forall (fun i => is_Some (path i)) l ->
    add_images palette l =
    (0, set_images palette (images palette ++ registered l)).
Proof.
  induction l as [|i l IH]; intros palette Hl.
  - simpl. rewrite app_nil_r, set_images_id. reflexivity.
  - inversion Hl as [|? ? [s Hs] Hrest]; subst.
    simpl. rewrite Hs. simpl. rewrite IH by exact Hrest.
    unfold set_images. simpl. rewrite <- app_assoc. reflexivity.
Qed.

Lemma add_images_fail (l1 l2 : list image_t) (i : image_t) :
  forall palette : palette_t,
    Forall (fun x => is_Some (path x)) l1 ->
    path i = None ->
    add_images palette (l1 ++ i :: l2) =
    (1, set_images palette (images palette ++ registered l1)).
Proof.
  induction l1 as [|x l1 IH]; intros palette Hl Hi.
  - simpl. rewrite Hi. simpl. rewrite app_nil_r, set_images_id. reflexivity.
  - inversion Hl as [|? ? [s Hs] Hrest]; subst.
    simpl. rewrite Hs. simpl. rewrite IH by assumption.
    unfold set_images. simpl. rewrite <- app_assoc. reflexivity.
Qed.

Lemma add_images_app (l1 l2 : list image_t) :
  forall palette : palette_t,
    add_images palette (l1 ++ l2) =
    (if fst (add_images palette l1) =? 0
     then add_images (snd (add_images palette l1)) l2
     else add_images palette l1).
Proof.
  induction l1 as [|x l1 IH]; intros palette; [reflexivity|].
  simpl. destruct (palette_add_image palette (path x)) as [ret p1].
  destruct (ret =? 0) eqn:E.
  - apply IH.
  - simpl. rewrite E. reflexivity.
Qed.

Lemma add_images_name (l : list image_t) (palette : palette_t) :
  name (snd (add_images palette l)) = name palette.
Proof.
  destruct (add_images_images l palette) as (l' & H & _). rewrite H. reflexivity.
Qed.

(** The loop over the conversion jobs is the registration of the
    candidate images, one after the other. *)
Lemma first_missing_path (l : list image_t) :
  Forall (fun i => is_Some (path i)) l \/
  exists l1 i l2,
    l = l1 ++ i :: l2 /\ Forall (fun x => is_Some (path x)) l1 /\ path i = None.
Proof.
  induction l as [|i l IH]; [left; constructor|].
  destruct (path i) as [s|] eqn:Hi.
  - destruct IH as [Hall | (l1 & i' & l2 & -> & Hl1 & Hi')].
    + left. constructor; [rewrite Hi; eauto | exact Hall].
    + right. exists (i :: l1), i', l2. split; [reflexivity|].
      split; [constructor; [rewrite Hi; eauto | exact Hl1] | exact Hi'].
  - right. exists [], i, l. split; [reflexivity|]. split; [constructor | exact Hi].
Qed.

Lemma palette_automatic_build_flat (converts : list convert_t) :
  forall palette : palette_t,
    palette_automatic_build palette converts =
    add_images palette (candidates (name palette) converts).
Proof.
  induction converts as [|c converts IH]; intros palette; [reflexivity|].
  simpl. destruct (String.eqb (name palette) (paletteName c)); simpl; [|apply IH].
  rewrite <- app_assoc, add_images_app.
  destruct (add_images_images (convert_images c) palette) as (l1 & H1 & Hr1).
  destruct (add_images palette (convert_images c)) as [ret palette1].
  simpl in H1, Hr1 |- *. subst palette1.
  destruct Hr1 as [->| ->]; simpl; [|reflexivity].
  rewrite add_images_app.
  destruct (tilesetGroup c) as [group|]; simpl.
  - destruct (add_images_images (map image (tilesets group))
                (set_images palette l1)) as (l2 & H2 & Hr2).
    destruct (add_images (set_images palette l1) (map image (tilesets group)))
      as [ret palette2].
    simpl in H2, Hr2 |- *. subst palette2.
    destruct Hr2 as [->| ->]; simpl; [|reflexivity].
    rewrite IH. reflexivity.
  - rewrite IH. reflexivity.
Qed.

(** X1.  When no candidate image has a [NULL] path,
    [palette_automatic_build] returns 0 and appends to the images of the
    palette one image per candidate: for every conversion job of the
    palette's name, in order, its images and then the images of its tileset
    group; the jobs of other palettes add nothing, and nothing but the
    images of the palette changes. *)
Theorem automatic_build_collects (palette : palette_t) (converts : list convert_t) :
  Forall (fun i => is_Some (path i)) (candidates (name palette) converts) ->
  palette_automatic_build palette converts =
  (0, set_images palette
        (images palette ++ registered (candidates (name palette) converts))) /\
  length (registered (candidates (name palette) converts)) =
    length (candidates (name palette) converts).
Proof.
  intros H. split.
  - rewrite palette_automatic_build_flat. apply add_images_ok. exact H.
  - induction H as [|i l [s Hs] _ IH]; [reflexivity|].
    rewrite (registered_cons i l s Hs). simpl. rewrite IH. reflexivity.
Qed.

(** X2.  At the first candidate image whose path is [NULL],
    [palette_automatic_build] returns 1: the candidates before it are
    registered, the ones after it are not, and nothing but the images of
    the palette changes. *)
Theorem automatic_build_stops (palette : palette_t) (converts : list convert_t)
    (l1 l2 : list image_t) (i : image_t) :
  candidates (name palette) converts = l1 ++ i :: l2 ->
  Forall (fun x => is_Some (path x)) l1 ->
  path i = None ->
  palette_automatic_build palette converts =
  (1, set_images palette (images palette ++ registered l1)).
Proof.
  intros Hc Hl1 Hi. rewrite palette_automatic_build_flat, Hc.
  apply add_images_fail; assumption.
Qed.

(** ** Automatic collection and explicit images *)

Lemma palette_generate_with_images_same (p p' : palette_t) :
  same_but_automatic p p' ->
  out (palette_generate_with_images p) = out (palette_generate_with_images p') /\
  trace (palette_generate_with_images p) = trace (palette_generate_with_images p') /\
  same_but_automatic (pal (palette_generate_with_images p))
    (pal (palette_generate_with_images p')).
Proof.
  destruct p as [n l M ne es fs m q au], p' as [n' l' M' ne' es' fs' m' q' au'].
  unfold same_but_automatic. simpl.
  intros (<- & <- & <- & <- & <- & <- & <- & <-).
  rewrite !palette_generate_with_images_unfold.
  unfold seeded, seeds, capacity, quantized, finish. simpl.
  destruct (read_images _ _ _ _ _ _ _) as [[[hist nq]|] t]; simpl;
    [|repeat split; reflexivity].
  destruct nq.
  - destruct (liq_histogram_quantize _ _) as [lq|]; simpl;
      [|repeat split; reflexivity].
    destruct (store_quantized _ _ _ _ _) as [[es0 mi0]|f]; simpl;
      [|repeat split; reflexivity].
    destruct (resolve _ _ _ _ _) as [[[[fs1 es1] n1] u1]|f]; simpl;
      repeat split; reflexivity.
  - destruct (resolve _ _ _ _ _) as [[[[fs1 es1] n1] u1]|f]; simpl;
      repeat split; reflexivity.
Qed.

(** X3.  Automatic mode is the explicit listing of the collected images:
    for an automatic palette with a name that is not builtin and whose
    candidate images all have a path, [palette_generate] ends as it does
    for the palette that is not automatic and lists, after its own images,
    one image per candidate; the two runs have the same outcome, the same
    calls in the same order, and the same palette but for the automatic
    flag. *)
Theorem automatic_as_explicit (palette : palette_t) (converts : list convert_t) :
  automatic palette = true ->
  reserved (name palette) = None ->
  Forall (fun i => is_Some (path i)) (candidates (name palette) converts) ->
  let listed :=
    explicit palette
      (images palette ++ registered (candidates (name palette) converts)) in
  let R := palette_generate palette converts in
  let R' := palette_generate listed [] in
  out R = out R' /\ trace R = trace R' /\ same_but_automatic (pal R) (pal R').
Proof.
  intros Hauto Hname Hpaths listed R R'. subst R R'.
  rewrite (palette_generate_custom palette converts Hname).
  rewrite (palette_generate_custom listed [] Hname).
  unfold collect. rewrite Hauto. simpl automatic. cbv iota.
  rewrite palette_automatic_build_flat, (add_images_ok _ palette Hpaths).
  set (L := images palette ++ registered (candidates (name palette) converts)).
  change (negb (0 =? 0)) with false. cbv iota.
  change (maxEntries (set_images palette L)) with (maxEntries listed).
  change (numFixedEntries (set_images palette L)) with (numFixedEntries listed).
  change (numImages (set_images palette L)) with (numImages listed).
  assert (Hsame : same_but_automatic (set_images palette L) listed)
    by (repeat split; reflexivity).
  destruct (maxEntries listed <? numFixedEntries listed);
    [split; [reflexivity | split; [reflexivity | exact Hsame]]|].
  destruct (0 <? numImages listed).
  - apply palette_generate_with_images_same. exact Hsame.
  - destruct (numFixedEntries listed =? 0);
      [split; [reflexivity | split; [reflexivity | exact Hsame]]|].
    change (fixedEntries (set_images palette L)) with (fixedEntries listed).
    change (entries (set_images palette L)) with (entries listed).
    destruct (copy_fixed (fixedEntries listed) (entries listed) (-1))
      as [[es mi]|f]; simpl.
    + split; [reflexivity|]. split; [reflexivity|]. repeat split; reflexivity.
    + split; [reflexivity|]. split; [reflexivity | exact Hsame].
Qed.

(** ** The exits of [palette_generate_with_images] *)

Lemma read_images_events (fs : list palette_entry_t) (m : color_mode_t)
    (cap : Z) (l : list image_t) :
  forall (hist : liq_histogram) (nq : bool) (t : list event),
    exists mid,
      snd (read_images fs m cap l hist nq t) = t ++ mid /\
      List.filter attr_hist_event mid = [] /\
      List.filter result_destroy_event mid = [] /\
      ~ In liq_histogram_quantize_call mid.
Proof.
  induction l as [|i l IH]; intros hist nq t.
  - exists []. simpl. rewrite app_nil_r. repeat split; tauto.
  - simpl. destruct (negb (1 <? cap)).
    { exists []. simpl. rewrite app_nil_r. repeat split; tauto. }
    destruct (image_load i) as [data|].
    + destruct (filter_pixels fs m (length data) 0 0 data) as [data' numcolors].
      destruct (0 <? numcolors)%nat.
      * destruct (IH (liq_histogram_add_image hist (take numcolors data')) true
                    (t ++ [image_load_call i;
                           liq_histogram_add_image_call (take numcolors data');
                           image_data_free i])) as (mid & Hmid & Ha & Hr & Hq).
        eexists. rewrite Hmid, <- app_assoc. split; [reflexivity|].
        split; [simpl; exact Ha|]. split; [simpl; exact Hr|].
        simpl. intros [H|[H|[H|H]]]; try discriminate H. exact (Hq H).
      * destruct (IH hist nq (t ++ [image_load_call i; image_data_free i]))
          as (mid & Hmid & Ha & Hr & Hq).
        eexists. rewrite Hmid, <- app_assoc. split; [reflexivity|].
        split; [simpl; exact Ha|]. split; [simpl; exact Hr|].
        simpl. intros [H|[H|H]]; try discriminate H. exact (Hq H).
    + exists [image_load_call i]. simpl. split; [reflexivity|].
      split; [reflexivity|]. split; [reflexivity|]. intros [H|[]]. discriminate H.
Qed.

Lemma finish_cases (palette1 : palette_t) (lp : option (list liq_color))
    (es0 : list palette_entry_t) (mi0 : Z) (t : list event) :
  (exists f, finish palette1 lp es0 mi0 t = mk_run (Undefined f) palette1 t) \/
  (exists fs' es' n unused,
     resolve (mode palette1) lp (fixedEntries palette1) es0 mi0 =
       Ok (fs', es', n, unused) /\
     finish palette1 lp es0 mi0 t =
       mk_run Success (set_table (set_fixedEntries palette1 fs') es' n)
         (t ++ [generated_info n (Z.of_nat PALETTE_MAX_ENTRIES - n + unused);
                liq_result_destroy (bool_decide (is_Some lp));
                liq_histogram_destroy; liq_attr_destroy])).
Proof.
  unfold finish.
  destruct (resolve _ _ _ _ _) as [[[[fs' es'] n] unused]|f].
  - right. exists fs', es', n, unused. split; reflexivity.
  - left. exists f. reflexivity.
Qed.

Ltac lists := f_equal; repeat (rewrite <- app_assoc || simpl); reflexivity.

(** The four ways a run of [palette_generate_with_images] ends.  [mid] is
    what lies between the creation of the histogram and the calls that
    close the run. *)
Lemma palette_generate_with_images_cases (palette : palette_t) :
  let R := palette_generate_with_images palette in
  let palette1 := set_fixedEntries palette (seeded palette) in
  exists mid,
    List.filter attr_hist_event mid = [] /\
    List.filter result_destroy_event mid = [] /\
    ((R = mk_run (Failure ImageLoadFailure) palette1
            ([liq_attr_create; liq_histogram_create] ++ mid ++
             [liq_histogram_destroy; liq_attr_destroy]) /\
      ~ In liq_histogram_quantize_call mid) \/
     R = mk_run (Failure QuantizeFailure) palette1
           ([liq_attr_create; liq_histogram_create] ++
            (mid ++ [liq_histogram_quantize_call]) ++
            [liq_histogram_destroy; liq_attr_destroy]) \/
     (exists f t, R = mk_run (Undefined f) palette1 t) \/
     (exists liqpalette es0 maxIndex0 fs' es' n unused,
        resolve (mode palette) liqpalette (seeded palette) es0 maxIndex0 =
          Ok (fs', es', n, unused) /\
        (is_Some liqpalette <-> In liq_histogram_quantize_call mid) /\
        R = mk_run Success (set_table (set_fixedEntries palette1 fs') es' n)
              ([liq_attr_create; liq_histogram_create] ++
               (mid ++
                [generated_info n (Z.of_nat PALETTE_MAX_ENTRIES - n + unused);
                 liq_result_destroy (bool_decide (is_Some liqpalette))]) ++
               [liq_histogram_destroy; liq_attr_destroy]))).
Proof.
  intros R palette1. subst R palette1.
  rewrite palette_generate_with_images_unfold.
  destruct (read_images_events (seeded palette) (mode palette) (capacity palette)
              (images palette) (seeds palette) false
              [liq_attr_create; liq_histogram_create])
    as (mid & Ht & Ha & Hr & Hq).
  destruct (read_images _ _ _ _ _ _ _) as [[[hist nq]|] t]; simpl in Ht; subst t.
  - destruct nq.
    + unfold quantized.
      destruct (liq_histogram_quantize _ _) as [lq|].
      * destruct (store_quantized _ _ _ _ _) as [[es0 mi0]|f].
        -- exists (mid ++ [liq_histogram_quantize_call]).
           split; [rewrite List.filter_app, Ha; reflexivity|].
           split; [rewrite List.filter_app, Hr; reflexivity|].
           right. right.
           destruct (finish_cases (set_fixedEntries palette (seeded palette))
                       (Some lq) es0 mi0
                       ((liq_attr_create :: liq_histogram_create :: mid) ++
                        [liq_histogram_quantize_call]))
             as [(f & Hu) | (fs' & es' & n & u & Hres & HF)].
           ++ left. eexists _, _. exact Hu.
           ++ right. exists (Some lq), es0, mi0, fs', es', n, u.
              split; [exact Hres|]. split; [|rewrite HF; lists].
              split; [intros _; apply in_or_app; right; left; reflexivity|].
              intros _. eexists. reflexivity.
        -- exists mid. split; [exact Ha|]. split; [exact Hr|]. right. right. left.
           eexists _, _. reflexivity.
      * exists mid. split; [exact Ha|]. split; [exact Hr|]. right. left. lists.
    + exists mid. split; [exact Ha|]. split; [exact Hr|]. right. right.
      destruct (finish_cases (set_fixedEntries palette (seeded palette))
                  None (entries palette) (-1)
                  (liq_attr_create :: liq_histogram_create :: mid))
        as [(f & Hu) | (fs' & es' & n & u & Hres & HF)].
      * left. eexists _, _. exact Hu.
      * right. exists None, (entries palette), (-1), fs', es', n, u.
        split; [exact Hres|]. split; [|rewrite HF; lists].
        split; [intros [x Hx]; discriminate Hx | intros H; destruct (Hq H)].
  - exists mid. split; [exact Ha|]. split; [exact Hr|].
    left. split; [|exact Hq]. lists.
Qed.


Lemma finish_out (palette1 : palette_t) (lp : option (list liq_color))
    (es : list palette_entry_t) (maxIndex : Z) (t : list event) (e : error) :
  out (finish palette1 lp es maxIndex t) <> Failure e.
Proof.
  destruct (finish_cases palette1 lp es maxIndex t)
    as [(f & ->) | (fs' & es' & n & u & _ & ->)]; discriminate.
Qed.

Lemma collect_cases (palette : palette_t) (converts : list convert_t) :
  (exists l, collect palette converts =
             (0, set_images palette (images palette ++ l))) \/
  (automatic palette = true /\
   (exists i, In i (candidates (name palette) converts) /\ path i = None) /\
   exists l, collect palette converts =
             (1, set_images palette (images palette ++ l))).
Proof.
  unfold collect. destruct (automatic palette).
  - rewrite palette_automatic_build_flat.
    destruct (first_missing_path (candidates (name palette) converts))
      as [Hall | (l1 & i & l2 & Hl & Hl1 & Hi)].
    + left. rewrite (add_images_ok _ palette Hall). eexists. reflexivity.
    + right. split; [reflexivity|]. split.
      * exists i. split; [rewrite Hl; apply in_elt | exact Hi].
      * rewrite Hl, (add_images_fail l1 l2 i palette Hl1 Hi). eexists. reflexivity.
  - left. exists []. rewrite app_nil_r, set_images_id. reflexivity.
Qed.

(** X5.  A failing [palette_generate] leaves the table and [numEntries] as
    they were, and each failure has its cause: the automatic collection
    fails on an image without a path, [TooManyFixedColors] is reported when
    the fixed entries outnumber [maxEntries], [EmptyPalette] when there are
    neither images nor fixed entries, the failure of [image_load] when one
    of the palette's images does not load, and the failure of the quantizer
    after it was called.  A palette with a builtin name never fails. *)
Theorem failure_has_cause (palette : palette_t) (converts : list convert_t)
    (e : error) :
  let R := palette_generate palette converts in
  out R = Failure e ->
  reserved (name palette) = None /\
  entries (pal R) = entries palette /\
  numEntries (pal R) = numEntries palette /\
  cause e palette converts R.
Proof.
  intros R Hout. subst R.
  destruct (reserved (name palette)) as [table|] eqn:Hname.
  { exfalso. unfold reserved, palette_generate, palette_generate_builtin in *.
    destruct (String.eqb (name palette) "xlibc").
    - destruct (builtin_loop _ _ _ _ _); discriminate Hout.
    - destruct (String.eqb (name palette) "rgb332"); [|discriminate Hname].
      destruct (builtin_loop _ _ _ _ _); discriminate Hout. }
  split; [reflexivity|].
  rewrite (palette_generate_custom _ _ Hname) in Hout |- *.
  destruct (collect_cases palette converts)
    as [(l & Hc) | (Hauto & Hmiss & l & Hc)]; rewrite Hc in Hout |- *.
  - cbn [negb Z.eqb] in Hout |- *.
    change (maxEntries (set_images palette (images palette ++ l)))
      with (maxEntries palette) in Hout |- *.
    change (numFixedEntries (set_images palette (images palette ++ l)))
      with (numFixedEntries palette) in Hout |- *.
    destruct (Z.ltb_spec (maxEntries palette) (numFixedEntries palette)).
    { inversion Hout; subst. simpl. repeat split; auto. }
    destruct (Z.ltb_spec 0 (numImages (set_images palette (images palette ++ l))))
      as [Himg|Himg].
    + set (palette1 := set_images palette (images palette ++ l)) in *.
      destruct (first_failing_image (processed palette1))
        as [Hall | (l1 & i & l2 & Hl & Hl1 & Hi)].
      * rewrite (palette_generate_with_images_loaded palette1 Hall) in Hout |- *.
        destruct (nonempty (rows (histogram palette1)));
          [|exfalso; exact (finish_out _ _ _ _ _ _ Hout)].
        unfold quantized in Hout |- *.
        destruct (liq_histogram_quantize _ _) as [lq|].
        -- exfalso. destruct (store_quantized _ _ _ _ _) as [[es0 mi0]|f];
             [exact (finish_out _ _ _ _ _ _ Hout) | discriminate Hout].
        -- inversion Hout; subst. simpl. repeat split.
           right. right. apply in_or_app. right. left. reflexivity.
      * rewrite (palette_generate_with_images_failed palette1 l1 l2 i Hl Hl1 Hi)
          in Hout |- *.
        inversion Hout; subst. simpl. repeat split.
        exists i. split; [|exact Hi].
        apply (processed_images palette1). rewrite Hl. apply in_elt.
    + change (numFixedEntries (set_images palette (images palette ++ l)))
        with (numFixedEntries palette) in Hout |- *.
      destruct (Z.eqb_spec (numFixedEntries palette) 0) as [Hz|Hz].
      * inversion Hout; subst. simpl. repeat split.
        -- unfold numFixedEntries in Hz.
           destruct (fixedEntries palette); [reflexivity | simpl in Hz; lia].
        -- unfold numImages in Himg. simpl in Himg.
           destruct (images palette ++ l); [reflexivity | simpl in Himg; lia].
      * destruct (copy_fixed _ _ _) as [[es mi]|f]; discriminate Hout.
  - cbn [negb Z.eqb] in Hout |- *. inversion Hout; subst. simpl.
    repeat split; auto.
Qed.

(** ** Image buffers *)

Lemma image_events_buffers (fs : list palette_entry_t) (m : color_mode_t)
    (l : list image_t) :
  List.filter buffer_event (concat (map (image_events fs m) l)) =
  flat_map (fun i => [image_load_call i; image_data_free i]) l.
Proof.
  induction l as [|i l IH]; [reflexivity|].
  simpl. rewrite List.filter_app, IH. unfold image_events.
  destruct (submitted_row fs m i); reflexivity.
Qed.

Lemma finish_tail (palette1 : palette_t) (lp : option (list liq_color))
    (es : list palette_entry_t) (maxIndex : Z) (t : list event) :
  exists tail,
    trace (finish palette1 lp es maxIndex t) = t ++ tail /\
    List.filter buffer_event tail = [].
Proof.
  destruct (finish_cases palette1 lp es maxIndex t)
    as [(f & ->) | (fs' & es' & n & u & _ & ->)]; simpl.
  - exists []. rewrite app_nil_r. split; reflexivity.
  - eexists. split; reflexivity.
Qed.

Lemma quantized_tail (palette1 : palette_t) (es : list palette_entry_t)
    (answer : option (list liq_color)) (t : list event) :
  exists tail,
    trace (quantized palette1 es answer t) = t ++ tail /\
    List.filter buffer_event tail = [].
Proof.
  unfold quantized. destruct answer as [l|].
  - destruct (store_quantized _ _ _ _ _) as [[es' mi]|f].
    + destruct (finish_tail palette1 (Some l) es' mi
                  (t ++ [liq_histogram_quantize_call])) as (tail & -> & Hf).
      exists (liq_histogram_quantize_call :: tail).
      rewrite <- app_assoc. split; [reflexivity | exact Hf].
    + eexists. split; reflexivity.
  - eexists. split; reflexivity.
Qed.

(** X6.  In every run of [palette_generate_with_images] the image buffers
    are loaded one at a time, in the order of the list, and each one that
    was loaded is released before the next is asked for: either every image
    the loop reaches loads and the calls on buffers are a load and a release
    per image, or the first image that does not load ends the run with the
    failure of [image_load], after a load and a release for each image
    before it and the load that failed. *)
Theorem buffers_freed (palette : palette_t) :
  let R := palette_generate_with_images palette in
  let both := fun i => [image_load_call i; image_data_free i] in
  (Forall (fun i => is_Some (image_load i)) (processed palette) /\
   List.filter buffer_event (trace R) = flat_map both (processed palette)) \/
  (exists l1 i l2,
     processed palette = l1 ++ i :: l2 /\
     Forall (fun i => is_Some (image_load i)) l1 /\
     image_load i = None /\
     out R = Failure ImageLoadFailure /\
     List.filter buffer_event (trace R) = flat_map both l1 ++ [image_load_call i]).
Proof.
  intros R both. subst R both.
  destruct (first_failing_image (processed palette))
    as [Hall | (l1 & i & l2 & Hl & Hl1 & Hi)].
  - left. split; [exact Hall|].
    rewrite (palette_generate_with_images_loaded palette Hall).
    assert (Hload : List.filter buffer_event (loading_trace palette) =
                    flat_map (fun i => [image_load_call i; image_data_free i])
                      (processed palette)).
    { unfold loading_trace. rewrite List.filter_app, image_events_buffers.
      reflexivity. }
    destruct (nonempty (rows (histogram palette))).
    + destruct (quantized_tail (set_fixedEntries palette (seeded palette))
                  (entries palette)
                  (liq_histogram_quantize (histogram palette)
                     (mk_attr (quantizeSpeed palette) (capacity palette)))
                  (loading_trace palette)) as (tail & -> & Hf).
      rewrite List.filter_app, Hf, app_nil_r. exact Hload.
    + destruct (finish_tail (set_fixedEntries palette (seeded palette)) None
                  (entries palette) (-1) (loading_trace palette))
        as (tail & -> & Hf).
      rewrite List.filter_app, Hf, app_nil_r. exact Hload.
  - right. exists l1, i, l2. split; [exact Hl|]. split; [exact Hl1|].
    split; [exact Hi|].
    rewrite (palette_generate_with_images_failed palette l1 l2 i Hl Hl1 Hi).
    split; [reflexivity|]. simpl.
    rewrite List.filter_app, image_events_buffers. reflexivity.
Qed.

(** ** The fixed entries after a run *)

Lemma place_exact_all_entries (m : color_mode_t) (fs : list palette_entry_t) :
  forall (fs' es es' : list palette_entry_t) (maxIndex maxIndex' : Z),
    place_exact_all m fs es maxIndex = Ok (fs', es', maxIndex') ->
    fs' = map (fun f => if exact f then converted m f else f) fs.
Proof.
  induction fs as [|f fs IH]; intros fs' es es' maxIndex maxIndex' H.
  - inversion H; subst. reflexivity.
  - simpl in H. destruct (exact f) eqn:E; simpl in H; steps H; inversion H; subst.
    + destruct (place_exact_Ok _ _ _ _ _ _ _ Hx) as (-> & _).
      simpl. rewrite E, (IH _ _ _ _ _ Hx0). reflexivity.
    + simpl. rewrite E, (IH _ _ _ _ _ Hx). reflexivity.
Qed.

Lemma resolve_entries (m : color_mode_t) (lp : option (list liq_color))
    (fs fs' es es' : list palette_entry_t) (maxIndex n unused : Z) :
  resolve m lp fs es maxIndex = Ok (fs', es', n, unused) ->
  fs' = map (fun f => if exact f then converted m f else f) fs.
Proof.
  unfold resolve. intros H. steps H. inversion H; subst.
  eapply place_exact_all_entries. eassumption.
Qed.

Lemma converted_seed (m : color_mode_t) (fs : list palette_entry_t) :
  map (fun f => if exact f then converted m f else f) (map (seed m) fs) =
  map (converted m) fs.
Proof.
  rewrite map_map. apply map_ext. intros f. unfold seed, converted.
  destruct (exact f) eqn:E; [rewrite E; reflexivity|].
  simpl. rewrite E. reflexivity.
Qed.

(** X7.  After a run of [palette_generate_with_images] that returns 0 every
    fixed entry of the palette holds its colour converted once to the
    palette's mode, exact or not, and nothing else of it changed; after a
    failing run the entries that are not exact are converted and the exact
    ones are as they were. *)
Theorem fixed_entries_converted (palette : palette_t) :
  let R := palette_generate_with_images palette in
  match out R with
  | Success =>
      fixedEntries (pal R) = map (converted (mode palette)) (fixedEntries palette)
  | Failure _ =>
      fixedEntries (pal R) = map (seed (mode palette)) (fixedEntries palette)
  | Undefined _ => True
  end.
Proof.
  intros R. subst R.
  destruct (palette_generate_with_images_cases palette)
    as (mid & _ & _ & [[HR _] | [HR | [(f & t & HR) |
         (lp & es0 & mi0 & fs' & es' & n & u & Hres & _ & HR)]]]);
    rewrite HR; simpl; try apply seeded_map; [exact I|].
  rewrite (resolve_entries _ _ _ _ _ _ _ _ _ Hres), seeded_map.
  apply converted_seed.
Qed.

(** ** What [palette_generate] leaves alone *)




(** ** A palette with room for one colour at most *)

(** X9.  When [maxEntries] exceeds the number of exact fixed entries by
    one at most (the difference being a value of [int], so that the
    subtraction of line 291 does not wrap), [palette_generate_with_images]
    reads no image at all: nothing is loaded, the quantizer is not called,
    and the run is the resolution of the fixed entries over the table as it
    was, which reads the palette of the quantizer through [NULL] as soon as
    one fixed entry is not exact. *)
Theorem small_capacity_reads_nothing (palette : palette_t) :
  INT_MIN <=
    maxEntries palette -
    Z.of_nat (length (List.filter exact (fixedEntries palette))) <= 1 ->
  let R := palette_generate_with_images palette in
  R = finish (set_fixedEntries palette (seeded palette)) None (entries palette)
        (-1) [liq_attr_create; liq_histogram_create] /\
  List.filter buffer_event (trace R) = [] /\
  ~ In liq_histogram_quantize_call (trace R) /\
  (forallb exact (fixedEntries palette) = false ->
   out R = Undefined NullDereference).
Proof.
  intros Hcap R. subst R.
  assert (Hproc : processed palette = []).
  { unfold processed, capacity. rewrite count_exact_length.
    rewrite int_sub_in_range by lia.
    destruct (Z.ltb_spec 1
                (maxEntries palette -
                 (0 + Z.of_nat (length (List.filter exact (fixedEntries palette))))));
      [lia | reflexivity]. }
  assert (Hskip : forall i, In i (processed palette) ->
            exists data, image_load i = Some data /\
                         survivors (fixedEntries palette) data = []).
  { rewrite Hproc. intros i []. }
  destruct (quantizer_skipped palette Hskip) as [HR Hq].
  assert (Hload : loading_trace palette = [liq_attr_create; liq_histogram_create]).
  { unfold loading_trace. rewrite Hproc. reflexivity. }
  rewrite Hload in HR.
  split; [exact HR|]. split; [|split; [exact Hq|]].
  - rewrite HR.
    destruct (finish_tail (set_fixedEntries palette (seeded palette)) None
                (entries palette) (-1) [liq_attr_create; liq_histogram_create])
      as (tail & -> & Hf).
    rewrite List.filter_app, Hf. reflexivity.
  - intros Hex. apply null_palette_dereferenced; [rewrite Hproc; constructor | | exact Hex].
    unfold histogram. rewrite Hproc. reflexivity.
Qed.

(** ** What the quantizer is given *)

Lemma add_fixed_colors_snd (m : color_mode_t) (fs : list palette_entry_t) :
  forall hist,
    fixed_colors (snd (add_fixed_colors m fs hist)) =
    fixed_colors hist ++
    map (fun f => rgb (color_convert (color f) m))
      (List.filter (fun f => negb (exact f)) fs).
Proof.
  induction fs as [|f fs IH]; intros hist; simpl; [rewrite app_nil_r; reflexivity|].
  destruct (exact f); simpl.
  - specialize (IH hist).
    destruct (add_fixed_colors m fs hist) as [rest' hist']. exact IH.
  - specialize (IH (liq_histogram_add_fixed_color hist
                      (rgb (color (set_color f (color_convert (color f) m)))))).
    destruct (add_fixed_colors m fs _) as [rest' hist'].
    simpl in IH |- *. rewrite IH, <- app_assoc. reflexivity.
Qed.

(** X10.  When [palette_generate_with_images] calls the quantizer, and
    [maxEntries] less the number of exact fixed entries is a value of
    [int] (the subtraction of line 291 does not wrap), the ceiling it has
    set is this difference, the speed is the palette's, and the fixed colours of the
    histogram are the colours of the fixed entries that are not exact,
    converted to the palette's mode, in the order of the entries; what
    follows the call depends on the quantizer's answer to this input
    only. *)
Theorem quantizer_input (palette : palette_t) :
  let R := palette_generate_with_images palette in
  let fs := fixedEntries palette in
  INT_MIN <= maxEntries palette - Z.of_nat (length (List.filter exact fs)) ->
  In liq_histogram_quantize_call (trace R) ->
  exists hist attr,
    R = quantized (set_fixedEntries palette (seeded palette)) (entries palette)
          (liq_histogram_quantize hist attr) (loading_trace palette) /\
    max_colors attr = maxEntries palette - Z.of_nat (length (List.filter exact fs)) /\
    1 < max_colors attr /\
    speed attr = quantizeSpeed palette /\
    fixed_colors hist =
      map (fun f => rgb (color_convert (color f) (mode palette)))
        (List.filter (fun f => negb (exact f)) fs) /\
    rows hist = submitted_rows fs (mode palette) (images palette) /\
    rows hist <> [].
Proof.
  intros R fs Hrange Hq. subst R fs.
  pose proof (quantizer_called palette Hq) as HR.
  exists (histogram palette),
    (mk_attr (quantizeSpeed palette) (capacity palette)).
  split; [exact HR|].
  assert (Hcap : capacity palette =
            maxEntries palette -
            Z.of_nat (length (List.filter exact (fixedEntries palette)))).
  { unfold capacity. rewrite count_exact_length.
    rewrite int_sub_in_range by lia. lia. }
  assert (Hproc : processed palette <> []).
  { intros Hproc.
    assert (Hskip : forall i, In i (processed palette) ->
              exists data, image_load i = Some data /\
                           survivors (fixedEntries palette) data = []).
    { rewrite Hproc. intros i []. }
    destruct (quantizer_skipped palette Hskip) as [_ Hno]. exact (Hno Hq). }
  assert (Hlt : 1 < capacity palette).
  { unfold processed in Hproc.
    destruct (Z.ltb_spec 1 (capacity palette)); [assumption | congruence]. }
  assert (Himg : processed palette = images palette).
  { unfold processed. destruct (Z.ltb_spec 1 (capacity palette)); [reflexivity | lia]. }
  simpl. split; [exact Hcap|]. split; [exact Hlt|].
  split; [reflexivity|]. split.
  - unfold seeds. rewrite add_fixed_colors_snd. reflexivity.
  - rewrite Himg. split; [reflexivity|].
    intros Hrows.
    destruct (first_failing_image (processed palette))
      as [Hall | (l1 & i & l2 & Hl & Hl1 & Hi)].
    + pose proof (palette_generate_with_images_loaded palette Hall) as HR'.
      assert (Hr : rows (histogram palette) = [])
        by (unfold histogram; simpl; rewrite Himg; exact Hrows).
      rewrite Hr in HR'. simpl in HR'. rewrite HR' in Hq.
      apply finish_trace in Hq.
      destruct Hq as [Hq | [(n & u & Hq) | [(p & Hq) | [Hq | Hq]]]];
        try discriminate Hq.
      unfold loading_trace in Hq. apply in_app_or in Hq.
      destruct Hq as [[Hq|[Hq|[]]] | Hq]; try discriminate Hq.
      exact (image_events_no_quantize _ _ _ Hq).
    + rewrite (palette_generate_with_images_failed palette l1 l2 i Hl Hl1 Hi) in Hq.
      simpl in Hq. destruct Hq as [Hq|[Hq|Hq]]; try discriminate Hq.
      apply in_app_or in Hq. destruct Hq as [Hq | [Hq|[Hq|[Hq|[]]]]];
        try discriminate Hq.
      exact (image_events_no_quantize _ _ _ Hq).
Qed.

(** ** A palette without fixed entries *)

Lemma no_invalid_prefix (es : list palette_entry_t) (n : nat) :
  (forall k, (k < n)%nat -> exists e, es !! k = Some e /\ valid e = true) ->
  List.filter (fun e => negb (valid e)) (take n es) = [].
Proof.
  revert es. induction n as [|n IH]; intros es H; [rewrite take_0; reflexivity|].
  destruct es as [|e es].
  - reflexivity.
  - simpl. destruct (H 0%nat) as (e0 & He0 & Hv); [lia|].
    simpl in He0. inversion He0; subst e0. rewrite Hv. simpl.
    apply IH. intros k Hk. apply (H (S k)). lia.
Qed.

(** X11.  For a palette without fixed entries whose images all load and
    leave at least one row of pixels, when the quantizer answers with the
    colours [l] and the table has a slot for each of them,
    [palette_generate_with_images] returns 0 with the colours of [l],
    converted to the palette's mode, in the first slots of the table in the
    quantizer's order, all valid; [numEntries] is the number of colours, no
    slot below it is counted as unused, and the slots above are as they
    were. *)
Theorem quantizer_palette_stored (palette : palette_t) (l : list liq_color) :
  fixedEntries palette = [] ->
  1 < maxEntries palette ->
  Forall (fun i => is_Some (image_load i)) (images palette) ->
  submitted_rows [] (mode palette) (images palette) <> [] ->
  liq_histogram_quantize
    (mk_hist [] (submitted_rows [] (mode palette) (images palette)))
    (mk_attr (quantizeSpeed palette) (maxEntries palette)) = Some l ->
  (length l <= length (entries palette))%nat ->
  let R := palette_generate_with_images palette in
  out R = Success /\
  numEntries (pal R) = Z.of_nat (length l) /\
  (forall k c, l !! k = Some c ->
     exists e, entries (pal R) !! k = Some e /\ valid e = true /\
               color e = stored_color (mode palette) c) /\
  (forall k, (length l <= k)%nat ->
     entries (pal R) !! k = entries palette !! k) /\
  In (generated_info (Z.of_nat (length l))
        (Z.of_nat PALETTE_MAX_ENTRIES - Z.of_nat (length l))) (trace R).
Proof.
  intros Hfs Hmax Hload Hrows Hans Hlen R. subst R.
  assert (Hcap : capacity palette = maxEntries palette).
  { unfold capacity. rewrite Hfs. simpl.
    rewrite int_sub_in_range by (unfold INT_MIN; lia). lia. }
  assert (Hproc : processed palette = images palette).
  { unfold processed. rewrite Hcap.
    destruct (Z.ltb_spec 1 (maxEntries palette)); [reflexivity | lia]. }
  assert (Hseeded : seeded palette = []).
  { unfold seeded. rewrite Hfs. reflexivity. }
  assert (Hhist : histogram palette =
            mk_hist [] (submitted_rows [] (mode palette) (images palette))).
  { unfold histogram, seeds. rewrite Hfs, Hproc. reflexivity. }
  rewrite palette_generate_with_images_loaded by (rewrite Hproc; exact Hload).
  rewrite Hhist, Hcap, Hans.
  cbn [rows]. destruct (submitted_rows [] (mode palette) (images palette))
    as [|row rs] eqn:Hsub; [contradiction|].
  cbn [nonempty]. unfold quantized.
  destruct (store_quantized_total (mode palette) l 0 (entries palette) (-1))
    as (es0 & mi0 & Hst); [lia|].
  change (mode (set_fixedEntries palette (seeded palette))) with (mode palette).
  rewrite Hst.
  destruct (store_quantized_spec _ _ _ _ _ _ _ Hst) as (L & _ & Hout & Hin & Hmi).
  assert (Hmi0 : mi0 + 1 = Z.of_nat (length l)).
  { rewrite Hmi. destruct l; simpl length; lia. }
  assert (Hres : resolve (mode palette) (Some l) [] es0 mi0 = Ok ([], es0, mi0 + 1, 0)).
  { unfold resolve. cbn [place_fixed_all place_exact_all]. rewrite !ok_bind.
    destruct (count_unused_total es0 (Z.to_nat (mi0 + 1)) 0 0) as (u & Hu); [lia|].
    rewrite Hu, ok_bind.
    rewrite (count_unused_spec _ _ _ _ _ Hu), drop_0, no_invalid_prefix;
      [reflexivity|].
    intros k Hk.
    destruct (lookup_lt_is_Some_2 l k) as [c Hc]; [lia|].
    destruct (Hin k c Hc) as (e & He & Hv & _). exists e. split; assumption. }
  unfold finish.
  change (fixedEntries (set_fixedEntries palette (seeded palette)))
    with (seeded palette).
  change (mode (set_fixedEntries palette (seeded palette))) with (mode palette).
  rewrite Hseeded, Hres. cbn [out pal trace].
  split; [reflexivity|]. split; [exact Hmi0|]. split; [|split].
  - intros k c Hc. destruct (Hin k c Hc) as (e & He & Hv & Hcol).
    exists e. split; [exact He | split; assumption].
  - intros k Hk. apply Hout. lia.
  - apply in_or_app. right. left. rewrite Hmi0. f_equal. lia.
Qed.

(** ** Exact entries on their own *)

Lemma place_exact_slots_length (m : color_mode_t) (fs : list palette_entry_t) :
  forall es, length (place_exact_slots m es fs) = length es.
Proof.
  induction fs as [|f fs IH]; intros es; [reflexivity|].
  unfold place_exact_slots in *. simpl. rewrite IH. apply length_insert.
Qed.

Lemma place_exact_slots_other (m : color_mode_t) (fs : list palette_entry_t)
    (k : nat) :
  (forall f, In f fs -> index f <> k) ->
  forall es, place_exact_slots m es fs !! k = es !! k.
Proof.
  induction fs as [|f fs IH]; intros H es; [reflexivity|].
  unfold place_exact_slots in *. simpl. rewrite IH.
  - apply list_lookup_insert_ne. apply H. left. reflexivity.
  - intros g Hg. apply H. right. exact Hg.
Qed.

Lemma place_exact_slots_at (m : color_mode_t) (fs : list palette_entry_t) :
  forall (es : list palette_entry_t) (f : palette_entry_t),
    NoDup (map index fs) ->
    In f fs -> (index f < length es)%nat ->
    place_exact_slots m es fs !! index f = Some (exact_slot m f).
Proof.
  induction fs as [|g fs IH]; intros es f Hnd Hin Hlt; [destruct Hin|].
  simpl in Hnd. apply NoDup_cons in Hnd as [Hg Hnd].
  change (place_exact_slots m es (g :: fs))
    with (place_exact_slots m (<[index g := exact_slot m g]> es) fs).
  destruct Hin as [->|Hin].
  - rewrite place_exact_slots_other.
    + apply list_lookup_insert_eq. exact Hlt.
    + intros h Hh E. apply Hg. rewrite <- E. apply list_elem_of_In, in_map. exact Hh.
  - apply IH; [exact Hnd | exact Hin | rewrite length_insert; exact Hlt].
Qed.

Lemma raise_all_below (fs : list palette_entry_t) (bound : Z) :
  forall maxIndex : Z,
    maxIndex < bound ->
    Forall (fun f => Z.of_nat (index f) < bound) fs ->
    -1 <= maxIndex ->
    -1 <= raise_all maxIndex fs < bound.
Proof.
  induction fs as [|f fs IH]; intros maxIndex Hlt Hall Hge; [simpl; lia|].
  apply Forall_cons in Hall as [Hf Hall].
  change (raise_all maxIndex (f :: fs))
    with (raise_all (raise_to maxIndex (index f)) fs).
  apply IH; [| exact Hall |]; rewrite raise_to_max; lia.
Qed.

Lemma place_exact_all_free (m : color_mode_t) (fs : list palette_entry_t) :
  forall (es : list palette_entry_t) (maxIndex : Z),
    forallb exact fs = true ->
    NoDup (map index fs) ->
    Forall (fun f => exists e, es !! index f = Some e /\ valid e = false) fs ->
    place_exact_all m fs es maxIndex =
    Ok (map (converted m) fs, place_exact_slots m es fs, raise_all maxIndex fs).
Proof.
  induction fs as [|f fs IH]; intros es maxIndex Hex Hnd Hfree; [reflexivity|].
  simpl in Hex. apply andb_true_iff in Hex as [Hf Hex].
  simpl in Hnd. apply NoDup_cons in Hnd as [Hnf Hnd].
  apply Forall_cons in Hfree as [(occ & Hocc & Hv) Hfree].
  assert (Hlt : (index f < length es)%nat) by (eapply lookup_lt_Some; exact Hocc).
  cbn [place_exact_all]. rewrite Hf. cbn [negb].
  assert (Hstep : place_exact m f es maxIndex =
            Ok (converted m f, <[index f := exact_slot m f]> es,
                raise_to maxIndex (index f))).
  { unfold place_exact.
    change (index (set_color f (color_convert (color f) m))) with (index f).
    apply read_Ok in Hocc. rewrite Hocc, ok_bind, Hv, ok_bind.
    rewrite write_lt by exact Hlt. reflexivity. }
  rewrite Hstep, ok_bind.
  rewrite (IH (<[index f := exact_slot m f]> es) (raise_to maxIndex (index f)) Hex Hnd).
  - reflexivity.
  - apply List.Forall_forall. intros g Hg.
    rewrite List.Forall_forall in Hfree. destruct (Hfree g Hg) as (e & He & Hve).
    exists e. split; [|exact Hve].
    rewrite list_lookup_insert_ne; [exact He|].
    intros E. apply Hnf. rewrite E. apply list_elem_of_In, in_map. exact Hg.
Qed.

Lemma seed_exact (m : color_mode_t) (fs : list palette_entry_t) :
  forallb exact fs = true -> map (seed m) fs = fs.
Proof.
  induction fs as [|f fs IH]; intros H; [reflexivity|].
  simpl in H. apply andb_true_iff in H as [Hf H].
  simpl. rewrite (IH H). unfold seed. rewrite Hf. reflexivity.
Qed.

(** X12.  When every fixed entry is exact, the pinned indices are distinct
    and name slots of the table that are not valid, and no pixel of the
    images survives the filter, [palette_generate_with_images] returns 0
    without calling the quantizer: every fixed entry is in the slot of its
    pinned index, converted and valid, the other slots are as they were,
    and [numEntries] is one more than the highest pinned index. *)
Theorem exact_entries_alone (palette : palette_t) :
  let fs := fixedEntries palette in
  let R := palette_generate_with_images palette in
  forallb exact fs = true ->
  NoDup (map index fs) ->
  Forall (fun f => exists e, entries palette !! index f = Some e /\
                             valid e = false) fs ->
  (forall i, In i (processed palette) ->
     exists data, image_load i = Some data /\ survivors fs data = []) ->
  out R = Success /\
  ~ In liq_histogram_quantize_call (trace R) /\
  (forall f, In f fs ->
     entries (pal R) !! index f = Some (exact_slot (mode palette) f)) /\
  (forall k, (forall f, In f fs -> index f <> k) ->
     entries (pal R) !! k = entries palette !! k) /\
  numEntries (pal R) = raise_all (-1) fs + 1.
Proof.
  intros fs R Hex Hnd Hfree Hskip. subst fs R.
  destruct (quantizer_skipped palette Hskip) as [HR Hq].
  assert (Hres : exists u,
            resolve (mode palette) None (seeded palette) (entries palette) (-1) =
            Ok (map (converted (mode palette)) (fixedEntries palette),
                place_exact_slots (mode palette) (entries palette)
                  (fixedEntries palette),
                raise_all (-1) (fixedEntries palette) + 1, u)).
  { rewrite seeded_map, (seed_exact _ _ Hex).
    unfold resolve. rewrite place_fixed_all_null, Hex, ok_bind.
    rewrite (place_exact_all_free _ _ _ _ Hex Hnd Hfree), ok_bind.
    destruct (count_unused_total
                (place_exact_slots (mode palette) (entries palette)
                   (fixedEntries palette))
                (Z.to_nat (raise_all (-1) (fixedEntries palette) + 1)) 0 0)
      as (u & Hu).
    { rewrite place_exact_slots_length.
      assert (Hb : -1 <= raise_all (-1) (fixedEntries palette)
                   < Z.of_nat (length (entries palette))).
      { apply raise_all_below; [lia | | lia].
        eapply Forall_impl; [exact Hfree|].
        intros f (e & He & _). apply lookup_lt_Some in He. lia. }
      lia. }
    exists u. rewrite Hu. reflexivity. }
  destruct Hres as (u & Hres).
  split; [|split; [exact Hq|]]; rewrite HR; unfold finish;
    change (fixedEntries (set_fixedEntries palette (seeded palette)))
      with (seeded palette);
    change (mode (set_fixedEntries palette (seeded palette))) with (mode palette);
    rewrite Hres; cbn [out pal]; [reflexivity|].
  cbn [set_table entries numEntries].
  split; [|split; [|reflexivity]].
  - intros f Hf. apply place_exact_slots_at; [exact Hnd | exact Hf |].
    rewrite List.Forall_forall in Hfree.
    destruct (Hfree f Hf) as (e & He & _). eapply lookup_lt_Some; exact He.
  - intros k Hk. apply place_exact_slots_other. exact Hk.
Qed.

(** ** A fixed colour that the quantizer kept *)

Lemma same_rgb_eq (x y : liq_color) :
  same_rgb x y = true <-> r x = r y /\ g x = g y /\ b x = b y.
Proof.
  unfold same_rgb. rewrite !andb_true_iff, !Z.eqb_eq. tauto.
Qed.

Lemma same_rgb_join (x y z : liq_color) :
  same_rgb x z = true -> same_rgb y z = true -> same_rgb x y = true.
Proof.
  rewrite !same_rgb_eq. intros (-> & -> & ->) (-> & -> & ->). tauto.
Qed.

Lemma find_color_missed (fixedEntry : palette_entry_t)
    (es : list palette_entry_t) (n : nat) :
  forall j : nat,
    find_color fixedEntry es j n = Ok None ->
    forall k entry, (j <= k < j + n)%nat -> es !! k = Some entry ->
      same_rgb (rgb (color fixedEntry)) (rgb (color entry)) = false.
Proof.
  induction n as [|n IH]; intros j H k entry Hk He; [lia|].
  simpl in H. steps H. apply read_Ok in Hx.
  destruct (same_rgb (rgb (color fixedEntry)) (rgb (color x))) eqn:E;
    [discriminate H|].
  destruct (decide (k = j)) as [->|Hne].
  - rewrite Hx in He. inversion He; subst. exact E.
  - apply (IH (S j) H k entry); [lia | exact He].
Qed.

Lemma place_fixed_keeps_pinned (l : list liq_color) (f g : palette_entry_t)
    (es es' : list palette_entry_t) (maxIndex maxIndex' : Z) :
  place_fixed (Some l) g es maxIndex = Ok (es', maxIndex') ->
  index g <> index f -> apart f g ->
  pinned f es -> pinned f es'.
Proof.
  unfold place_fixed, apart. intros H Hidx Hap (e & He & Hv & Hc).
  destruct (exact g); [inversion H; subst; exists e; auto|].
  steps H. destruct x as [j|]; [|inversion H; subst; exists e; auto].
  destruct (find_color_found _ _ _ _ _ Hx) as (_ & entry & Hj & Hm).
  apply swap_into_place_Ok in H as (tmp & displaced & Htmp & _ & -> & _).
  exists e. split; [|auto].
  rewrite list_lookup_insert_ne by exact Hidx.
  rewrite list_lookup_insert_ne; [exact He|].
  intros ->. rewrite Hj in He. inversion He; subst entry.
  rewrite (same_rgb_join _ _ _ Hc Hm) in Hap. discriminate (Hap eq_refl).
Qed.

Lemma place_fixed_keeps_in_range (l : list liq_color) (f g : palette_entry_t)
    (es es' : list palette_entry_t) (maxIndex maxIndex' : Z) :
  place_fixed (Some l) g es maxIndex = Ok (es', maxIndex') ->
  apart f g ->
  in_range (length l) f es -> in_range (length l) f es'.
Proof.
  unfold place_fixed, apart. intros H Hap (k & e & Hk & He & Hc).
  destruct (exact g); [inversion H; subst; exists k, e; auto|].
  steps H. destruct x as [j|]; [|inversion H; subst; exists k, e; auto].
  destruct (find_color_found _ _ _ _ _ Hx) as (Hj & entry & Hje & Hm).
  apply swap_into_place_Ok in H as (tmp & displaced & Htmp & Hd & -> & _).
  assert (Hkj : k <> j).
  { intros ->. rewrite Hje in He. inversion He; subst entry.
    rewrite (same_rgb_join _ _ _ Hc Hm) in Hap. discriminate (Hap eq_refl). }
  destruct (decide (k = index g)) as [->|Hkg].
  - rewrite Hd in He. inversion He; subst displaced.
    exists j, e. split; [lia|]. split; [|exact Hc].
    rewrite list_lookup_insert_ne by congruence.
    apply list_lookup_insert_eq. eapply lookup_lt_Some. exact Hje.
  - exists k, e. split; [exact Hk|]. split; [|exact Hc].
    rewrite list_lookup_insert_ne by congruence.
    rewrite list_lookup_insert_ne by congruence.
    exact He.
Qed.

Lemma place_fixed_pins (l : list liq_color) (f : palette_entry_t)
    (es es' : list palette_entry_t) (maxIndex maxIndex' : Z) :
  place_fixed (Some l) f es maxIndex = Ok (es', maxIndex') ->
  exact f = false ->
  in_range (length l) f es -> pinned f es'.
Proof.
  unfold place_fixed. intros H Hex (k & e & Hk & He & Hc). rewrite Hex in H.
  steps H. destruct x as [j|].
  - destruct (find_color_found _ _ _ _ _ Hx) as (_ & entry & Hje & Hm).
    apply swap_into_place_Ok in H as (tmp & displaced & Htmp & Hd & -> & _).
    rewrite Hje in Htmp. inversion Htmp; subst tmp.
    exists (set_valid entry true). split; [|split; [reflexivity | exact Hm]].
    apply list_lookup_insert_eq. rewrite length_insert.
    eapply lookup_lt_Some. exact Hd.
  - rewrite (find_color_missed _ _ _ _ Hx k e) in Hc; [discriminate Hc | lia | exact He].
Qed.

Lemma place_fixed_all_keeps_pinned (l : list liq_color) (f : palette_entry_t)
    (gs : list palette_entry_t) :
  forall (es es' : list palette_entry_t) (maxIndex maxIndex' : Z),
    place_fixed_all (Some l) gs es maxIndex = Ok (es', maxIndex') ->
    Forall (fun g => index g <> index f /\ apart f g) gs ->
    pinned f es -> pinned f es'.
Proof.
  induction gs as [|g gs IH]; intros es es' maxIndex maxIndex' H Hgs Hp.
  - inversion H; subst. exact Hp.
  - simpl in H. steps H.
    apply Forall_cons in Hgs as [[Hidx Hap] Hgs].
    eapply IH; [exact H | exact Hgs |].
    eapply place_fixed_keeps_pinned; eassumption.
Qed.

Lemma place_fixed_all_pins (l : list liq_color) (fs : list palette_entry_t) :
  forall (es es' : list palette_entry_t) (maxIndex maxIndex' : Z)
         (f : palette_entry_t),
    place_fixed_all (Some l) fs es maxIndex = Ok (es', maxIndex') ->
    NoDup (map index fs) ->
    distinct_colors fs ->
    In f fs -> exact f = false ->
    in_range (length l) f es -> pinned f es'.
Proof.
  induction fs as [|g fs IH]; intros es es' maxIndex maxIndex' f H Hnd Hdc Hin Hex Hr;
    [destruct Hin|].
  simpl in H. steps H.
  simpl in Hnd. apply NoDup_cons in Hnd as [Hg Hnd].
  assert (Hother : forall h, In h fs -> index h <> index g).
  { intros h Hh E. apply Hg. rewrite <- E. apply list_elem_of_In, in_map. exact Hh. }
  destruct Hin as [->|Hin].
  - eapply place_fixed_all_keeps_pinned; [exact H | |].
    + apply List.Forall_forall. intros h Hh. split; [apply Hother; exact Hh|].
      intros Hexh. apply Hdc; [left; reflexivity | right; exact Hh | exact Hex |
                               exact Hexh |].
      intros E. apply (Hother h Hh). symmetry. exact E.
    + eapply place_fixed_pins; eassumption.
  - eapply (IH u es' v maxIndex' f H Hnd); [| exact Hin | exact Hex |].
    + intros a c Ha Hc. apply Hdc; right; assumption.
    + eapply place_fixed_keeps_in_range; [exact Hx | | exact Hr].
      intros Hexg. apply Hdc; [right; exact Hin | left; reflexivity | exact Hex |
                               exact Hexg | apply Hother; exact Hin].
Qed.

Lemma NoDup_map_index (fs : list palette_entry_t) (f g : palette_entry_t) :
  NoDup (map index fs) -> In g fs -> In f fs -> index g = index f -> g = f.
Proof.
  induction fs as [|h fs IH]; intros Hnd Hg Hf E; [destruct Hg|].
  simpl in Hnd. apply NoDup_cons in Hnd as [Hh Hnd].
  destruct Hg as [->|Hg], Hf as [->|Hf].
  - reflexivity.
  - exfalso. apply Hh. rewrite E. apply list_elem_of_In, in_map. exact Hf.
  - exfalso. apply Hh. rewrite <- E. apply list_elem_of_In, in_map. exact Hg.
  - apply IH; assumption.
Qed.

Lemma seed_flag (m : color_mode_t) (f : palette_entry_t) :
  exact (seed m f) = exact f /\ index (seed m f) = index f.
Proof. unfold seed. destruct (exact f) eqn:E; simpl; auto. Qed.

(** X13.  A fixed entry that is not exact receives the slot of its pinned
    index when the quantizer kept its colour: in a run of
    [palette_generate_with_images] that calls the quantizer and returns 0,
    over a table of 256 slots, with pinned indices that are all distinct
    and colours of the entries that are not exact that differ after the
    conversion, if a colour of the quantizer's palette is stored with the
    red, green and blue of the converted fixed colour, then the slot of the
    pinned index is valid and has this red, green and blue. *)
Theorem fixed_color_pinned (palette : palette_t) (l : list liq_color)
    (f : palette_entry_t) (c : liq_color) :
  let R := palette_generate_with_images palette in
  let m := mode palette in
  length (entries palette) = PALETTE_MAX_ENTRIES ->
  NoDup (map index (fixedEntries palette)) ->
  distinct_colors (map (converted m) (fixedEntries palette)) ->
  In liq_histogram_quantize_call (trace R) ->
  liq_histogram_quantize (histogram palette)
    (mk_attr (quantizeSpeed palette) (capacity palette)) = Some l ->
  out R = Success ->
  In f (fixedEntries palette) -> exact f = false ->
  In c l ->
  same_rgb (rgb (color_convert (color f) m)) (rgb (stored_color m c)) = true ->
  exists e,
    entries (pal R) !! index f = Some e /\ valid e = true /\
    same_rgb (rgb (color_convert (color f) m)) (rgb (color e)) = true.
Proof.
  intros R m Hlen Hnd Hdc Hq Hans Hout Hf Hex Hc Hsame. subst R m.
  rewrite (quantizer_called palette Hq) in Hout |- *. rewrite Hans in Hout |- *.
  unfold quantized in Hout |- *.
  change (mode (set_fixedEntries palette (seeded palette)))
    with (mode palette) in Hout |- *.
  destruct (store_quantized (mode palette) l 0 (entries palette) (-1))
    as [[es0 mi0]|flt] eqn:Hst; [|discriminate Hout].
  destruct (store_quantized_spec _ _ _ _ _ _ _ Hst) as (L & Hfit & _ & Hin & _).
  unfold finish in Hout |- *.
  change (fixedEntries (set_fixedEntries palette (seeded palette)))
    with (seeded palette) in Hout |- *.
  change (mode (set_fixedEntries palette (seeded palette)))
    with (mode palette) in Hout |- *.
  destruct (resolve (mode palette) (Some l) (seeded palette) es0 mi0)
    as [[[[fs' es'] n] u]|flt] eqn:Hres; [|discriminate Hout].
  cbn [pal set_table entries].
  unfold resolve in Hres. steps Hres. inversion Hres; subst; clear Hres.
  rename u0 into es1.
  rewrite seeded_map in Hx, Hx0.
  set (sf := seed (mode palette) f).
  assert (Hsf : In sf (map (seed (mode palette)) (fixedEntries palette)))
    by (apply in_map; exact Hf).
  assert (Hcol : color sf = color_convert (color f) (mode palette))
    by (unfold sf, seed; rewrite Hex; reflexivity).
  assert (Hsx : exact sf = false) by (unfold sf, seed; rewrite Hex; exact Hex).
  assert (Hsi : index sf = index f)
    by (unfold sf, seed; rewrite Hex; reflexivity).
  assert (Hpin : pinned sf es1).
  { eapply place_fixed_all_pins; [exact Hx | | | exact Hsf | exact Hsx |].
    - rewrite map_map.
      erewrite map_ext; [exact Hnd|].
      intros a. unfold seed. destruct (exact a); reflexivity.
    - intros a b Ha Hb Hxa Hxb Hab.
      apply in_map_iff in Ha as (a0 & <- & Ha0).
      apply in_map_iff in Hb as (b0 & <- & Hb0).
      assert (Ea : exact a0 = false)
        by (rewrite <- (proj1 (seed_flag (mode palette) a0)); exact Hxa).
      assert (Eb : exact b0 = false)
        by (rewrite <- (proj1 (seed_flag (mode palette) b0)); exact Hxb).
      unfold seed in Hab |- *. rewrite Ea, Eb in Hab |- *.
      apply (Hdc (converted (mode palette) a0) (converted (mode palette) b0));
        [apply in_map; exact Ha0 | apply in_map; exact Hb0 | exact Ea | exact Eb |
         exact Hab].
    - apply list_elem_of_In, list_elem_of_lookup in Hc as [k Hk].
      destruct (Hin k c Hk) as (e & He & _ & Hce).
      exists k, e. split; [eapply lookup_lt_Some; exact Hk|].
      split; [exact He|]. rewrite Hcol, Hce. exact Hsame. }
  destruct Hpin as (e & He & Hv & Hm).
  exists e. rewrite <- Hcol. split; [|split; [exact Hv | exact Hm]].
  rewrite <- Hsi.
  eapply place_exact_all_keeps; [exact Hx0 | | exact He | exact Hv |].
  - rewrite (place_fixed_all_length _ _ _ _ _ _ Hx), L. exact Hlen.
  - intros g Hg Hgx E.
    apply in_map_iff in Hg as (g0 & <- & Hg0).
    assert (Eg : exact g0 = true)
      by (rewrite <- (proj1 (seed_flag (mode palette) g0)); exact Hgx).
    rewrite (proj2 (seed_flag (mode palette) g0)), Hsi in E.
    assert (g0 = f); [|subst g0; congruence].
    eapply NoDup_map_index; eassumption.
Qed.

(** ** Relocation with a free slot *)

(** X16.  When the slot of an exact fixed entry's pinned index holds a
    valid entry and some slot of a table of [PALETTE_MAX_ENTRIES] slots is
    not valid, the placement stays within the table and loses nothing: the
    occupant goes to the first slot that is not valid, found by the scan
    from slot 0, the fixed entry takes the pinned slot, converted and
    valid, every other slot is as it was, and the valid colours of the
    table are the old ones and the colour placed. *)
Theorem occupant_relocated (m : color_mode_t) (f occupant : palette_entry_t)
    (es : list palette_entry_t) (maxIndex : Z) :
  length es = PALETTE_MAX_ENTRIES ->
  es !! index f = Some occupant ->
  valid occupant = true ->
  (nvalid es < PALETTE_MAX_ENTRIES)%nat ->
  exists es' j free,
    place_exact m f es maxIndex =
      Ok (converted m f, es', raise_to (raise_to maxIndex j) (index f)) /\
    (j < PALETTE_MAX_ENTRIES)%nat /\
    (forall i, (i < j)%nat ->
       exists entry, es !! i = Some entry /\ valid entry = true) /\
    es !! j = Some free /\ valid free = false /\
    es' !! j = Some occupant /\
    es' !! index f = Some (exact_slot m f) /\
    (forall k, k <> j -> k <> index f -> es' !! k = es !! k) /\
    valid_colors es' ≡ₚ color_convert (color f) m :: valid_colors es.
Proof.
  intros Hlen Hocc Hv Hroom.
  assert (Hidx : (index f < PALETTE_MAX_ENTRIES)%nat)
    by (rewrite <- Hlen; eapply lookup_lt_Some; exact Hocc).
  destruct (place_exact_in_table m f es maxIndex Hlen Hidx Hroom)
    as (f' & es' & mi' & H & _ & _).
  destruct (place_exact_colors _ _ _ _ _ _ _ H Hlen) as (_ & Hat & P & Hmove).
  destruct (Hmove occupant Hocc Hv) as (j & free & Hj & Hbelow & Hfree & Hfv & Hjo).
  destruct (place_exact_Ok _ _ _ _ _ _ _ H) as (-> & occ & Hocc' & Hcase).
  rewrite Hocc in Hocc'. inversion Hocc'; subst occ. clear Hocc'.
  destruct Hcase as [(Hv' & _) | (_ & j' & Hj' & Hjlt & -> & ->)]; [congruence|].
  rewrite Hj in Hj'. inversion Hj'; subst j'. clear Hj'.
  eexists _, j, free. split; [exact H|].
  split; [rewrite <- Hlen; exact Hjlt|]. split; [exact Hbelow|].
  split; [exact Hfree|]. split; [exact Hfv|]. split; [exact Hjo|].
  split; [exact Hat|]. split; [|exact P].
  intros k Hkj Hki.
  rewrite list_lookup_insert_ne by congruence.
  apply list_lookup_insert_ne. congruence.
Qed.

(** ** [pallete_add_path] *)

Lemma add_paths_images (paths : list string) :
  forall palette : palette_t,
    add_paths palette paths =
    set_images palette (images palette ++ map new_image paths).
Proof.
  induction paths as [|p paths IH]; intros palette.
  - simpl. rewrite app_nil_r, set_images_id. reflexivity.
  - simpl. rewrite IH. unfold set_images. simpl.
    rewrite <- app_assoc. reflexivity.
Qed.

(** X14.  [pallete_add_path] returns 0 exactly when the path is not [NULL]
    and the pattern matches at least one file; it then registers one image
    per match, in the order of the matches, after the images the palette
    has, and changes nothing else of the palette.  The buffer of the
    matches is released in this case only: when nothing matches, the
    function returns 1 with the palette as it was and the buffer is not
    released. *)
Theorem add_path_outcome (find : string -> list string) (palette : palette_t)
    (p : option string) :
  let found := match p with Some s => find s | None => [] end in
  let R := pallete_add_path find palette p in
  snd (fst R) = set_images palette (images palette ++ map new_image found) /\
  fst (fst R) = (if nonempty found then 0 else 1) /\
  (forall s, In (strings_find_images_call s) (snd R) <-> p = Some s) /\
  (In globfree_call (snd R) <-> fst (fst R) = 0) /\
  (In free_globbuf (snd R) <-> fst (fst R) = 0).
Proof.
  intros found R. subst found R. unfold pallete_add_path.
  destruct p as [s|].
  - destruct (find s) as [|q qs] eqn:Hfind.
    + simpl. rewrite app_nil_r, set_images_id.
      split; [reflexivity|]. split; [reflexivity|]. split; [|split].
      * intros s'. split; [intros [E|[]]; congruence | intros E; left; congruence].
      * split; [intros [E|[]]; discriminate E | discriminate].
      * split; [intros [E|[]]; discriminate E | discriminate].
    + change (Z.of_nat (length (q :: qs)) =? 0) with false.
      cbn [fst snd nonempty]. rewrite add_paths_images.
      split; [reflexivity|]. split; [reflexivity|]. split; [|split].
      * intros s'. split.
        -- intros [E|[E|[E|[]]]]; congruence.
        -- intros E. left. congruence.
      * split; [reflexivity | intros _; right; left; reflexivity].
      * split; [reflexivity | intros _; right; right; left; reflexivity].
  - simpl. rewrite app_nil_r, set_images_id.
    split; [reflexivity|]. split; [reflexivity|]. split; [|split].
    + intros s'. split; [intros [] | discriminate].
    + split; [intros [] | discriminate].
    + split; [intros [] | discriminate].
Qed.

End Further.

(** * Closed examples of the further properties *)

Lemma distinct_colors_check (fs : list palette_entry_t) :
  forallb (fun f =>
    forallb (fun g =>
      exact f || exact g || (index f =? index g)%nat ||
      negb (same_rgb (rgb (color f)) (rgb (color g)))) fs) fs = true ->
  distinct_colors fs.
Proof.
  intros H f g Hf Hg Hxf Hxg Hidx.
  pose proof (proj1 (forallb_forall _ _)
                (proj1 (forallb_forall _ _) H f Hf) g Hg) as E.
  rewrite Hxf, Hxg in E. simpl in E.
  destruct (Nat.eqb_spec (index f) (index g)) as [Heq|_]; [contradiction|].
  simpl in E. apply negb_true_iff. exact E.
Defined.

(** The job of the palette contributes its image and the image of its
    tileset; the job of the other palette contributes nothing. *)
Lemma automatic_build_collects_witness :
  Forall (fun i => is_Some (path i))
    (candidates (name palette_automatic) converts_tiles) /\
  palette_automatic_build (ext := ext_missing) palette_automatic converts_tiles =
    (0, set_images palette_automatic [file "a.png"; file "c.png"]).
Proof.
  assert (H : Forall (fun i => is_Some (path i))
                (candidates (name palette_automatic)
                   converts_tiles)).
  { repeat constructor; eexists; reflexivity. }
  split; [exact H|].
  rewrite (proj1 (automatic_build_collects (ext := ext_missing)
                    palette_automatic converts_tiles H)).
  reflexivity.
Defined.

(** The image after the one without a path is not registered. *)
Lemma automatic_build_stops_witness :
  candidates (name palette_automatic) converts_broken =
    [file "a.png"] ++ mk_image None "unnamed" 0 false false false ::
    [file "c.png"] /\
  palette_automatic_build (ext := ext_missing) palette_automatic converts_broken =
    (1, set_images palette_automatic [file "a.png"]).
Proof.
  assert (H1 : candidates (name palette_automatic)
                 converts_broken =
               [file "a.png"] ++ mk_image None "unnamed" 0 false false false ::
               [file "c.png"]) by reflexivity.
  assert (H2 : Forall (fun x => is_Some (path x)) [file "a.png"])
    by (repeat constructor; eexists; reflexivity).
  split; [exact H1|].
  rewrite (automatic_build_stops (ext := ext_missing) palette_automatic
             converts_broken [file "a.png"] [file "c.png"]
             (mk_image None "unnamed" 0 false false false) H1 H2 eq_refl).
  reflexivity.
Defined.

Lemma automatic_as_explicit_witness :
  automatic palette_automatic = true /\
  reserved (name palette_automatic) = None /\
  out (palette_generate (ext := ext_missing) palette_automatic converts_tiles) =
  out (palette_generate (ext := ext_missing)
         (explicit palette_automatic [file "a.png"; file "c.png"]) []).
Proof.
  assert (H1 : automatic palette_automatic = true) by reflexivity.
  assert (H2 : reserved (name palette_automatic) = None)
    by (vm_compute; reflexivity).
  assert (H3 : Forall (fun i => is_Some (path i))
                 (candidates (name palette_automatic)
                    converts_tiles)).
  { repeat constructor; eexists; reflexivity. }
  split; [exact H1|]. split; [exact H2|].
  exact (proj1 (automatic_as_explicit (ext := ext_missing) palette_automatic
                  converts_tiles H1 H2 H3)).
Defined.


Lemma failure_has_cause_witness :
  let R := palette_generate (ext := ext_rg) palette_overfull [] in
  out R = Failure TooManyFixedColors /\
  entries (pal R) = entries palette_overfull /\
  maxEntries palette_overfull < numFixedEntries palette_overfull.
Proof.
  assert (H : out (palette_generate (ext := ext_rg) palette_overfull []) =
              Failure TooManyFixedColors) by (vm_compute; reflexivity).
  split; [exact H|].
  destruct (failure_has_cause (ext := ext_rg) palette_overfull []
              TooManyFixedColors H) as (_ & He & _ & Hc).
  split; [exact He | exact Hc].
Defined.

(** Two slots allowed and one exact entry: the image is not read. *)
Lemma small_capacity_reads_nothing_witness :
  INT_MIN <=
    maxEntries palette_pinned_high -
    Z.of_nat (length (List.filter exact (fixedEntries palette_pinned_high))) <= 1 /\
  List.filter buffer_event
    (trace (palette_generate_with_images (ext := ext_rg) palette_pinned_high)) = [].
Proof.
  assert (H : INT_MIN <=
              maxEntries palette_pinned_high -
              Z.of_nat (length (List.filter exact
                                  (fixedEntries palette_pinned_high))) <= 1)
    by (vm_compute; split; discriminate).
  split; [exact H|].
  exact (proj1 (proj2 (small_capacity_reads_nothing (ext := ext_rg)
                         palette_pinned_high H))).
Defined.

(** One exact entry out of 256 slots: the quantizer is asked for 255
    colours at most. *)
Lemma quantizer_input_witness :
  INT_MIN <=
    maxEntries palette_exact_black -
    Z.of_nat (length (List.filter exact (fixedEntries palette_exact_black))) /\
  In liq_histogram_quantize_call
    (trace (palette_generate_with_images (ext := ext_rg) palette_exact_black)) /\
  exists hist attr,
    palette_generate_with_images (ext := ext_rg) palette_exact_black =
      quantized (ext := ext_rg)
        (set_fixedEntries palette_exact_black
           (seeded (ext := ext_rg) palette_exact_black))
        (entries palette_exact_black)
        (@liq_histogram_quantize ext_rg hist attr)
        (loading_trace (ext := ext_rg) palette_exact_black) /\
    max_colors attr = 255 /\ fixed_colors hist = [].
Proof.
  assert (H : In liq_histogram_quantize_call
                (trace (palette_generate_with_images (ext := ext_rg)
                          palette_exact_black))).
  { vm_compute. repeat ((left; reflexivity) || right). }
  assert (H0 : INT_MIN <=
               maxEntries palette_exact_black -
               Z.of_nat (length (List.filter exact
                                   (fixedEntries palette_exact_black))))
    by (vm_compute; discriminate).
  split; [exact H0|]. split; [exact H|].
  destruct (quantizer_input (ext := ext_rg) palette_exact_black H0 H)
    as (hist & attr & HR & Hmax & _ & _ & Hfix & _).
  exists hist, attr. split; [exact HR|]. split; [exact Hmax | exact Hfix].
Defined.

(** The quantizer answers red and green: they are the slots 0 and 1. *)
Lemma quantizer_palette_stored_witness :
  let R := palette_generate_with_images (ext := ext_rg) palette_plain in
  Forall (fun i => is_Some (@image_load ext_rg i)) (images palette_plain) /\
  @liq_histogram_quantize ext_rg
    (mk_hist [] (submitted_rows (ext := ext_rg) [] (mode palette_plain)
                   (images palette_plain)))
    (mk_attr (quantizeSpeed palette_plain) (maxEntries palette_plain)) =
    Some [red; green] /\
  out R = Success /\ numEntries (pal R) = 2.
Proof.
  assert (H1 : fixedEntries palette_plain = []) by reflexivity.
  assert (H2 : 1 < maxEntries palette_plain) by (vm_compute; reflexivity).
  assert (H3 : Forall (fun i => is_Some (@image_load ext_rg i))
                 (images palette_plain)).
  { repeat constructor; eexists; vm_compute; reflexivity. }
  assert (H4 : submitted_rows (ext := ext_rg) [] (mode palette_plain)
                 (images palette_plain) <> []) by (vm_compute; discriminate).
  assert (H5 : @liq_histogram_quantize ext_rg
                 (mk_hist [] (submitted_rows (ext := ext_rg) []
                                (mode palette_plain) (images palette_plain)))
                 (mk_attr (quantizeSpeed palette_plain)
                    (maxEntries palette_plain)) = Some [red; green])
    by reflexivity.
  assert (H6 : (length [red; green] <= length (entries palette_plain))%nat)
    by (vm_compute; lia).
  split; [exact H3|]. split; [exact H5|].
  destruct (quantizer_palette_stored (ext := ext_rg) palette_plain [red; green]
              H1 H2 H3 H4 H5 H6) as (Hout & Hn & _).
  split; [exact Hout | exact Hn].
Defined.

(** The only image is black throughout and black is exact. *)
Lemma exact_entries_alone_witness :
  let R := palette_generate_with_images (ext := ext_black) palette_exact_black in
  forallb exact (fixedEntries palette_exact_black) = true /\
  out R = Success /\ numEntries (pal R) = 1.
Proof.
  assert (H1 : forallb exact (fixedEntries palette_exact_black) = true)
    by reflexivity.
  assert (H2 : NoDup (map index (fixedEntries palette_exact_black)))
    by (apply (NoDup_singleton 0%nat)).
  assert (H3 : Forall (fun f => exists e,
                   entries palette_exact_black !! index f = Some e /\
                   valid e = false) (fixedEntries palette_exact_black)).
  { repeat constructor. exists blank. split; reflexivity. }
  assert (H4 : forall i, In i (processed palette_exact_black) ->
            exists data,
              @image_load ext_black i = Some data /\
              survivors (fixedEntries palette_exact_black) data = []).
  { intros i [<-|[]]. exists [black; black]. split; vm_compute; reflexivity. }
  split; [exact H1|].
  destruct (exact_entries_alone (ext := ext_black) palette_exact_black
              H1 H2 H3 H4) as (Hout & _ & _ & _ & Hn).
  split; [exact Hout | exact Hn].
Defined.

(** Red is pinned at index 5 and the quantizer answers red and green. *)
Lemma fixed_color_pinned_witness :
  let R := palette_generate_with_images (ext := ext_rg) palette_stale in
  out R = Success /\
  In liq_histogram_quantize_call (trace R) /\
  exists e,
    entries (pal R) !! 5%nat = Some e /\ valid e = true /\
    same_rgb red (rgb (color e)) = true.
Proof.
  assert (H1 : length (entries palette_stale) = PALETTE_MAX_ENTRIES)
    by (vm_compute; reflexivity).
  assert (H2 : NoDup (map index (fixedEntries palette_stale))).
  { apply (NoDup_cons_2 5%nat [1%nat]); [|apply NoDup_singleton].
    intros H. apply list_elem_of_In in H. destruct H as [H|[]]. discriminate H. }
  assert (H3 : distinct_colors
                 (map (converted (ext := ext_rg) (mode palette_stale))
                    (fixedEntries palette_stale)))
    by (apply distinct_colors_check; vm_compute; reflexivity).
  assert (H4 : In liq_histogram_quantize_call
                 (trace (palette_generate_with_images (ext := ext_rg)
                           palette_stale))).
  { vm_compute. repeat ((left; reflexivity) || right). }
  assert (H5 : @liq_histogram_quantize ext_rg
                 (histogram (ext := ext_rg) palette_stale)
                 (mk_attr (quantizeSpeed palette_stale)
                    (capacity palette_stale)) = Some [red; green])
    by reflexivity.
  assert (H6 : out (palette_generate_with_images (ext := ext_rg) palette_stale) =
               Success) by (vm_compute; reflexivity).
  split; [exact H6|]. split; [exact H4|].
  exact (fixed_color_pinned (ext := ext_rg) palette_stale [red; green]
           (fixed_color red 5 false) red H1 H2 H3 H4 H5 H6
           (or_introl eq_refl) eq_refl (or_introl eq_refl) eq_refl).
Defined.

(** Red and green occupy the slots 0 and 1; black, exact at index 0, sends
    red to the first free slot. *)
Lemma occupant_relocated_witness :
  let es := <[1%nat := mk_entry (mk_color green 0) 0 false true]>
              (<[0%nat := mk_entry (mk_color red 0) 0 false true]> blank_table) in
  let occupant := mk_entry (mk_color red 0) 0 false true in
  length es = PALETTE_MAX_ENTRIES /\
  es !! index (fixed_color black 0 true) = Some occupant /\
  (nvalid es < PALETTE_MAX_ENTRIES)%nat /\
  exists es' j,
    place_exact (ext := ext_rg) 0 (fixed_color black 0 true) es 1 =
      Ok (converted (ext := ext_rg) 0 (fixed_color black 0 true), es',
          raise_to (raise_to 1 j) 0) /\
    es' !! j = Some occupant.
Proof.
  intros es occupant.
  assert (H1 : length es = PALETTE_MAX_ENTRIES) by (vm_compute; reflexivity).
  assert (H2 : es !! index (fixed_color black 0 true) = Some occupant)
    by reflexivity.
  assert (H3 : (nvalid es < PALETTE_MAX_ENTRIES)%nat) by (vm_compute; lia).
  split; [exact H1|]. split; [exact H2|]. split; [exact H3|].
  destruct (occupant_relocated (ext := ext_rg) 0 (fixed_color black 0 true)
              occupant es 1 H1 H2 eq_refl H3)
    as (es' & j & free & H & _ & _ & _ & _ & Hj & _).
  exists es', j. split; [exact H | exact Hj].
Defined.
